(** * XTTS inference orchestration (TTS/tts/models/xtts.py)

    A shallow embedding of the orchestration code of the XTTS model:
    [pad_or_truncate], the chunking of the diffusion conditioning audio, the
    silence truncation and the token-length guard of [Xtts.inference], the
    crossfade of [Xtts.handle_chunks] and the loop of [Xtts.inference_stream],
    the key remapping of [Xtts.get_compatible_checkpoint_state_dict] and the
    retry of [Xtts.load_checkpoint].

    The neural components (tokenizer, GPT, HiFi-GAN decoder, audio loader) are
    collaborators of the module: they are parameters of the sections below.
    Tensors are modelled along the axis the code slices: a waveform or a latent
    sequence is a list over time.  Sample arithmetic is a parameter too, so the
    statements hold for any arithmetic (floating point included). *)

From Stdlib Require Import ZArith Lia Bool Arith String Ascii List.
From Stdlib Require QArith.
Import ListNotations.

Set Implicit Arguments.
Unset Strict Implicit.

(* ===================================================================== *)
(** ** Python values, exceptions and slices *)
(* ===================================================================== *)

(** The exceptions the modelled code raises. *)
Inductive exn : Type :=
| AssertionError
| KeyError (key : string)
| RuntimeError       (* torch shape and argument errors *)
| IndexError         (* slicing a 0-dim tensor *)
| LoadError          (* whatever [load_state_dict] raises *)
| AttributeError.    (* an attribute of [None], or one that was never assigned *)

Inductive result (A : Type) : Type :=
| Ok (a : A)
| Err (e : exn).
Arguments Ok {A} a.
Arguments Err {A} e.

Definition rbind {A B} (r : result A) (k : A -> result B) : result B :=
  match r with
  | Ok a => k a
  | Err e => Err e
  end.

Declare Scope res_scope.
Delimit Scope res_scope with res.
Notation "x <- r ;; k" := (rbind r (fun x => k))
  (at level 61, r at next level, right associativity) : res_scope.
Notation "' p <- r ;; k" := (rbind r (fun p => k))
  (at level 61, p pattern, r at next level, right associativity) : res_scope.

(** [len(l)] as a Python integer. *)
Definition len {A} (l : list A) : Z := Z.of_nat (List.length l).

(** Python's normalisation of one slice bound against a sequence of length
    [n]: a negative bound counts from the end, and both are clamped. *)
Definition py_bound (n i : Z) : Z :=
  if (i <? 0)%Z then Z.max (i + n) 0 else Z.min i n.

(** The normalised lower and upper bounds of [l[start:stop]] for [len(l) = n]. *)
Definition py_lo (n : Z) (start : option Z) : Z :=
  match start with None => 0%Z | Some i => py_bound n i end.

Definition py_hi (n : Z) (stop : option Z) : Z :=
  match stop with None => n | Some i => py_bound n i end.

(** [l[start:stop]] with optional integer bounds (step 1). *)
Definition py_slice {A} (l : list A) (start stop : option Z) : list A :=
  let lo := py_lo (len l) start in
  let hi := py_hi (len l) stop in
  firstn (Z.to_nat (hi - lo)) (skipn (Z.to_nat lo) l).

(* ===================================================================== *)
(** ** pad_or_truncate and the diffusion conditioning chunks *)
(* ===================================================================== *)

Section PadOrTruncate.
Variable T : Type.
Variable zero : T.

(** [F.pad(t, (0, k))]: [k] zeros appended on the last dimension. *)
Definition F_pad_right (t : list T) (k : Z) : list T :=
  t ++ repeat zero (Z.to_nat k).

(** [pad_or_truncate(t, length)] on the last dimension of [t]. *)
Definition pad_or_truncate (t : list T) (length : Z) : list T :=
  let tp := py_slice t None (Some length) in
  if (len t =? length)%Z then t
  else if (len t <? length)%Z then F_pad_right t (length - len t)
  else tp.


Definition CHUNK_SIZE : Z := 102400.

(** [ceil(n / d)] for a sample count [n] and a positive [d]. *)
Definition ceil_div (n d : Z) : Z := ((n + d - 1) / d)%Z.

(** The loop of [get_diffusion_cond_latents] up to the mel extraction: the
    list of chunks handed to [wav_to_univnet_mel], for a mono waveform
    [audio_24k] (the row of the [1, N] tensor), with chunk size [cs]. *)
Definition diffusion_cond_chunks_with (cs : Z) (audio_24k : list T) : list (list T) :=
  map (fun chunk : nat =>
         let c := Z.of_nat chunk in
         let current_sample :=
           py_slice audio_24k (Some (c * cs)%Z) (Some ((c + 1) * cs)%Z) in
         pad_or_truncate current_sample cs)
      (seq 0 (Z.to_nat (ceil_div (len audio_24k) cs))).

Definition diffusion_cond_chunks (audio_24k : list T) : list (list T) :=
  diffusion_cond_chunks_with CHUNK_SIZE audio_24k.
End PadOrTruncate.

(* ===================================================================== *)
(** ** Silence truncation of Xtts.inference *)
(* ===================================================================== *)

Definition silence_token : Z := 83.

(** The [for k in range(gpt_codes.shape[-1])] loop: [k] is the index of the
    code at the head of [codes], [ctokens] the running counter.  [Some k] is
    the index at which the loop breaks, [None] a loop that runs to the end. *)
Fixpoint silence_scan (codes : list Z) (k ctokens : nat) : option nat :=
  match codes with
  | [] => None
  | c :: rest =>
      let ctokens := if (c =? silence_token)%Z then S ctokens else 0 in
      if 8 <? ctokens then Some k else silence_scan rest (S k) ctokens
  end.

(** The latents after the loop: [gpt_latents[:, :k]] at the break. *)
Definition silence_truncate {Lat} (gpt_codes : list Z) (gpt_latents : list Lat) : list Lat :=
  match silence_scan gpt_codes 0 0 with
  | Some k => py_slice gpt_latents None (Some (Z.of_nat k))
  | None => gpt_latents
  end.

(** No run of nine silence codes anywhere: every run has length at most 8. *)
Definition no_long_run (codes : list Z) : Prop :=
  forall a b, codes <> a ++ repeat silence_token 9 ++ b.

(** The sequence does not end in a silence code, so that a run placed after
    it starts there. *)
Definition not_ending_in_silence (codes : list Z) : Prop :=
  forall a, codes <> a ++ [silence_token].

(* ===================================================================== *)
(** ** Calls to collaborators: a state and exception monad *)
(* ===================================================================== *)

(** A computation over a state [S] that returns or raises.  The state
    reached when an exception is raised is kept: what Python code did before
    it raised stays done. *)
Definition M (S A : Type) : Type := S -> result A * S.

Definition ret {S A} (a : A) : M S A := fun s => (Ok a, s).

Definition raise {S A} (e : exn) : M S A := fun s => (Err e, s).

Definition bind {S A B} (m : M S A) (k : A -> M S B) : M S B :=
  fun s =>
    match m s with
    | (Ok a, s') => k a s'
    | (Err e, s') => (Err e, s')
    end.

(** [try: m  except: h] with a bare [except], which catches everything. *)
Definition try_except {S A} (m : M S A) (h : M S A) : M S A :=
  fun s =>
    match m s with
    | (Ok a, s') => (Ok a, s')
    | (Err _, s') => h s'
    end.

Definition lift_result {S A} (r : result A) : M S A := fun s => (r, s).

Definition when {S} (b : bool) (m : M S unit) : M S unit :=
  if b then m else ret tt.

Declare Scope prog_scope.
Delimit Scope prog_scope with prog.
Notation "x <-- m ;; k" := (bind m (fun x => k))
  (at level 61, m at next level, right associativity) : prog_scope.
Notation "m ;;; k" := (bind m (fun _ => k))
  (at level 61, right associativity) : prog_scope.

(** The collaborators whose invocation the claims speak about. *)
Inductive call : Type :=
| CallTokenizerEncode
| CallGptGenerate
| CallGptForward
| CallHifiganDecoder
| CallDiffusionTimestepIndependent
| CallDiffusionSampleLoop
| CallTorchaudioLoad (file_path : string)
| CallGetSpeakerEmbedding
| CallGetGptCondLatents
| CallLoadTokenizer
| CallInitModels
| CallLoadStateDict
| CallInitGptForInference
| CallHifiganEval
| CallGptEval.

Definition call_eqb (a b : call) : bool :=
  match a, b with
  | CallTokenizerEncode, CallTokenizerEncode
  | CallGptGenerate, CallGptGenerate
  | CallGptForward, CallGptForward
  | CallHifiganDecoder, CallHifiganDecoder
  | CallDiffusionTimestepIndependent, CallDiffusionTimestepIndependent
  | CallDiffusionSampleLoop, CallDiffusionSampleLoop
  | CallGetSpeakerEmbedding, CallGetSpeakerEmbedding
  | CallGetGptCondLatents, CallGetGptCondLatents
  | CallLoadTokenizer, CallLoadTokenizer
  | CallInitModels, CallInitModels
  | CallLoadStateDict, CallLoadStateDict
  | CallInitGptForInference, CallInitGptForInference
  | CallHifiganEval, CallHifiganEval
  | CallGptEval, CallGptEval => true
  | CallTorchaudioLoad p, CallTorchaudioLoad q => String.eqb p q
  | _, _ => false
  end.

(** How many times [c] occurs in a call log. *)
Definition count_call (c : call) (log : list call) : nat :=
  List.length (filter (call_eqb c) log).

(** A collaborator that returns [a]: its call is appended to the log. *)
Definition invoke {A} (c : call) (a : A) : M (list call) A :=
  fun log => (Ok a, log ++ [c]).

(* ===================================================================== *)
(** ** Xtts.inference and do_spectrogram_diffusion *)
(* ===================================================================== *)

(** The fields of [XttsArgs] the orchestration reads. *)
Record XttsArgs : Type := {
  gpt_max_text_tokens : Z;
  gpt_code_stride_len : Z;
  kv_cache : bool
}.

Definition default_XttsArgs : XttsArgs :=
  {| gpt_max_text_tokens := 402; gpt_code_stride_len := 1024; kv_cache := true |}.

Section Inference.
(** Latent frames, speaker embeddings, waveforms, conditioning latents,
    the sampling settings forwarded to [gpt.generate], mel frames, and the
    floating-point settings (kept abstract). *)
Variables Lat Spk Wav Cond Sampling Mel Num : Type.

(** The collaborators, as the functions of their arguments they are here. *)
Record Components : Type := {
  text_strip_lower : string -> string;
  tokenizer_encode : string -> string -> list Z;
  gpt_generate : Cond -> list Z -> Sampling -> list Z;
  gpt_forward : list Z -> Z -> list Z -> Z -> Cond -> list Lat;
  hifigan_decoder : list Lat -> Spk -> Wav;
  (* the diffusion path *)
  timestep_independent : list Lat -> Cond -> Z -> list Lat;
  sample_loop : Z -> Num -> list Lat -> list Mel;
  denormalize_tacotron_mel : list Mel -> list Mel
}.

(** The keyword arguments of [inference] that steer the decoder. *)
Record DecoderArgs : Type := {
  decoder_iterations : Z;
  cond_free : bool;
  cond_free_k : Num;
  diffusion_temperature : Num;
  decoder_sampler : string;
  decoder : string
}.

Record InferenceOutput : Type := {
  wav : Wav;
  gpt_latents : list Lat;
  speaker_embedding : Spk
}.

Variable self : Components.
Variable args : XttsArgs.

(** [do_spectrogram_diffusion]: the mel is cut to
    [latents.shape[1] * 4 * 24000 // 22050] frames. *)
Definition do_spectrogram_diffusion
    (latents : list Lat) (conditioning_latents : Cond) (temperature : Num)
    : M (list call) (list Mel) :=
  (let output_seq_len := (len latents * 4 * 24000 / 22050)%Z in
   precomputed_embeddings <--
     invoke CallDiffusionTimestepIndependent
       (timestep_independent self latents conditioning_latents output_seq_len) ;;
   mel <--
     invoke CallDiffusionSampleLoop
       (sample_loop self output_seq_len temperature precomputed_embeddings) ;;
   ret (py_slice (denormalize_tacotron_mel self mel) None (Some output_seq_len)))%prog.

(** [Xtts.inference]. *)
Definition inference
    (text language : string) (gpt_cond_latent : Cond) (speaker_embedding : Spk)
    (sampling : Sampling) (dargs : DecoderArgs)
    : M (list call) InferenceOutput :=
  (let text := text_strip_lower self text in
   text_tokens <-- invoke CallTokenizerEncode (tokenizer_encode self text language) ;;
   if negb (len text_tokens <? gpt_max_text_tokens args)%Z
   then raise AssertionError
   else
     gpt_codes <--
       invoke CallGptGenerate (gpt_generate self gpt_cond_latent text_tokens sampling) ;;
     let expected_output_len := (len gpt_codes * gpt_code_stride_len args)%Z in
     let text_len := len text_tokens in
     gpt_latents <--
       invoke CallGptForward
         (gpt_forward self text_tokens text_len gpt_codes expected_output_len
                      gpt_cond_latent) ;;
     let gpt_latents := silence_truncate gpt_codes gpt_latents in
     wav <-- invoke CallHifiganDecoder (hifigan_decoder self gpt_latents speaker_embedding) ;;
     ret {| wav := wav; gpt_latents := gpt_latents;
            speaker_embedding := speaker_embedding |})%prog.

(** The tokens, codes and latents of a call, and its output. *)
Definition tokens_of (text language : string) : list Z :=
  tokenizer_encode self (text_strip_lower self text) language.

Definition codes_of (text language : string) (cond : Cond) (sampling : Sampling) : list Z :=
  gpt_generate self cond (tokens_of text language) sampling.

Definition latents_of (text language : string) (cond : Cond) (sampling : Sampling)
    : list Lat :=
  let tokens := tokens_of text language in
  let codes := codes_of text language cond sampling in
  gpt_forward self tokens (len tokens) codes (len codes * gpt_code_stride_len args)%Z cond.

Definition output_of (text language : string) (cond : Cond) (spk : Spk)
    (sampling : Sampling) : InferenceOutput :=
  let latents :=
    silence_truncate (codes_of text language cond sampling)
                     (latents_of text language cond sampling) in
  {| wav := hifigan_decoder self latents spk;
     gpt_latents := latents;
     speaker_embedding := spk |}.
End Inference.

(* ===================================================================== *)
(** ** Xtts.get_conditioning_latents *)
(* ===================================================================== *)

(** What a caller can pass as [audio_path]: a string, a list of strings, or
    another iterable of strings (a tuple). *)
Inductive audio_path_arg : Type :=
| PathStr (s : string)
| PathList (l : list string)
| PathTuple (l : list string).

(** [list(s)] for a string: its characters, each a string of length one. *)
Definition py_list_of_str (s : string) : list string :=
  map (fun c => String c EmptyString) (list_ascii_of_string s).

(** The [isinstance(audio_path, list)] test and the [list()] conversion. *)
Definition audio_paths_of (audio_path : audio_path_arg) : list string :=
  match audio_path with
  | PathList l => l
  | PathStr s => py_list_of_str s
  | PathTuple l => l
  end.

(** A collaborator that may raise: the call is logged either way. *)
Definition invoke_result {A} (c : call) (r : result A) : M (list call) A :=
  fun log => (r, log ++ [c]).

Section ConditioningLatents.
Variables Audio Spk Cond : Type.

Record CondComponents : Type := {
  torchaudio_load : string -> result (Audio * Z);
  (* truncation to [max_ref_length], mono downmix, normalisation, trimming *)
  prepare_reference : Audio -> Z -> Audio;
  get_speaker_embedding : Audio -> Z -> Spk;
  torch_cat_audio : list Audio -> Audio;
  get_gpt_cond_latents : Audio -> Z -> Z -> Cond;
  stack_mean : list Spk -> Spk
}.

Variable self : CondComponents.

(** The [for file_path in audio_paths] loop, threading the two lists and
    the last [sr] and [speaker_embedding]. *)
Fixpoint load_references
    (audio_paths : list string)
    (speaker_embeddings : list Spk) (audios : list Audio) (sr : option Z)
    : M (list call) (list Spk * list Audio * option Z) :=
  match audio_paths with
  | [] => ret (speaker_embeddings, audios, sr)
  | file_path :: rest =>
      (loaded <-- invoke_result (CallTorchaudioLoad file_path)
                    (torchaudio_load self file_path) ;;
       let '(audio, sr) := loaded in
       let audio := prepare_reference self audio sr in
       speaker_embedding <-- invoke CallGetSpeakerEmbedding
                               (get_speaker_embedding self audio sr) ;;
       load_references rest (speaker_embeddings ++ [speaker_embedding])
                       (audios ++ [audio]) (Some sr))%prog
  end.

(** [Xtts.get_conditioning_latents].  [torch.cat] of an empty list raises. *)
Definition get_conditioning_latents (audio_path : audio_path_arg) (gpt_cond_len : Z)
    : M (list call) (Cond * option Spk) :=
  (let audio_paths := audio_paths_of audio_path in
   loaded <-- load_references audio_paths [] [] None ;;
   let '(speaker_embeddings, audios, sr) := loaded in
   match audios, sr with
   | _ :: _, Some sr =>
       let full_audio := torch_cat_audio self audios in
       gpt_cond_latents <-- invoke CallGetGptCondLatents
                              (get_gpt_cond_latents self full_audio sr gpt_cond_len) ;;
       ret (gpt_cond_latents, Some (stack_mean self speaker_embeddings))
   | _, _ => raise RuntimeError
   end)%prog.

(** The files [torchaudio.load] was called on, in order. *)
Definition loaded_files (log : list call) : list string :=
  flat_map (fun c => match c with CallTorchaudioLoad p => [p] | _ => [] end) log.
End ConditioningLatents.

(* ===================================================================== *)
(** ** The checkpoint dictionary and its key remapping *)
(* ===================================================================== *)

Open Scope string_scope.

(** A Python [dict] with string keys: entries in insertion order, keys
    distinct. *)
Definition dict (V : Type) : Type := list (string * V).

Fixpoint dict_get {V} (d : dict V) (k : string) : option V :=
  match d with
  | [] => None
  | (k', v) :: rest => if String.eqb k' k then Some v else dict_get rest k
  end.

(** [d[k] = v]: an existing key keeps its place, a new one goes last. *)
Fixpoint dict_set {V} (d : dict V) (k : string) (v : V) : dict V :=
  match d with
  | [] => [(k, v)]
  | (k', v') :: rest =>
      if String.eqb k' k then (k', v) :: rest else (k', v') :: dict_set rest k v
  end.

Fixpoint dict_remove {V} (d : dict V) (k : string) : dict V :=
  match d with
  | [] => []
  | (k', v') :: rest =>
      if String.eqb k' k then rest else (k', v') :: dict_remove rest k
  end.

(** [d[k]], raising [KeyError] on a missing key. *)
Definition dict_getitem {V} (d : dict V) (k : string) : result V :=
  match dict_get d k with
  | Some v => Ok v
  | None => Err (KeyError k)
  end.

(** [del d[k]], raising [KeyError] on a missing key. *)
Definition dict_delitem {V} (d : dict V) (k : string) : result (dict V) :=
  match dict_get d k with
  | Some _ => Ok (dict_remove d k)
  | None => Err (KeyError k)
  end.

Definition dict_keys {V} (d : dict V) : list string := map fst d.

(** [s.startswith(p)]. *)
Definition startswith (s p : string) : bool := String.prefix p s.

(** [s.replace(old, "")] for a non-empty [old]: every non-overlapping
    occurrence, found left to right, is removed.  [skip] is the number of
    characters of a found occurrence still to drop. *)
Fixpoint remove_all_from (old : string) (skip : nat) (s : string) : string :=
  match s with
  | EmptyString => EmptyString
  | String c s' =>
      match skip with
      | S n => remove_all_from old n s'
      | O =>
          if String.prefix old s
          then remove_all_from old (String.length old - 1) s'
          else String c (remove_all_from old 0 s')
      end
  end.

Definition py_replace_with_empty (s old : string) : string :=
  remove_all_from old 0 s.

(** [s.split(".")[0]]: what precedes the first dot (all of [s] without one). *)
Fixpoint split_dot_first (s : string) : string :=
  match s with
  | EmptyString => EmptyString
  | String c s' =>
      if Ascii.eqb c "."%char then EmptyString else String c (split_dot_first s')
  end.

Definition ignore_keys : list string :=
  ["torch_mel_spectrogram_style_encoder"; "torch_mel_spectrogram_dvae"; "dvae"].

(** [x in ignore_keys]. *)
Definition in_ignore_keys (x : string) : bool :=
  existsb (String.eqb x) ignore_keys.

Section CheckpointKeys.
Variable Tensor : Type.

(** One iteration of the loop over [list(checkpoint.keys())]. *)
Definition remap_key (checkpoint : dict Tensor) (key : string) : result (dict Tensor) :=
  ('(checkpoint, key) <-
     (if startswith key "xtts."
      then
        let new_key := py_replace_with_empty key "xtts." in
        v <- dict_getitem checkpoint key ;;
        let checkpoint := dict_set checkpoint new_key v in
        checkpoint <- dict_delitem checkpoint key ;;
        Ok (checkpoint, new_key)
      else Ok (checkpoint, key)) ;;
   if in_ignore_keys (split_dot_first key)
   then dict_delitem checkpoint key
   else Ok checkpoint)%res.

Fixpoint remap_keys (keys : list string) (checkpoint : dict Tensor) : result (dict Tensor) :=
  match keys with
  | [] => Ok checkpoint
  | key :: rest =>
      (checkpoint <- remap_key checkpoint key ;; remap_keys rest checkpoint)%res
  end.

(** [Xtts.get_compatible_checkpoint_state_dict], on the mapping stored under
    ["model"] in the file. *)
Definition get_compatible_checkpoint_state_dict (checkpoint : dict Tensor)
    : result (dict Tensor) :=
  remap_keys (dict_keys checkpoint) checkpoint.
End CheckpointKeys.

(** What the remapping is compared with: the first [n] characters dropped,
    an occurrence of [old] somewhere in [s], the key without its ["xtts."]
    prefix, and the keys that are not discarded. *)
Fixpoint string_drop (n : nat) (s : string) : string :=
  match n, s with
  | O, _ => s
  | S n', String _ s' => string_drop n' s'
  | S _, EmptyString => EmptyString
  end.

Fixpoint occurs (old s : string) : bool :=
  String.prefix old s
  || match s with
     | EmptyString => false
     | String _ s' => occurs old s'
     end.

Definition strip_xtts_prefix (key : string) : string :=
  if startswith key "xtts." then string_drop 5 key else key.

Definition kept_key (key : string) : bool :=
  negb (in_ignore_keys (split_dot_first key)).

(** The keys of a checkpoint are well formed for the remapping when ["xtts."]
    occurs in a key only as its prefix and no two keys coincide once the
    prefix is removed. *)
Definition prefix_only {V} (checkpoint : dict V) : Prop :=
  forall k, In k (dict_keys checkpoint) -> startswith k "xtts." = true ->
            occurs "xtts." (string_drop 5 k) = false.

Definition no_collision {V} (checkpoint : dict V) : Prop :=
  NoDup (map strip_xtts_prefix (dict_keys checkpoint)).

(** The mapping [d] after the keys [done] of the checkpoint [d0] were
    processed, with [rest] still to come (the invariant of the loop). *)
Definition remapped {V} (d0 : dict V) (done rest : list string) (d : dict V) : Prop :=
  NoDup (dict_keys d) /\
  (forall k, In k rest -> dict_get d k = dict_get d0 k) /\
  (forall k v, In k done -> dict_get d0 k = Some v ->
               dict_get d (strip_xtts_prefix k)
               = if kept_key (strip_xtts_prefix k) then Some v else None) /\
  (forall k' v, dict_get d k' = Some v ->
                (In k' rest /\ dict_get d0 k' = Some v) \/
                (exists k, In k done /\ strip_xtts_prefix k = k' /\
                           kept_key k' = true /\ dict_get d0 k = Some v)).

(** The claim about the remapping, as it is stated: the call returns a
    mapping in which every key of the checkpoint, without its prefix, has its
    tensor unless it is discarded. *)
Definition remap_as_claimed {V} (checkpoint : dict V) (r : result (dict V)) : Prop :=
  exists d',
    r = Ok d' /\
    forall k v, dict_get checkpoint k = Some v ->
                dict_get d' (strip_xtts_prefix k)
                = if kept_key (strip_xtts_prefix k) then Some v else None.

Close Scope string_scope.

(* ===================================================================== *)
(** ** Xtts.load_checkpoint *)
(* ===================================================================== *)

(** The model object and the log of the calls made on it. *)
Record world (St : Type) : Type := {
  model : St;
  calls : list call
}.

Section LoadCheckpoint.
Variables St Tensor : Type.

Record LoaderComponents : Type := {
  load_tokenizer : St -> St;
  init_models : St -> St;
  (* [self.gpt is not None]: [__init__] sets [self.gpt = None], and
     [init_models] builds the GPT only when the number of text tokens is
     known, from the vocabulary of the tokenizer or from the config *)
  has_gpt : St -> bool;
  (* [self.load_state_dict(checkpoint, strict=strict)]: returns or raises,
     and leaves the model in some state either way *)
  load_state_dict : dict Tensor -> bool -> St -> result unit * St;
  (* [self.gpt.init_gpt_for_inference(kv_cache=.., use_deepspeed=..)], on a
     model that has a GPT *)
  init_gpt_for_inference : bool -> bool -> St -> St;
  hifigan_eval : St -> St;
  (* [self.gpt.eval()], on a model that has a GPT *)
  gpt_eval : St -> St
}.

Variable self : LoaderComponents.
Variable args : XttsArgs.

(** A call that changes the model and returns. *)
Definition effect (c : call) (f : St -> St) : M (world St) unit :=
  fun w => (Ok tt, {| model := f (model w); calls := calls w ++ [c] |}).

(** A call that changes the model and returns or raises. *)
Definition effect_result {A} (c : call) (f : St -> result A * St) : M (world St) A :=
  fun w => let (r, st) := f (model w) in
           (r, {| model := st; calls := calls w ++ [c] |}).

(** A method call on [self.gpt]: while [self.gpt] is [None] the attribute
    lookup raises [AttributeError] and nothing is called. *)
Definition on_gpt (c : call) (f : St -> St) : M (world St) unit :=
  fun w => if has_gpt self (model w) then effect c f w else (Err AttributeError, w).

(** The final [if eval:] block of [load_checkpoint]. *)
Definition eval_mode (eval use_deepspeed : bool) : M (world St) unit :=
  (when eval
     (effect CallHifiganEval (hifigan_eval self) ;;;
      on_gpt CallInitGptForInference
             (init_gpt_for_inference self (kv_cache args) use_deepspeed) ;;;
      on_gpt CallGptEval (gpt_eval self)))%prog.

(** [Xtts.load_checkpoint].  [loaded] is what [load_fsspec(model_path)["model"]]
    gives (the file may be missing), [vocab_exists] the outcome of
    [os.path.exists(vocab_path)]. *)
Definition load_checkpoint
    (loaded : result (dict Tensor)) (vocab_exists eval strict use_deepspeed : bool)
    : M (world St) unit :=
  (when vocab_exists (effect CallLoadTokenizer (load_tokenizer self)) ;;;
   effect CallInitModels (init_models self) ;;;
   checkpoint <--
     lift_result (rbind loaded (@get_compatible_checkpoint_state_dict Tensor)) ;;
   try_except
     (effect_result CallLoadStateDict (load_state_dict self checkpoint strict))
     (when eval
        (on_gpt CallInitGptForInference
                (init_gpt_for_inference self (kv_cache args) false)) ;;;
      effect_result CallLoadStateDict (load_state_dict self checkpoint strict)) ;;;
   eval_mode eval use_deepspeed)%prog.

(** The model and the log when the [try] is entered. *)
Definition before_try (vocab_exists : bool) (w : world St) : world St :=
  let m := if vocab_exists then load_tokenizer self (model w) else model w in
  {| model := init_models self m;
     calls := calls w
              ++ (if vocab_exists then [CallLoadTokenizer] else [])
              ++ [CallInitModels] |}.

(** The calls of the final [if eval:] block. *)
Definition eval_calls (eval : bool) : list call :=
  if eval then [CallHifiganEval; CallInitGptForInference; CallGptEval] else [].

Definition eval_model (eval use_deepspeed : bool) (m : St) : St :=
  if eval
  then gpt_eval self
         (init_gpt_for_inference self (kv_cache args) use_deepspeed (hifigan_eval self m))
  else m.
End LoadCheckpoint.

(* ===================================================================== *)
(** ** Xtts.handle_chunks and Xtts.inference_stream *)
(* ===================================================================== *)

(** How a run of the generator [inference_stream] ended. *)
Inductive status : Type :=
| Done
| Raised (e : exn).

Section Streaming.
(** Samples, their product and sum, the constants [0.0] and [1.0], and
    [torch.linspace(start, end, steps)] for a non-negative [steps]. *)
Variable T : Type.
Variables tmul tadd : T -> T -> T.
Variables zero one : T.
Variable linspace : T -> T -> nat -> list T.

Fixpoint zip_with (f : T -> T -> T) (a b : list T) : list T :=
  match a, b with
  | x :: a', y :: b' => f x y :: zip_with f a' b'
  | _, _ => []
  end.

(** [torch.linspace] raises on a negative number of steps. *)
Definition torch_linspace (start stop : T) (steps : Z) : result (list T) :=
  if (steps <? 0)%Z then Err RuntimeError
  else Ok (linspace start stop (Z.to_nat steps)).

(** [a * b] on 1-D tensors: equal sizes, or one of size 1 that is
    broadcast; anything else raises. *)
Definition tensor_mul (a b : list T) : result (list T) :=
  if List.length a =? List.length b then Ok (zip_with tmul a b)
  else match a, b with
       | [x], _ => Ok (map (fun y => tmul x y) b)
       | _, [y] => Ok (map (fun x => tmul x y) a)
       | _, _ => Err RuntimeError
       end.

(** The source of an in-place write or [+=] into a target of [n] elements:
    it has [n] elements, or one that is broadcast; anything else raises. *)
Definition broadcast_to (n : nat) (src : list T) : result (list T) :=
  if List.length src =? n then Ok src
  else match src with
       | [x] => Ok (repeat x n)
       | _ => Err RuntimeError
       end.

(** Writing [new] into [l] from offset [off] (a write through a view). *)
Definition write_at (l : list T) (off : nat) (new : list T) : list T :=
  firstn off l ++ new ++ skipn (off + List.length new) l.

(** [Xtts.handle_chunks].  [wav_chunk] is a view of [wav_gen], so the
    crossfade is written into [wav_gen] itself; the returned chunk, the
    returned [wav_gen_prev] and the returned overlap are read from the
    tensor after the writes.  [wav_overlap] is a view of the previous
    decode, a different tensor. *)
Definition handle_chunks
    (wav_gen : list T) (wav_gen_prev wav_overlap : option (list T)) (overlap_len : Z)
    : result (list T * list T * list T) :=
  (let start := match wav_gen_prev with
                | None => None
                | Some prev => Some (len prev - overlap_len)%Z
                end in
   let stop := Some (- overlap_len)%Z in
   let wav_chunk := py_slice wav_gen start stop in
   wav_gen <-
     match wav_overlap with
     | None => Ok wav_gen
     | Some wav_overlap =>
         let crossfade_wav := py_slice wav_chunk None (Some overlap_len) in
         let target := List.length crossfade_wav in
         fade_in <- torch_linspace zero one overlap_len ;;
         crossfade_wav <- tensor_mul crossfade_wav fade_in ;;
         fade_out <- torch_linspace one zero overlap_len ;;
         faded <- tensor_mul wav_overlap fade_out ;;
         written <- broadcast_to target faded ;;
         added <- broadcast_to target crossfade_wav ;;
         Ok (write_at wav_gen (Z.to_nat (py_lo (len wav_gen) start))
                      (zip_with tadd written added))
     end ;;
   let wav_chunk := py_slice wav_gen start stop in
   let wav_overlap := py_slice wav_gen (Some (- overlap_len)%Z) None in
   let wav_gen_prev := wav_gen in
   Ok (wav_chunk, wav_gen_prev, wav_overlap))%res.

(** Latent frames and generated codes; the HiFi-GAN decoder for the fixed
    speaker embedding, as the time axis of its [1, 1, T] output. *)
Variables Lat Code : Type.
Variable hifigan_decoder : list Lat -> list T.

(** [torch.cat(all_latents, dim=0)]: raises on an empty list. *)
Definition torch_cat (all_latents : list (list Lat)) : result (list Lat) :=
  match all_latents with
  | [] => Err RuntimeError
  | _ => Ok (concat all_latents)
  end.

(** [wav_gen.squeeze()] followed by the first slice of [handle_chunks]: a
    one-sample output squeezes to a 0-dim tensor, which cannot be sliced. *)
Definition squeeze (wav_gen : list T) : result (list T) :=
  if List.length wav_gen =? 1 then Err IndexError else Ok wav_gen.

(** The body of the [if is_end or ...] branch up to the [yield]. *)
Definition decode_chunk
    (all_latents : list (list Lat)) (wav_gen_prev wav_overlap : option (list T))
    (overlap_wav_len : Z) : result (list T * list T * list T) :=
  (gpt_latents <- torch_cat all_latents ;;
   wav_gen <- squeeze (hifigan_decoder gpt_latents) ;;
   handle_chunks wav_gen wav_gen_prev wav_overlap overlap_wav_len)%res.

(** The [while not is_end] loop of [inference_stream] over the items the
    GPT generator yields before it is exhausted: the chunks yielded, in
    order, and how the run ended. *)
Fixpoint stream_loop
    (stream_chunk_size overlap_wav_len : Z)
    (generator : list (Code * list Lat))
    (last_tokens : list Code) (all_latents : list (list Lat))
    (wav_gen_prev wav_overlap : option (list T))
    : list (list T) * status :=
  match generator with
  | [] =>
      (* StopIteration: is_end = True *)
      match decode_chunk all_latents wav_gen_prev wav_overlap overlap_wav_len with
      | Err e => ([], Raised e)
      | Ok (wav_chunk, _, _) => ([wav_chunk], Done)
      end
  | (x, latent) :: generator =>
      let last_tokens := last_tokens ++ [x] in
      let all_latents := all_latents ++ [latent] in
      if ((0 <? stream_chunk_size)%Z && (stream_chunk_size <=? len last_tokens)%Z)%bool
      then
        match decode_chunk all_latents wav_gen_prev wav_overlap overlap_wav_len with
        | Err e => ([], Raised e)
        | Ok (wav_chunk, wav_gen_prev, wav_overlap) =>
            let (chunks, st) :=
              stream_loop stream_chunk_size overlap_wav_len generator
                          [] all_latents (Some wav_gen_prev) (Some wav_overlap) in
            (wav_chunk :: chunks, st)
        end
      else
        stream_loop stream_chunk_size overlap_wav_len generator
                    last_tokens all_latents wav_gen_prev wav_overlap
  end.

(** [Xtts.inference_stream] from the generator on. *)
Definition inference_stream
    (stream_chunk_size overlap_wav_len : Z) (generator : list (Code * list Lat))
    : list (list T) * status :=
  stream_loop stream_chunk_size overlap_wav_len generator [] [] None None.

(** The latents accumulated at each decode of a run that is not cut short
    by an exception: the same loop, recording [all_latents] at every
    decode. *)
Fixpoint stream_flushes
    (stream_chunk_size : Z) (generator : list (Code * list Lat))
    (last_tokens : list Code) (all_latents : list (list Lat))
    : list (list (list Lat)) :=
  match generator with
  | [] => [all_latents]
  | (x, latent) :: generator =>
      let last_tokens := last_tokens ++ [x] in
      let all_latents := all_latents ++ [latent] in
      if ((0 <? stream_chunk_size)%Z && (stream_chunk_size <=? len last_tokens)%Z)%bool
      then all_latents :: stream_flushes stream_chunk_size generator [] all_latents
      else stream_flushes stream_chunk_size generator last_tokens all_latents
  end.

(** The waveform decoded at each of them. *)
Definition stream_decodes
    (stream_chunk_size : Z) (generator : list (Code * list Lat)) : list (list T) :=
  map (fun all_latents => hifigan_decoder (concat all_latents))
      (stream_flushes stream_chunk_size generator [] []).

(** The non-streaming decode of all the latents of the run. *)
Definition full_decode (generator : list (Code * list Lat)) : list T :=
  hifigan_decoder (concat (map snd generator)).
End Streaming.

(* ===================================================================== *)
(** ** What the stream is compared with *)
(* ===================================================================== *)

Section Stitching.
Variable T : Type.
Variables tmul tadd : T -> T -> T.
Variables zero one : T.
Variable linspace : T -> T -> nat -> list T.

(** The samples [a <= j < b] of a waveform. *)
Definition region (w : list T) (a b : nat) : list T :=
  firstn (b - a) (skipn a w).

(** The linear blend over [n] samples: the tail of the previous decode
    under a fade from 1 down to 0, plus the head of the new chunk under a
    fade from 0 up to 1, sample by sample. *)
Definition blend (n : nat) (prev_tail new_head : list T) : list T :=
  zip_with tadd
    (zip_with tmul prev_tail (linspace one zero n))
    (zip_with tmul new_head (linspace zero one n)).

(** The chunk owed for the decode [w] when [prev] was decoded before it:
    the overlap region, blended, then the samples of [w] up to its last
    [n], which are held back. *)
Definition stitched_chunk (n : nat) (prev w : list T) : list T :=
  let lp := List.length prev in
  let l := List.length w in
  blend n (region prev (lp - n) lp) (region w (lp - n) (Nat.min lp (l - n)))
  ++ region w lp (l - n).

Fixpoint stitched_after (n : nat) (prev : list T) (decodes : list (list T))
    : list (list T) :=
  match decodes with
  | [] => []
  | w :: rest => stitched_chunk n prev w :: stitched_after n w rest
  end.

(** The chunks owed for the successive decodes of a run. *)
Definition stitched_chunks (n : nat) (decodes : list (list T)) : list (list T) :=
  match decodes with
  | [] => []
  | w :: rest => region w 0 (List.length w - n) :: stitched_after n w rest
  end.

(** The signal they add up to. *)
Definition stitched (n : nat) (decodes : list (list T)) : list T :=
  concat (stitched_chunks n decodes).

(** Decoded lengths that never shrink as latents accumulate. *)
Fixpoint lengths_nondecreasing (decodes : list (list T)) : bool :=
  match decodes with
  | [] => true
  | w :: rest =>
      match rest with
      | [] => true
      | w' :: _ => (List.length w <=? List.length w') && lengths_nondecreasing rest
      end
  end.
End Stitching.

(* ===================================================================== *)
(** ** Concrete collaborators, for running the model *)
(* ===================================================================== *)

Module Demo.
Import QArith.QArith_base.

(** Exact rational samples and the exact [linspace]:
    [start + i * (stop - start) / (steps - 1)]. *)
Definition linspaceQ (start stop : Q) (steps : nat) : list Q :=
  map (fun i : nat =>
         Qplus start
               (Qmult (inject_Z (Z.of_nat i))
                      (Qdiv (Qminus stop start) (inject_Z (Z.of_nat steps - 1)))))
      (seq 0 steps).

Definition q (z : Z) : Q := inject_Z z.

(** A decoder with context: three samples per latent frame, each the frame's
    value plus the number of frames decoded together. *)
Definition context_decoder (latents : list Z) : list Q :=
  flat_map (fun x => repeat (q (x + len latents)) 3) latents.

(** A decoder without context: three samples per latent frame. *)
Definition causal_decoder (latents : list Z) : list Q :=
  flat_map (fun x => [q x; q (x + 1); q (x + 2)]) latents.

Definition handle_chunksQ := handle_chunks Qmult Qplus (q 0) (q 1) linspaceQ.

Definition inference_streamQ (decoder : list Z -> list Q) :=
  @inference_stream Q Qmult Qplus (q 0) (q 1) linspaceQ Z Z decoder.

(** A generator that yields one latent frame per code. *)
Definition generator_of (codes : list Z) : list (Z * list Z) :=
  map (fun c => (c, [c])) codes.

(** Collaborators for [inference]: the tokenizer yields one token per
    character, the GPT answers with the given codes, one latent per code. *)
Definition components (codes : list Z) : Components nat unit (list nat) unit unit nat unit :=
  {| text_strip_lower := fun s => s;
     tokenizer_encode := fun s _ => map (fun c => Z.of_nat (nat_of_ascii c))
                                        (list_ascii_of_string s);
     gpt_generate := fun _ _ _ => codes;
     gpt_forward := fun _ _ gpt_codes _ _ => seq 0 (List.length gpt_codes);
     hifigan_decoder := fun latents _ => latents;
     timestep_independent := fun latents _ _ => latents;
     sample_loop := fun _ _ latents => latents;
     denormalize_tacotron_mel := fun mel => mel |}.

Definition decoder_args (decoder : string) : DecoderArgs unit :=
  {| decoder_iterations := 100; cond_free := true; cond_free_k := tt;
     diffusion_temperature := tt; decoder_sampler := "ddim"; decoder := decoder |}.

Definition small_args : XttsArgs :=
  {| gpt_max_text_tokens := 3; gpt_code_stride_len := 1024; kv_cache := true |}.

(** A model state: whether the tokenizer has a vocabulary, whether the GPT
    was built, and whether the GPT inference caches exist. *)
Record model_state : Type := {
  vocab_loaded : bool;
  gpt_built : bool;
  caches : bool
}.

(** A model under the default config, which does not give the number of
    text tokens: [init_models] builds the GPT only once the tokenizer has a
    vocabulary; a strict load succeeds only once the inference caches exist
    (a v1 checkpoint). *)
Definition loader : LoaderComponents model_state unit :=
  {| load_tokenizer := fun st => {| vocab_loaded := true; gpt_built := gpt_built st;
                                    caches := caches st |};
     init_models := fun st => {| vocab_loaded := vocab_loaded st;
                                 gpt_built := vocab_loaded st; caches := false |};
     has_gpt := gpt_built;
     load_state_dict := fun _ _ st => (if caches st then Ok tt else Err LoadError, st);
     init_gpt_for_inference := fun _ _ st => {| vocab_loaded := vocab_loaded st;
                                                gpt_built := gpt_built st;
                                                caches := true |};
     hifigan_eval := fun st => st;
     gpt_eval := fun st => st |}.

(** The same model with a loader whose every load raises. *)
Definition failing_loader : LoaderComponents model_state unit :=
  {| load_tokenizer := load_tokenizer loader;
     init_models := init_models loader;
     has_gpt := gpt_built;
     load_state_dict := fun _ _ st => (@Err unit LoadError, st);
     init_gpt_for_inference := init_gpt_for_inference loader;
     hifigan_eval := fun st => st;
     gpt_eval := fun st => st |}.

Definition fresh_world : world model_state :=
  {| model := {| vocab_loaded := false; gpt_built := false; caches := false |};
     calls := [] |}.

(** An audio loader that accepts every path. *)
Definition cond_components : CondComponents string (list string) (list string) :=
  {| torchaudio_load := fun p => Ok (p, 22050%Z);
     prepare_reference := fun a _ => a;
     get_speaker_embedding := fun a _ => [a];
     torch_cat_audio := fun l => String.concat "+" l;
     get_gpt_cond_latents := fun a _ _ => [a];
     stack_mean := fun l => concat l |}.
End Demo.


(* ===================================================================== *)
(** ** What the reference clips of get_conditioning_latents amount to *)
(* ===================================================================== *)

Section ReferenceClips.
Variables Audio Spk Cond : Type.
Variable self : CondComponents Audio Spk Cond.

(** The audio of a loaded clip [(audio, sr)] after its preparation, and its
    speaker embedding. *)
Definition clip_audio (clip : Audio * Z) : Audio :=
  prepare_reference self (fst clip) (snd clip).

Definition clip_embedding (clip : Audio * Z) : Spk :=
  get_speaker_embedding self (clip_audio clip) (snd clip).

(** The calls made for the files that load. *)
Definition reference_calls (audio_paths : list string) : list call :=
  flat_map (fun p => [CallTorchaudioLoad p; CallGetSpeakerEmbedding]) audio_paths.
End ReferenceClips.


(* ===================================================================== *)
(** ** More concrete collaborators *)
(* ===================================================================== *)

Module Runs.
(** An audio loader that fails on ["bad.wav"]. *)
Definition picky_components : CondComponents string (list string) (list string) :=
  {| torchaudio_load := fun p => if String.eqb p "bad.wav"
                                 then Err RuntimeError
                                 else Ok (p, 22050%Z);
     prepare_reference := fun a _ => a;
     get_speaker_embedding := fun a _ => [a];
     torch_cat_audio := fun l => String.concat "+" l;
     get_gpt_cond_latents := fun a _ _ => [a];
     stack_mean := fun l => concat l |}.
End Runs.


(* ===================================================================== *)
(** ** Xtts.full_inference and Xtts.inference_with_config *)
(* ===================================================================== *)

Section FullInference.
Variables Audio Spk Cond Lat Wav Sampling Mel Num : Type.
Variable self_cond : CondComponents Audio Spk Cond.
Variable self : Components Lat (option Spk) Wav Cond Sampling Mel Num.
Variable args : XttsArgs.

(** [Xtts.full_inference]: the conditioning latents of the reference audio,
    then [inference] with them. *)
Definition full_inference
    (text : string) (ref_audio_path : audio_path_arg) (language : string)
    (gpt_cond_len : Z) (sampling : Sampling) (dargs : DecoderArgs Num) :=
  (conditioning <-- get_conditioning_latents self_cond ref_audio_path gpt_cond_len ;;
   let '(gpt_cond_latent, speaker_embedding) := conditioning in
   inference self args text language gpt_cond_latent speaker_embedding sampling dargs)%prog.
End FullInference.

Open Scope string_scope.

(** The keys of the settings that [inference_with_config] takes from the
    config, in the order of the dict literal. *)
Definition preset_keys : list string :=
  ["temperature"; "length_penalty"; "repetition_penalty"; "top_k"; "top_p";
   "cond_free_k"; "diffusion_temperature"; "decoder_iterations"; "decoder_sampler";
   "gpt_cond_len"; "max_ref_len"; "sound_norm_refs"].

Close Scope string_scope.

(** The dict literal [settings], for a config read by attribute name. *)
Definition config_settings {V} (config : string -> V) : dict V :=
  map (fun k => (k, config k)) preset_keys.

(** [d.update(kwargs)]. *)
Definition dict_update {V} (d kwargs : dict V) : dict V :=
  fold_left (fun d kv => dict_set d (fst kv) (snd kv)) kwargs d.

(** [Xtts.inference_with_config] (and [synthesize], which only renames an
    argument): the language check, the settings, and the call of
    [full_inference] with them, given as [full_inference_with]. *)
Definition inference_with_config {V S A}
    (languages : list string) (config : string -> V) (language : string)
    (kwargs : dict V) (full_inference_with : dict V -> M S A) : M S A :=
  if existsb (String.eqb language) languages
  then full_inference_with (dict_update (config_settings config) kwargs)
  else raise AssertionError.


(* ===================================================================== *)
(** ** Decodes that grow *)
(* ===================================================================== *)

(** Decoded lengths that grow by at least [n] samples from each decode to
    the next. *)
Fixpoint lengths_grow_by {T} (n : nat) (decodes : list (list T)) : bool :=
  match decodes with
  | [] => true
  | w :: rest =>
      match rest with
      | [] => true
      | w' :: _ => (List.length w + n <=? List.length w') && lengths_grow_by n rest
      end
  end.

(* ===================================================================== *)
(** ** Xtts.inference_stream from the text on *)
(* ===================================================================== *)

Section InferenceStreamFromText.
Variable T : Type.
Variables tmul tadd : T -> T -> T.
Variables zero one : T.
Variable linspace : T -> T -> nat -> list T.
Variables Lat Code Spk Cond Sampling Mel Num Emb : Type.
Variable self : Components Lat Spk (list T) Cond Sampling Mel Num.

(** [self.gpt.compute_embeddings] and [self.gpt.get_generator], the latter
    as the items the generator yields before it is exhausted. *)
Variable gpt_compute_embeddings : Cond -> list Z -> Emb.
Variable gpt_get_generator : Emb -> Sampling -> list (Code * list Lat).

(** [Xtts.inference_stream]: the text is tokenized and handed to the GPT
    generator, whose items feed the loop. *)
Definition inference_stream_from_text
    (text language : string) (gpt_cond_latent : Cond) (speaker_embedding : Spk)
    (stream_chunk_size overlap_wav_len : Z) (sampling : Sampling)
    : list (list T) * status :=
  let text := text_strip_lower self text in
  let text_tokens := tokenizer_encode self text language in
  let fake_inputs := gpt_compute_embeddings gpt_cond_latent text_tokens in
  let gpt_generator := gpt_get_generator fake_inputs sampling in
  inference_stream tmul tadd zero one linspace
                   (fun gpt_latents => hifigan_decoder self gpt_latents speaker_embedding)
                   stream_chunk_size overlap_wav_len gpt_generator.
End InferenceStreamFromText.

(* ===================================================================== *)
(** ** Xtts.get_gpt_cond_latents *)
(* ===================================================================== *)

Module Cloning.
Section GptCondLatents.
(** Samples of a mono waveform (the row of the [1, N] tensor), mel
    spectrograms and conditioning latents. *)
Variables T Mel Cond : Type.

(** [torchaudio.functional.resample(audio, sr, 22050)], [wav_to_mel_cloning]
    as a function of the audio and of [n_fft], [hop_length] and
    [win_length], and [self.gpt.get_style_emb] followed by the transpose. *)
Variable resample : list T -> Z -> Z -> list T.
Variable wav_to_mel_cloning : list T -> Z -> Z -> Z -> Mel.
Variable get_style_emb : Mel -> Cond.

(** [Xtts.get_gpt_cond_latents]. *)
Definition get_gpt_cond_latents
    (gpt_use_perceiver_resampler : bool) (audio : list T) (sr length : Z) : Cond :=
  let audio := if negb (sr =? 22050)%Z then resample audio sr 22050%Z else audio in
  let audio := py_slice audio None (Some (22050 * length)%Z) in
  let '(n_fft, hop_length, win_length) :=
    if gpt_use_perceiver_resampler
    then (2048, 256, 1024)%Z
    else (4096, 1024, 4096)%Z in
  get_style_emb (wav_to_mel_cloning audio n_fft hop_length win_length).
End GptCondLatents.
End Cloning.

Section CloningComponents.
Variables T Spk Mel Cond : Type.
Variable load : string -> result (list T * Z).
Variable prepare : list T -> Z -> list T.
Variable speaker_encoder : list T -> Z -> Spk.
Variable mean : list Spk -> Spk.
Variable resample : list T -> Z -> Z -> list T.
Variable wav_to_mel_cloning : list T -> Z -> Z -> Z -> Mel.
Variable get_style_emb : Mel -> Cond.
Variable gpt_use_perceiver_resampler : bool.

(** The collaborators of [get_conditioning_latents] on mono waveforms, with
    [torch.cat(audios, dim=-1)] and [get_gpt_cond_latents] as they are. *)
Definition cloning_components : CondComponents (list T) Spk Cond :=
  {| torchaudio_load := load;
     prepare_reference := prepare;
     get_speaker_embedding := speaker_encoder;
     torch_cat_audio := @concat T;
     get_gpt_cond_latents :=
       Cloning.get_gpt_cond_latents resample wav_to_mel_cloning get_style_emb
                                    gpt_use_perceiver_resampler;
     stack_mean := mean |}.
End CloningComponents.

(* ===================================================================== *)
(** ** Xtts.get_diffusion_cond_latents *)
(* ===================================================================== *)

(** [torch.stack(tensors, dim=1)]: raises on an empty list. *)
Definition torch_stack {A} (tensors : list A) : result (list A) :=
  match tensors with
  | [] => Err RuntimeError
  | _ => Ok tensors
  end.

Section DiffusionCondLatents.
(** Samples of a mono waveform, the mel of a chunk and the diffusion
    latent. *)
Variables T Mel Lat : Type.
Variable zero : T.
Variable resample : list T -> Z -> Z -> list T.
Variable wav_to_univnet_mel : list T -> Mel.

(** [self.diffusion_decoder], with its [get_conditioning]: [None] while the
    attribute is not assigned.  No code of this file assigns it. *)
Variable diffusion_decoder : option (list Mel -> Lat).

(** [Xtts.get_diffusion_cond_latents].  The attribute is looked up after the
    mels are stacked; looking up an attribute that was never assigned
    raises [AttributeError]. *)
Definition get_diffusion_cond_latents (audio : list T) (sr : Z) : result Lat :=
  (let audio_24k := resample audio sr 24000%Z in
   let diffusion_conds :=
     map wav_to_univnet_mel (diffusion_cond_chunks zero audio_24k) in
   diffusion_conds <- torch_stack diffusion_conds ;;
   match diffusion_decoder with
   | None => Err AttributeError
   | Some get_conditioning => Ok (get_conditioning diffusion_conds)
   end)%res.
End DiffusionCondLatents.

(* ===================================================================== *)
(** * Properties *)
(* ===================================================================== *)

Unset Implicit Arguments.

(** ** Slices *)

Lemma len_nonneg {A} (l : list A) : (0 <= len l)%Z.
Proof. unfold len. lia. Qed.

Lemma len_app {A} (l1 l2 : list A) : len (l1 ++ l2) = (len l1 + len l2)%Z.
Proof. unfold len. rewrite length_app. lia. Qed.

Lemma firstn_beyond {A} (l : list A) (a : nat) :
  firstn (Nat.min a (List.length l)) l = firstn a l.
Proof.
  destruct (Nat.le_gt_cases a (List.length l)) as [H | H].
  - now rewrite Nat.min_l.
  - rewrite Nat.min_r by lia.
    rewrite firstn_all. symmetry. apply firstn_all2. lia.
Qed.


(** [l[:k]] for a non-negative [k]. *)
Lemma py_slice_prefix {A} (l : list A) (k : Z) :
  (0 <= k)%Z -> py_slice l None (Some k) = firstn (Z.to_nat k) l.
Proof.
  intros Hk. unfold py_slice, py_lo, py_hi, py_bound.
  replace (k <? 0)%Z with false by (symmetry; apply Z.ltb_ge; lia).
  rewrite Z.sub_0_r. simpl skipn.
  rewrite <- (firstn_beyond l (Z.to_nat k)). f_equal. unfold len. lia.
Qed.


(** [l[:-n]] and [l[-n:]] for [0 < n <= len(l)]. *)
Lemma py_slice_drop_tail {A} (l : list A) (n : Z) :
  (0 < n <= len l)%Z ->
  py_slice l None (Some (- n)%Z) = firstn (List.length l - Z.to_nat n) l.
Proof.
  intros H. unfold py_slice, py_lo, py_hi, py_bound.
  replace (- n <? 0)%Z with true by (symmetry; apply Z.ltb_lt; lia).
  simpl skipn. f_equal. unfold len in *. lia.
Qed.

Lemma py_slice_tail {A} (l : list A) (n : Z) :
  (0 < n <= len l)%Z ->
  py_slice l (Some (- n)%Z) None = skipn (List.length l - Z.to_nat n) l.
Proof.
  intros H. unfold py_slice, py_lo, py_hi, py_bound.
  replace (- n <? 0)%Z with true by (symmetry; apply Z.ltb_lt; lia).
  replace (Z.to_nat (Z.max (- n + len l) 0)) with (List.length l - Z.to_nat n)
    by (unfold len in *; lia).
  apply firstn_all2. rewrite length_skipn. unfold len in *. lia.
Qed.

(** ** pad_or_truncate (C6) *)

Section PadOrTruncateFacts.
Variable T : Type.
Variable zero : T.

Lemma pad_or_truncate_cases (t : list T) (L : Z) :
  (0 <= L)%Z ->
  len (pad_or_truncate zero t L) = L /\
  (len t = L -> pad_or_truncate zero t L = t) /\
  (len t < L ->
   pad_or_truncate zero t L = t ++ repeat zero (Z.to_nat L - List.length t))%Z /\
  (L < len t -> pad_or_truncate zero t L = firstn (Z.to_nat L) t)%Z.
Proof.
  intros HL. unfold pad_or_truncate, F_pad_right.
  destruct (Z.eqb_spec (len t) L) as [E | NE].
  - repeat split; intros; try lia; auto.
  - destruct (Z.ltb_spec (len t) L) as [Lt | Ge].
    + repeat split; intros; try lia.
      * rewrite len_app. unfold len in *. rewrite repeat_length. lia.
      * do 2 f_equal. unfold len. lia.
    + rewrite py_slice_prefix by assumption.
      repeat split; intros; try lia; auto.
      unfold len in *. rewrite length_firstn. lia.
Qed.



End PadOrTruncateFacts.



(** ** Silence truncation (C1) *)

Lemma repeat_snoc_app {A} (x : A) (n : nat) (l : list A) :
  repeat x (S n) ++ l = repeat x n ++ x :: l.
Proof.
  induction n as [| n IH]; [reflexivity |].
  change (repeat x (S (S n))) with (x :: repeat x (S n)).
  cbn [app]. rewrite IH. reflexivity.
Qed.

Lemma silence_scan_none (codes : list Z) :
  forall k ct,
    (forall a b, repeat silence_token ct ++ codes <> a ++ repeat silence_token 9 ++ b) ->
    silence_scan codes k ct = None.
Proof.
  induction codes as [| c rest IH]; intros k ct H; [reflexivity |].
  cbn [silence_scan].
  destruct (Z.eqb_spec c silence_token) as [-> | Hc].
  - destruct (Nat.ltb_spec 8 (S ct)) as [Hlt | Hle].
    + exfalso. apply (H (repeat silence_token (S ct - 9)) rest).
      rewrite <- repeat_snoc_app, app_assoc, <- repeat_app.
      f_equal. f_equal. lia.
    + apply IH. intros a b. rewrite repeat_snoc_app. apply H.
  - cbn. apply IH. intros a b E. cbn in E.
    apply (H (repeat silence_token ct ++ c :: a) b).
    rewrite E, <- app_assoc. reflexivity.
Qed.

Lemma silence_scan_hit (m : nat) (post : list Z) :
  forall k ct,
    ct <= 8 -> 9 <= ct + m ->
    silence_scan (repeat silence_token m ++ post) k ct = Some (k + (8 - ct)).
Proof.
  induction m as [| m IH]; intros k ct H8 H9; [lia |].
  cbn [repeat app silence_scan]. rewrite Z.eqb_refl.
  destruct (Nat.ltb_spec 8 (S ct)) as [Hlt | Hle].
  - f_equal. lia.
  - rewrite IH by lia. f_equal. lia.
Qed.

Lemma silence_scan_skip (pre : list Z) (c : Z) (rest : list Z) :
  forall k ct,
    c <> silence_token ->
    (forall a b, repeat silence_token ct ++ pre <> a ++ repeat silence_token 9 ++ b) ->
    silence_scan (pre ++ c :: rest) k ct = silence_scan rest (k + List.length pre + 1) 0.
Proof.
  induction pre as [| x pre IH]; intros k ct Hc H.
  - cbn [app silence_scan List.length].
    destruct (Z.eqb_spec c silence_token) as [E | _]; [contradiction |].
    cbn. f_equal. lia.
  - cbn [app silence_scan List.length].
    destruct (Z.eqb_spec x silence_token) as [-> | Hx].
    + destruct (Nat.ltb_spec 8 (S ct)) as [Hlt | Hle].
      * exfalso. apply (H (repeat silence_token (S ct - 9)) pre).
        rewrite <- repeat_snoc_app, app_assoc, <- repeat_app.
        f_equal. f_equal. lia.
      * rewrite IH; [f_equal; lia | assumption |].
        intros a b. rewrite repeat_snoc_app. apply H.
    + cbn. rewrite IH; [f_equal; lia | assumption |].
      intros a b E. cbn in E.
      apply (H (repeat silence_token ct ++ x :: a) b).
      rewrite E, <- app_assoc. reflexivity.
Qed.

(** The loop breaks at index [p + 8] when the first long run starts at [p]. *)
Lemma silence_scan_first_run (pre post : list Z) :
  no_long_run pre -> not_ending_in_silence pre ->
  silence_scan (pre ++ repeat silence_token 9 ++ post) 0 0 = Some (List.length pre + 8).
Proof.
  intros Hrun Hend.
  destruct pre as [| x pre0] using rev_ind.
  - cbn [app List.length]. rewrite (silence_scan_hit 9 post 0 0) by lia. reflexivity.
  - clear IHpre0. rename pre0 into pre'.
    assert (Hx : x <> silence_token) by (intros ->; apply (Hend pre'); reflexivity).
    rewrite <- app_assoc. cbn [app].
    rewrite (silence_scan_skip pre' x _ 0 0 Hx).
    + rewrite (silence_scan_hit 9 post _ 0) by lia.
      rewrite length_app. cbn [List.length]. f_equal; lia.
    + intros a b E. cbn in E. apply (Hrun a (b ++ [x])).
      rewrite E, <- !app_assoc. reflexivity.
Qed.

Lemma silence_truncate_untouched {Lat} (codes : list Z) (latents : list Lat) :
  no_long_run codes -> silence_truncate codes latents = latents.
Proof.
  intros H. unfold silence_truncate.
  rewrite (silence_scan_none codes 0 0); [reflexivity | exact H].
Qed.

(** ** Xtts.inference: what it returns and which collaborators it calls *)

Section InferenceFacts.
Variables Lat Spk Wav Cond Sampling Mel Num : Type.
Variable self : Components Lat Spk Wav Cond Sampling Mel Num.
Variable args : XttsArgs.

Lemma inference_unfold text language cond spk sampling
      (dargs : DecoderArgs Num) (log : list call) :
  inference self args text language cond spk sampling dargs log =
  if (len (tokens_of self text language) <? gpt_max_text_tokens args)%Z
  then (Ok (output_of self args text language cond spk sampling),
        log ++ [CallTokenizerEncode; CallGptGenerate; CallGptForward; CallHifiganDecoder])
  else (Err AssertionError, log ++ [CallTokenizerEncode]).
Proof.
  unfold inference, bind, invoke, raise, ret, output_of, latents_of, codes_of, tokens_of.
  cbn.
  destruct (len _ <? gpt_max_text_tokens args)%Z; cbn; [| reflexivity].
  rewrite <- !app_assoc. reflexivity.
Qed.
End InferenceFacts.

(** C1 (amended).  When the first run of more than 8 silence codes starts at
    position [p] (the codes before it have no such run and do not end in a
    silence code), the loop breaks at [k = p + 8], the index of the 9th
    consecutive silence code, and the latents are cut to their first [p + 8]
    positions.  Codes whose silence runs all have length at most 8 leave the
    latents untruncated.  The latents [inference] returns are the latents of
    the teacher-forced pass cut this way. *)
Theorem silence_truncation_at_ninth
    (Lat : Type) (pre post : list Z) (latents : list Lat) :
  no_long_run pre -> not_ending_in_silence pre ->
  let p := List.length pre in
  silence_scan (pre ++ repeat silence_token 9 ++ post) 0 0 = Some (p + 8) /\
  silence_truncate (pre ++ repeat silence_token 9 ++ post) latents = firstn (p + 8) latents /\
  (p + 8 <= List.length latents ->
   List.length (silence_truncate (pre ++ repeat silence_token 9 ++ post) latents) = p + 8) /\
  silence_truncate pre latents = latents /\
  (forall codes, no_long_run codes -> silence_truncate codes latents = latents) /\
  (forall Spk Wav Cond Sampling Mel Num
          (self : Components Lat Spk Wav Cond Sampling Mel Num) args
          text language cond spk sampling dargs log out,
      fst (inference self args text language cond spk sampling dargs log) = Ok out ->
      gpt_latents out =
      silence_truncate (codes_of self text language cond sampling)
                       (latents_of self args text language cond sampling)).
Proof.
  intros Hrun Hend p.
  assert (Hscan := silence_scan_first_run pre post Hrun Hend). fold p in Hscan.
  assert (Hcut : silence_truncate (pre ++ repeat silence_token 9 ++ post) latents
                 = firstn (p + 8) latents).
  { unfold silence_truncate. rewrite Hscan.
    rewrite py_slice_prefix by lia. now rewrite Nat2Z.id. }
  split; [exact Hscan |]. split; [exact Hcut |]. split.
  - intros Hlen. rewrite Hcut, length_firstn. lia.
  - split; [now apply silence_truncate_untouched |].
    split; [intros codes; apply silence_truncate_untouched |].
    intros Spk Wav Cond Sampling Mel Num self args text language cond spk sampling
           dargs log out.
    rewrite inference_unfold.
    destruct (len _ <? _)%Z; cbn; intros E; [| discriminate].
    injection E as <-. reflexivity.
Qed.

Lemma silence_truncation_at_ninth_witness :
  silence_truncate ([5; 83; 83; 7] ++ repeat silence_token 9 ++ [83; 1])%Z (seq 0 20)
  = seq 0 12.
Proof.
  assert (Hrun : no_long_run [5; 83; 83; 7]%Z).
  { intros a b E. apply (f_equal (@List.length Z)) in E.
    rewrite !length_app, repeat_length in E. cbn in E. lia. }
  assert (Hend : not_ending_in_silence [5; 83; 83; 7]%Z).
  { intros a E. apply (f_equal (@rev Z)) in E. rewrite rev_app_distr in E.
    cbn in E. discriminate. }
  destruct (silence_truncation_at_ninth nat [5; 83; 83; 7]%Z [83; 1]%Z (seq 0 20) Hrun Hend)
    as (_ & H & _).
  exact H.
Defined.

(** C1 as stated fails: with nine silence codes from position 0 on, the
    returned latents have 8 positions, not 0. *)
Lemma silence_truncation_not_at_run_start :
  ~ (forall (pre post : list Z) (latents : list nat),
        no_long_run pre -> not_ending_in_silence pre ->
        List.length (silence_truncate (pre ++ repeat silence_token 9 ++ post) latents)
        = List.length pre).
Proof.
  intros H.
  specialize (H [] [] (seq 0 9)).
  assert (Hrun : no_long_run []).
  { intros a b E. apply (f_equal (@List.length Z)) in E.
    rewrite !length_app, repeat_length in E. cbn in E. lia. }
  assert (Hend : not_ending_in_silence []).
  { intros a E. destruct a; discriminate. }
  specialize (H Hrun Hend). vm_compute in H. discriminate.
Qed.

(** ** The token-length guard (C5) *)

(** C5.  [inference] raises [AssertionError] exactly when the token count is
    greater than or equal to [gpt_max_text_tokens], and then only the
    tokenizer has been called: neither [gpt.generate], the teacher-forced
    pass nor the decoder.  A token count equal to the maximum fails; one
    below the maximum goes on to generation and returns. *)
Theorem inference_token_length_guard
    (Lat Spk Wav Cond Sampling Mel Num : Type)
    (self : Components Lat Spk Wav Cond Sampling Mel Num) (args : XttsArgs)
    (text language : string) (cond : Cond) (spk : Spk) (sampling : Sampling)
    (dargs : DecoderArgs Num) (log : list call) :
  let n := len (tokens_of self text language) in
  let run := inference self args text language cond spk sampling dargs log in
  ((gpt_max_text_tokens args <= n)%Z <->
   run = (Err AssertionError, log ++ [CallTokenizerEncode])) /\
  ((n < gpt_max_text_tokens args)%Z <->
   run = (Ok (output_of self args text language cond spk sampling),
          log ++ [CallTokenizerEncode; CallGptGenerate; CallGptForward;
                  CallHifiganDecoder])) /\
  (n = gpt_max_text_tokens args -> fst run = Err AssertionError) /\
  (n = (gpt_max_text_tokens args - 1)%Z ->
   fst run = Ok (output_of self args text language cond spk sampling)).
Proof.
  intros n run. unfold run. rewrite inference_unfold. fold n.
  destruct (Z.ltb_spec n (gpt_max_text_tokens args)) as [Hlt | Hge].
  - repeat split; intros; try lia; try discriminate; reflexivity.
  - repeat split; intros; try lia; try discriminate; reflexivity.
Qed.

(** With a maximum of 3 tokens, a text of 3 tokens fails before the GPT is
    called and a text of 2 tokens is synthesised. *)
Example inference_at_the_boundary :
  inference (Demo.components [1; 2]%Z) Demo.small_args "abc"%string "en"%string tt tt tt
            (Demo.decoder_args "hifigan"%string) []
  = (Err AssertionError, [CallTokenizerEncode]) /\
  fst (inference (Demo.components [1; 2]%Z) Demo.small_args "ab"%string "en"%string tt tt tt
                 (Demo.decoder_args "hifigan"%string) [])
  = Ok {| wav := [0; 1]; gpt_latents := [0; 1]; speaker_embedding := tt |}.
Proof. split; reflexivity. Qed.

(** ** The decoder setting (C2) *)

(** C2 (what the code does).  The decoder arguments do not reach the
    computation: whatever [decoder] says, ["diffusion"] included, [inference]
    returns the waveform of the HiFi-GAN decoder on the truncated latents and
    the speaker embedding, and it calls neither collaborator of
    [do_spectrogram_diffusion], which calls both. *)
Theorem inference_decoder_setting_unused
    (Lat Spk Wav Cond Sampling Mel Num : Type)
    (self : Components Lat Spk Wav Cond Sampling Mel Num) (args : XttsArgs)
    (text language : string) (cond : Cond) (spk : Spk) (sampling : Sampling)
    (dargs : DecoderArgs Num) (temperature : Num) (log : list call) :
  let diffusion :=
    {| decoder_iterations := decoder_iterations dargs; cond_free := cond_free dargs;
       cond_free_k := cond_free_k dargs;
       diffusion_temperature := diffusion_temperature dargs;
       decoder_sampler := decoder_sampler dargs; decoder := "diffusion"%string |} in
  let run := inference self args text language cond spk sampling diffusion log in
  run = inference self args text language cond spk sampling dargs log /\
  (forall out, fst run = Ok out ->
               wav out = hifigan_decoder self (gpt_latents out) spk) /\
  count_call CallDiffusionSampleLoop (snd run) = count_call CallDiffusionSampleLoop log /\
  count_call CallDiffusionTimestepIndependent (snd run)
  = count_call CallDiffusionTimestepIndependent log /\
  snd (do_spectrogram_diffusion self (latents_of self args text language cond sampling)
                                cond temperature log)
  = log ++ [CallDiffusionTimestepIndependent; CallDiffusionSampleLoop].
Proof.
  intros diffusion run. unfold run. rewrite !inference_unfold.
  split; [reflexivity |].
  unfold count_call.
  destruct (len _ <? _)%Z; cbn [fst snd]; rewrite !filter_app, !length_app;
    (split; [intros out E; try discriminate; injection E as <-; reflexivity |]);
    (split; [cbn; lia |]); (split; [cbn; lia |]);
    unfold do_spectrogram_diffusion, bind, invoke, ret; cbn;
    rewrite <- app_assoc; reflexivity.
Qed.

(** ** The audio_path argument (C9) *)

Section ConditioningFacts.
Variables Audio Spk Cond : Type.
Variable self : CondComponents Audio Spk Cond.

Lemma loaded_files_app (l1 l2 : list call) :
  loaded_files (l1 ++ l2) = loaded_files l1 ++ loaded_files l2.
Proof. unfold loaded_files. apply flat_map_app. Qed.


End ConditioningFacts.




(** The path ["a.wav"] given as a string is loaded as five files. *)
Example string_path_loaded_per_character :
  loaded_files (snd (get_conditioning_latents Demo.cond_components (PathStr "a.wav"%string) 6 []))
  = ["a"; "."; "w"; "a"; "v"]%string /\
  loaded_files (snd (get_conditioning_latents Demo.cond_components (PathList ["a.wav"%string]) 6 []))
  = ["a.wav"%string].
Proof. split; reflexivity. Qed.

(** ** The retry of load_checkpoint (C8) *)

Section LoadCheckpointFacts.
Variables St Tensor : Type.
Variable self : LoaderComponents St Tensor.
Variable args : XttsArgs.

(** The final [if eval:] block, by cases: without [eval] nothing is done;
    with it, the first call on a missing GPT raises [AttributeError]. *)
Lemma eval_mode_unfold (eval use_deepspeed : bool) (w : world St) :
  eval_mode self args eval use_deepspeed w =
  if eval
  then
    let m := hifigan_eval self (model w) in
    if has_gpt self m
    then
      let m' := init_gpt_for_inference self (kv_cache args) use_deepspeed m in
      if has_gpt self m'
      then (Ok tt, {| model := gpt_eval self m'; calls := calls w ++ eval_calls true |})
      else (Err AttributeError,
            {| model := m'; calls := calls w ++ [CallHifiganEval; CallInitGptForInference] |})
    else (Err AttributeError, {| model := m; calls := calls w ++ [CallHifiganEval] |})
  else (Ok tt, w).
Proof.
  unfold eval_mode, when, bind, on_gpt, effect, ret, eval_calls.
  destruct eval; [| reflexivity]. cbn [model calls].
  destruct (has_gpt self (hifigan_eval self (model w))); [| reflexivity].
  cbn [model calls].
  destruct (has_gpt self _); cbn [model calls]; rewrite <- ?app_assoc; reflexivity.
Qed.

Lemma load_checkpoint_unfold
      (checkpoint : dict Tensor) (vocab_exists eval strict use_deepspeed : bool)
      (w : world St) :
  let w0 := before_try self vocab_exists w in
  load_checkpoint self args (Ok checkpoint) vocab_exists eval strict use_deepspeed w =
  match get_compatible_checkpoint_state_dict checkpoint with
  | Err e => (Err e, w0)
  | Ok ck =>
      match load_state_dict self ck strict (model w0) with
      | (Ok _, m1) =>
          eval_mode self args eval use_deepspeed
                    {| model := m1; calls := calls w0 ++ [CallLoadStateDict] |}
      | (Err _, m1) =>
          let w1 := {| model := m1; calls := calls w0 ++ [CallLoadStateDict] |} in
          if (eval && negb (has_gpt self m1))%bool
          then (Err AttributeError, w1)
          else
            let m2 := if eval
                      then init_gpt_for_inference self (kv_cache args) false m1
                      else m1 in
            let retry := calls w0 ++ [CallLoadStateDict]
                         ++ (if eval then [CallInitGptForInference] else [])
                         ++ [CallLoadStateDict] in
            match load_state_dict self ck strict m2 with
            | (Ok _, m3) =>
                eval_mode self args eval use_deepspeed {| model := m3; calls := retry |}
            | (Err e2, m3) => (Err e2, {| model := m3; calls := retry |})
            end
      end
  end.
Proof.
  unfold load_checkpoint, before_try, bind, when, try_except, lift_result,
    on_gpt, effect, effect_result, ret.
  cbn [rbind].
  destruct vocab_exists; cbn [model calls];
    (destruct (get_compatible_checkpoint_state_dict checkpoint) as [ck | e];
     cbn [model calls]; [| rewrite <- ?app_assoc; reflexivity]);
    (destruct (load_state_dict self ck strict _) as [[[] | e1] m1]; cbn [model calls];
     [rewrite <- ?app_assoc; reflexivity |]);
    (destruct eval; cbn [model calls andb negb];
     [destruct (has_gpt self m1); cbn [model calls negb];
      [| rewrite <- ?app_assoc; reflexivity] |]);
    (destruct (load_state_dict self ck strict _) as [[[] | e2] m3];
     cbn [model calls]; rewrite <- ?app_assoc; reflexivity).
Qed.
End LoadCheckpointFacts.

Lemma count_call_app (c : call) (l1 l2 : list call) :
  count_call c (l1 ++ l2) = count_call c l1 + count_call c l2.
Proof. unfold count_call. now rewrite filter_app, length_app. Qed.

(** The final [if eval:] block never loads a state dict. *)
Lemma eval_mode_loads_nothing
      (St Tensor : Type) (self : LoaderComponents St Tensor) (args : XttsArgs)
      (eval use_deepspeed : bool) (w : world St) :
  count_call CallLoadStateDict (calls (snd (eval_mode self args eval use_deepspeed w)))
  = count_call CallLoadStateDict (calls w).
Proof.
  rewrite eval_mode_unfold.
  destruct eval; [| reflexivity]. cbv zeta.
  destruct (has_gpt self (hifigan_eval self (model w))).
  - destruct (has_gpt self _); cbn [snd calls]; rewrite count_call_app; cbn; lia.
  - cbn [snd calls]. rewrite count_call_app. cbn. lia.
Qed.

(** C8 (amended).  [load_checkpoint] calls [load_state_dict] at most twice.
    When the first load returns there is no second one: the final
    [if eval:] block follows at once.  When the first load raises and [eval]
    is set while [self.gpt] is [None] (no GPT was built, as without a
    vocabulary), [self.gpt.init_gpt_for_inference] raises [AttributeError],
    which is the exception of [load_checkpoint], and the load is not retried.
    Otherwise the load is retried exactly once, after
    [init_gpt_for_inference] when [eval] is set and directly when it is not;
    an exception of the retry is the exception of [load_checkpoint], nothing
    is called after it, and there is no third load.  The final block loads
    nothing; with [eval] it raises [AttributeError] at its first call on a
    missing GPT, and otherwise runs its three calls. *)
Theorem load_checkpoint_retries_once
    (St Tensor : Type) (self : LoaderComponents St Tensor) (args : XttsArgs)
    (checkpoint : dict Tensor) (vocab_exists eval strict use_deepspeed : bool)
    (w : world St) :
  let w0 := before_try self vocab_exists w in
  let run :=
    load_checkpoint self args (Ok checkpoint) vocab_exists eval strict use_deepspeed w in
  let loads := fun w' : world St => count_call CallLoadStateDict (calls w') in
  loads (snd run) <= loads w + 2 /\
  (forall ck, get_compatible_checkpoint_state_dict checkpoint = Ok ck ->
    (forall m1, load_state_dict self ck strict (model w0) = (Ok tt, m1) ->
       run = eval_mode self args eval use_deepspeed
                       {| model := m1; calls := calls w0 ++ [CallLoadStateDict] |} /\
       loads (snd run) = loads w + 1) /\
    (forall e1 m1, load_state_dict self ck strict (model w0) = (Err e1, m1) ->
       let w1 := {| model := m1; calls := calls w0 ++ [CallLoadStateDict] |} in
       (eval = true -> has_gpt self m1 = false ->
        run = (Err AttributeError, w1) /\ loads (snd run) = loads w + 1) /\
       (eval = false \/ has_gpt self m1 = true ->
        let m2 := if eval then init_gpt_for_inference self (kv_cache args) false m1
                  else m1 in
        let retry := calls w0 ++ [CallLoadStateDict]
                     ++ (if eval then [CallInitGptForInference] else [])
                     ++ [CallLoadStateDict] in
        (forall m3, load_state_dict self ck strict m2 = (Ok tt, m3) ->
           run = eval_mode self args eval use_deepspeed {| model := m3; calls := retry |} /\
           loads (snd run) = loads w + 2) /\
        (forall e2 m3, load_state_dict self ck strict m2 = (Err e2, m3) ->
           run = (Err e2, {| model := m3; calls := retry |}) /\
           loads (snd run) = loads w + 2)))) /\
  (forall w' : world St,
     let block := eval_mode self args eval use_deepspeed w' in
     let m := hifigan_eval self (model w') in
     let m' := init_gpt_for_inference self (kv_cache args) use_deepspeed m in
     loads (snd block) = loads w' /\
     (eval = false -> block = (Ok tt, w')) /\
     (eval = true -> has_gpt self m = false ->
      block = (Err AttributeError,
               {| model := m; calls := calls w' ++ [CallHifiganEval] |})) /\
     (eval = true -> has_gpt self m = true -> has_gpt self m' = false ->
      block = (Err AttributeError,
               {| model := m';
                  calls := calls w' ++ [CallHifiganEval; CallInitGptForInference] |})) /\
     (eval = true -> has_gpt self m = true -> has_gpt self m' = true ->
      block = (Ok tt, {| model := eval_model self args eval use_deepspeed (model w');
                         calls := calls w' ++ eval_calls eval |}))).
Proof.
  intros w0 run loads. unfold run. rewrite load_checkpoint_unfold. fold w0.
  assert (Hw0 : loads w0 = loads w).
  { unfold loads, w0, before_try. cbn [calls]. rewrite !count_call_app.
    destruct vocab_exists; cbn; lia. }
  assert (Hblock : forall w', loads (snd (eval_mode self args eval use_deepspeed w'))
                              = loads w')
    by (intros w'; apply eval_mode_loads_nothing).
  assert (Hone : forall m1 : St,
             loads {| model := m1; calls := calls w0 ++ [CallLoadStateDict] |}
             = loads w + 1).
  { intros m1. unfold loads in *. cbn [calls]. rewrite count_call_app, Hw0. cbn. lia. }
  assert (Htwo : forall m3 : St,
             loads {| model := m3;
                      calls := calls w0 ++ [CallLoadStateDict]
                               ++ (if eval then [CallInitGptForInference] else [])
                               ++ [CallLoadStateDict] |}
             = loads w + 2).
  { intros m3. unfold loads in *. cbn [calls]. rewrite !count_call_app, Hw0.
    destruct eval; cbn; lia. }
  split; [| split].
  - destruct (get_compatible_checkpoint_state_dict checkpoint) as [ck | e];
      [| cbn [snd]; rewrite Hw0; lia].
    destruct (load_state_dict self ck strict (model w0)) as [[[] | e1] m1].
    + rewrite Hblock, Hone. lia.
    + cbv zeta.
      destruct (eval && negb (has_gpt self m1))%bool; [cbn [snd]; rewrite Hone; lia |].
      destruct (load_state_dict self ck strict _) as [[[] | e2] m3].
      * rewrite Hblock, Htwo. lia.
      * cbn [snd]. rewrite Htwo. lia.
  - intros ck ->. split.
    + intros m1 ->. split; [reflexivity | now rewrite Hblock, Hone].
    + intros e1 m1 ->. cbv zeta. split.
      * intros -> ->. cbn [andb negb]. split; [reflexivity | cbn [snd]; apply Hone].
      * intros Hgpt.
        replace (eval && negb (has_gpt self m1))%bool with false
          by (destruct Hgpt as [-> | ->]; [reflexivity | now destruct eval]).
        split.
        -- intros m3 ->. split; [reflexivity | now rewrite Hblock, Htwo].
        -- intros e2 m3 ->. split; [reflexivity | cbn [snd]; apply Htwo].
  - intros w'. cbv zeta. split; [apply Hblock |].
    rewrite eval_mode_unfold. cbv zeta.
    split; [intros ->; reflexivity |].
    split; [intros -> ->; reflexivity |].
    split; [intros -> -> ->; reflexivity |].
    intros -> -> ->. reflexivity.
Qed.

(** C8 as stated fails twice over.  Without [eval] the caches are not
    re-initialised between the failed load and the retry.  With [eval] and
    no vocabulary file the model has no GPT: the re-initialisation raises
    [AttributeError] and the load is not retried at all. *)
Lemma load_checkpoint_retry_without_init :
  (let run := load_checkpoint Demo.loader default_XttsArgs (Ok []) false false true false
                              Demo.fresh_world in
   fst run = Err LoadError /\
   calls (snd run) = [CallInitModels; CallLoadStateDict; CallLoadStateDict] /\
   count_call CallInitGptForInference (calls (snd run)) = 0) /\
  (let run := load_checkpoint Demo.loader default_XttsArgs (Ok []) false true true false
                              Demo.fresh_world in
   fst run = Err AttributeError /\
   calls (snd run) = [CallInitModels; CallLoadStateDict] /\
   count_call CallLoadStateDict (calls (snd run)) = 1).
Proof. repeat split. Qed.

(** With [eval] and a vocabulary the same checkpoint loads at the second
    attempt, and a model whose every load raises fails after two attempts. *)
Example load_checkpoint_runs :
  (let run := load_checkpoint Demo.loader default_XttsArgs (Ok []) true true true false
                              Demo.fresh_world in
   fst run = Ok tt /\
   calls (snd run) = [CallLoadTokenizer; CallInitModels; CallLoadStateDict;
                      CallInitGptForInference; CallLoadStateDict; CallHifiganEval;
                      CallInitGptForInference; CallGptEval]) /\
  (let run := load_checkpoint Demo.failing_loader default_XttsArgs (Ok []) true true true
                              false Demo.fresh_world in
   fst run = Err LoadError /\
   calls (snd run) = [CallLoadTokenizer; CallInitModels; CallLoadStateDict;
                      CallInitGptForInference; CallLoadStateDict]).
Proof. repeat split. Qed.

(** ** The checkpoint key remapping (C7) *)

Section DictFacts.
Variable V : Type.

Lemma dict_get_set (d : dict V) (k k' : string) (v : V) :
  dict_get (dict_set d k v) k' = if String.eqb k k' then Some v else dict_get d k'.
Proof.
  induction d as [| [k0 v0] d IH]; cbn.
  - reflexivity.
  - destruct (String.eqb_spec k0 k) as [-> | Hk0]; cbn.
    + destruct (String.eqb_spec k k'); reflexivity.
    + rewrite IH. destruct (String.eqb_spec k0 k') as [-> | _]; [| reflexivity].
      destruct (String.eqb_spec k k'); [congruence | reflexivity].
Qed.

Lemma dict_get_none (d : dict V) (k : string) :
  ~ In k (dict_keys d) -> dict_get d k = None.
Proof.
  induction d as [| [k0 v0] d IH]; cbn; [reflexivity |].
  intros H. destruct (String.eqb_spec k0 k) as [-> | _].
  - exfalso. apply H. now left.
  - apply IH. intros Hin. apply H. now right.
Qed.

Lemma dict_get_some_in (d : dict V) (k : string) (v : V) :
  dict_get d k = Some v -> In k (dict_keys d).
Proof.
  induction d as [| [k0 v0] d IH]; cbn; [discriminate |].
  destruct (String.eqb_spec k0 k) as [-> | _]; [now left |].
  intros H. right. now apply IH.
Qed.

Lemma dict_get_in (d : dict V) (k : string) :
  In k (dict_keys d) -> exists v, dict_get d k = Some v.
Proof.
  induction d as [| [k0 v0] d IH]; cbn; [contradiction |].
  intros H. destruct (String.eqb_spec k0 k) as [-> | Hne]; [now eexists |].
  destruct H as [H | H]; [contradiction |]. now apply IH.
Qed.

Lemma dict_get_remove (d : dict V) (k k' : string) :
  NoDup (dict_keys d) ->
  dict_get (dict_remove d k) k' = if String.eqb k k' then None else dict_get d k'.
Proof.
  induction d as [| [k0 v0] d IH]; cbn; intros Hnd.
  - now destruct (String.eqb k k').
  - inversion Hnd as [| ? ? Hnotin Hnd']; subst.
    destruct (String.eqb_spec k0 k) as [-> | Hk0].
    + destruct (String.eqb_spec k k') as [E | _]; [| reflexivity].
      rewrite <- E. now apply dict_get_none.
    + cbn. rewrite IH by assumption.
      destruct (String.eqb_spec k0 k') as [-> | _]; [| reflexivity].
      destruct (String.eqb_spec k k'); [congruence | reflexivity].
Qed.

Lemma dict_keys_set (d : dict V) (k : string) (v : V) :
  forall x, In x (dict_keys (dict_set d k v)) <-> x = k \/ In x (dict_keys d).
Proof.
  induction d as [| [k0 v0] d IH]; cbn; intros x.
  - intuition.
  - destruct (String.eqb_spec k0 k) as [-> | Hk0]; cbn.
    + intuition.
    + rewrite IH. intuition.
Qed.

Lemma dict_set_nodup (d : dict V) (k : string) (v : V) :
  NoDup (dict_keys d) -> NoDup (dict_keys (dict_set d k v)).
Proof.
  induction d as [| [k0 v0] d IH]; cbn; intros Hnd.
  - constructor; [intros [] | constructor].
  - inversion Hnd as [| ? ? Hnotin Hnd']; subst.
    destruct (String.eqb_spec k0 k) as [-> | Hk0]; cbn.
    + now constructor.
    + constructor; [| now apply IH].
      intros Hin. apply dict_keys_set in Hin. destruct Hin; [congruence | contradiction].
Qed.

Lemma dict_keys_remove (d : dict V) (k : string) :
  forall x, In x (dict_keys (dict_remove d k)) -> In x (dict_keys d).
Proof.
  induction d as [| [k0 v0] d IH]; cbn; intros x; [trivial |].
  destruct (String.eqb_spec k0 k) as [-> | Hk0]; cbn.
  - now right.
  - intros [H | H]; [now left | right; now apply IH].
Qed.

Lemma dict_remove_nodup (d : dict V) (k : string) :
  NoDup (dict_keys d) -> NoDup (dict_keys (dict_remove d k)).
Proof.
  induction d as [| [k0 v0] d IH]; cbn; intros Hnd; [constructor |].
  inversion Hnd as [| ? ? Hnotin Hnd']; subst.
  destruct (String.eqb_spec k0 k) as [-> | Hk0]; cbn; [assumption |].
  constructor; [| now apply IH].
  intros Hin. apply Hnotin. now apply (dict_keys_remove d k).
Qed.
End DictFacts.

Lemma remove_all_from_skip (old s : string) :
  forall n, remove_all_from old n s = remove_all_from old 0 (string_drop n s).
Proof.
  induction s as [| c s IH]; intros [| n]; try reflexivity.
  cbn [remove_all_from string_drop]. apply IH.
Qed.

Lemma remove_all_from_absent (old s : string) :
  occurs old s = false -> remove_all_from old 0 s = s.
Proof.
  induction s as [| c s IH]; [reflexivity |].
  cbn [occurs remove_all_from]. intros H.
  apply orb_false_iff in H. destruct H as [Hp Ho].
  rewrite Hp, (IH Ho). reflexivity.
Qed.

Lemma occurs_prefix (old s : string) :
  occurs old s = false -> String.prefix old s = false.
Proof.
  destruct s; cbn [occurs]; intros H; apply orb_false_iff in H; apply H.
Qed.

(** On a key that has ["xtts."] as its prefix and nowhere else,
    [key.replace("xtts.", "")] removes the prefix. *)
Lemma replace_is_strip (key : string) :
  startswith key "xtts." = true ->
  occurs "xtts." (string_drop 5 key) = false ->
  py_replace_with_empty key "xtts." = strip_xtts_prefix key.
Proof.
  intros Hp Ho. unfold strip_xtts_prefix. rewrite Hp.
  unfold py_replace_with_empty, startswith in *.
  destruct key as [| c key]; [discriminate Hp |].
  cbn [remove_all_from]. rewrite Hp.
  rewrite remove_all_from_skip.
  change (string_drop (String.length "xtts." - 1) key) with (string_drop 5 (String c key)).
  now apply remove_all_from_absent.
Qed.

Lemma NoDup_map_injective {A B} (f : A -> B) (l : list A) :
  NoDup (map f l) -> forall x y, In x l -> In y l -> f x = f y -> x = y.
Proof.
  induction l as [| a l IH]; cbn; intros Hnd x y Hx Hy E; [contradiction |].
  inversion Hnd as [| ? ? Hnotin Hnd']; subst.
  destruct Hx as [-> | Hx], Hy as [-> | Hy]; auto.
  - exfalso. apply Hnotin. rewrite E. now apply in_map.
  - exfalso. apply Hnotin. rewrite <- E. now apply in_map.
Qed.

Section CheckpointFacts.
Variable Tensor : Type.

(** One iteration, as a change of the mapping: the key, under its new
    name, keeps its tensor unless the new name is discarded; the old name
    is gone; every other key is as before. *)
Lemma remap_key_lookup (d : dict Tensor) (key : string) (v : Tensor) :
  let new_key := if startswith key "xtts."
                 then py_replace_with_empty key "xtts." else key in
  NoDup (dict_keys d) ->
  dict_get d key = Some v ->
  (startswith key "xtts." = true -> new_key <> key) ->
  exists d',
    remap_key d key = Ok d' /\
    NoDup (dict_keys d') /\
    forall x, dict_get d' x =
              if String.eqb new_key x
              then (if kept_key new_key then Some v else None)
              else if String.eqb key x then None else dict_get d x.
Proof.
  intros new_key Hnd Hget Hne. unfold remap_key, kept_key.
  destruct (startswith key "xtts.") eqn:Hs.
  - specialize (Hne eq_refl). subst new_key.
    set (new_key := py_replace_with_empty key "xtts.") in *.
    unfold dict_getitem. rewrite Hget. cbn [rbind].
    unfold dict_delitem at 1. rewrite dict_get_set.
    destruct (String.eqb_spec new_key key) as [E | _]; [contradiction |].
    rewrite Hget. cbn [rbind].
    set (d1 := dict_remove (dict_set d new_key v) key).
    assert (Hnd1 : NoDup (dict_keys d1))
      by (apply dict_remove_nodup, dict_set_nodup; assumption).
    assert (Hd1 : forall x, dict_get d1 x =
                            if String.eqb key x then None
                            else if String.eqb new_key x then Some v else dict_get d x).
    { intros x. unfold d1. rewrite dict_get_remove by (now apply dict_set_nodup).
      now rewrite dict_get_set. }
    destruct (in_ignore_keys (split_dot_first new_key)); cbn [negb].
    + unfold dict_delitem. rewrite Hd1.
      destruct (String.eqb_spec key new_key) as [E | _]; [congruence |].
      rewrite String.eqb_refl.
      eexists. split; [reflexivity |]. split; [now apply dict_remove_nodup |].
      intros x. rewrite dict_get_remove by assumption. rewrite Hd1.
      destruct (String.eqb_spec new_key x); reflexivity.
    + eexists. split; [reflexivity |]. split; [assumption |].
      intros x. rewrite Hd1.
      destruct (String.eqb_spec new_key x) as [<- | _].
      * destruct (String.eqb_spec key new_key); [congruence | reflexivity].
      * reflexivity.
  - cbn [rbind]. subst new_key.
    destruct (in_ignore_keys (split_dot_first key)); cbn [negb].
    + unfold dict_delitem. rewrite Hget.
      eexists. split; [reflexivity |]. split; [now apply dict_remove_nodup |].
      intros x. rewrite dict_get_remove by assumption.
      destruct (String.eqb_spec key x); reflexivity.
    + eexists. split; [reflexivity |]. split; [assumption |].
      intros x. destruct (String.eqb_spec key x) as [<- | _]; [assumption | reflexivity].
Qed.
End CheckpointFacts.

Section RemapInvariant.
Variable Tensor : Type.
Variable d0 : dict Tensor.
Hypothesis Hprefix : prefix_only d0.
Hypothesis Hcollision : no_collision d0.

Let keys := dict_keys d0.

Lemma keys_nodup : NoDup keys.
Proof. exact (NoDup_map_inv _ _ Hcollision). Qed.

Lemma strip_not_prefixed (k : string) :
  In k keys -> startswith (strip_xtts_prefix k) "xtts." = false.
Proof.
  intros Hin. unfold strip_xtts_prefix.
  destruct (startswith k "xtts.") eqn:Hs; [| exact Hs].
  apply occurs_prefix. now apply Hprefix.
Qed.

Lemma new_key_is_strip (k : string) :
  In k keys ->
  (if startswith k "xtts." then py_replace_with_empty k "xtts." else k)
  = strip_xtts_prefix k.
Proof.
  intros Hin. destruct (startswith k "xtts.") eqn:Hs.
  - apply replace_is_strip; [exact Hs | now apply Hprefix].
  - unfold strip_xtts_prefix. now rewrite Hs.
Qed.

Lemma strip_injective (x y : string) :
  In x keys -> In y keys -> strip_xtts_prefix x = strip_xtts_prefix y -> x = y.
Proof. apply NoDup_map_injective. exact Hcollision. Qed.

(** A renamed key is no key of the checkpoint other than its source. *)
Lemma strip_fresh (x y : string) :
  In x keys -> In y keys -> x <> y -> strip_xtts_prefix x <> y.
Proof.
  intros Hx Hy Hne E.
  destruct (startswith y "xtts.") eqn:Hs.
  - pose proof (strip_not_prefixed x Hx) as H. rewrite E in H. congruence.
  - apply Hne, strip_injective; try assumption.
    rewrite E. unfold strip_xtts_prefix. now rewrite Hs.
Qed.

Lemma remap_key_step (done : list string) (k : string) (rest : list string)
      (d : dict Tensor) :
  rev done ++ k :: rest = keys ->
  remapped d0 done (k :: rest) d ->
  exists d', remap_key d k = Ok d' /\ remapped d0 (k :: done) rest d'.
Proof.
  intros Hkeys (Hnd & Hrest & Hdone & Hback).
  pose proof keys_nodup as Hknd. rewrite <- Hkeys in Hknd.
  assert (Hk : In k keys) by (rewrite <- Hkeys; apply in_or_app; right; now left).
  assert (Hin_rest : forall x, In x rest -> In x keys /\ x <> k).
  { intros x Hx. split.
    - rewrite <- Hkeys. apply in_or_app. right. now right.
    - intros ->. apply NoDup_remove_2 in Hknd. apply Hknd, in_or_app. now right. }
  assert (Hin_done : forall x, In x done -> In x keys /\ x <> k).
  { intros x Hx. split.
    - rewrite <- Hkeys. apply in_or_app. left. now apply in_rev in Hx.
    - intros ->. apply NoDup_remove_2 in Hknd. apply Hknd, in_or_app. left.
      now apply in_rev in Hx. }
  destruct (dict_get_in _ d0 k Hk) as [v Hv].
  assert (Hget : dict_get d k = Some v) by (rewrite Hrest; [exact Hv | now left]).
  destruct (remap_key_lookup Tensor d k v Hnd Hget) as (d' & Hrun & Hnd' & Hlook).
  { intros Hs E. rewrite (new_key_is_strip k Hk) in E.
    pose proof (strip_not_prefixed k Hk) as H. rewrite E in H. congruence. }
  rewrite (new_key_is_strip k Hk) in Hlook.
  exists d'. split; [exact Hrun |]. split; [exact Hnd' |]. split; [| split].
  - intros x Hx. destruct (Hin_rest x Hx) as [Hxk Hne].
    rewrite Hlook.
    destruct (String.eqb_spec (strip_xtts_prefix k) x) as [E | _].
    { exfalso. apply (strip_fresh k x Hk Hxk); congruence. }
    destruct (String.eqb_spec k x) as [E | _]; [congruence |].
    apply Hrest. now right.
  - intros x vx [<- | Hx] Hvx.
    + rewrite Hlook, String.eqb_refl.
      assert (v = vx) as -> by congruence. reflexivity.
    + destruct (Hin_done x Hx) as [Hxk Hne].
      rewrite Hlook.
      destruct (String.eqb_spec (strip_xtts_prefix k) (strip_xtts_prefix x)) as [E | _].
      { exfalso. apply Hne. symmetry. now apply strip_injective. }
      destruct (String.eqb_spec k (strip_xtts_prefix x)) as [E | _].
      { exfalso. apply (strip_fresh x k Hxk Hk Hne). congruence. }
      now apply Hdone.
  - intros x vx. rewrite Hlook.
    destruct (String.eqb_spec (strip_xtts_prefix k) x) as [E | _].
    + destruct (kept_key (strip_xtts_prefix k)) eqn:Hkept; [| discriminate].
      intros [= <-]. right. exists k.
      repeat split; [now left | exact E | now rewrite <- E | exact Hv].
    + destruct (String.eqb_spec k x) as [E | Hne]; [discriminate |].
      intros Hx. destruct (Hback x vx Hx) as [[[E | Hin] H0] | (k1 & Hin & H1)].
      * contradiction.
      * left. now split.
      * right. exists k1. split; [now right | exact H1].
Qed.

Lemma remap_keys_remapped (rest : list string) :
  forall done d,
    rev done ++ rest = keys ->
    remapped d0 done rest d ->
    exists d', remap_keys rest d = Ok d' /\ remapped d0 (rev rest ++ done) [] d'.
Proof.
  induction rest as [| k rest IH]; intros done d Hkeys Hinv.
  - exists d. split; [reflexivity | exact Hinv].
  - destruct (remap_key_step done k rest d Hkeys Hinv) as (d1 & Hstep & Hinv1).
    destruct (IH (k :: done) d1) as (d' & Hrun & Hinv').
    { cbn [rev]. rewrite <- app_assoc. exact Hkeys. }
    { exact Hinv1. }
    exists d'. split.
    + cbn [remap_keys]. rewrite Hstep. exact Hrun.
    + cbn [rev]. rewrite <- app_assoc. exact Hinv'.
Qed.
End RemapInvariant.

(** C7 (amended).  For a checkpoint in which ["xtts."] occurs in a key only
    as its prefix and no two keys coincide once the prefix is removed,
    [get_compatible_checkpoint_state_dict] returns a mapping in which every
    key, with its ["xtts."] prefix removed when it has one, keeps its tensor
    unless the first dot-separated component of the resulting name is one of
    the three ignored names, in which case it is absent; and the mapping holds
    nothing else. *)
Theorem get_compatible_checkpoint_state_dict_remaps
    (Tensor : Type) (checkpoint : dict Tensor) :
  prefix_only checkpoint -> no_collision checkpoint ->
  exists d',
    get_compatible_checkpoint_state_dict checkpoint = Ok d' /\
    NoDup (dict_keys d') /\
    (forall k v, dict_get checkpoint k = Some v ->
                 dict_get d' (strip_xtts_prefix k)
                 = if kept_key (strip_xtts_prefix k) then Some v else None) /\
    (forall k' v, dict_get d' k' = Some v ->
                  exists k, strip_xtts_prefix k = k' /\ kept_key k' = true /\
                            dict_get checkpoint k = Some v).
Proof.
  intros Hprefix Hcollision.
  destruct (remap_keys_remapped Tensor checkpoint Hprefix Hcollision
                                (dict_keys checkpoint) [] checkpoint eq_refl)
    as (d' & Hrun & Hnd & _ & Hdone & Hback).
  { split; [exact (keys_nodup Tensor checkpoint Hcollision) |].
    split; [reflexivity |]. split.
    - intros k v [].
    - intros k' v H. left. split; [| exact H].
      now apply dict_get_some_in in H. }
  exists d'. split; [exact Hrun |]. split; [exact Hnd |]. split.
  - intros k v Hv. apply Hdone; [| exact Hv].
    rewrite app_nil_r. apply in_rev. rewrite rev_involutive.
    now apply dict_get_some_in in Hv.
  - intros k' v H. destruct (Hback k' v H) as [[[] _] | (k & _ & H1)].
    exists k. exact H1.
Qed.

(** ** The crossfade of handle_chunks (C4) and the stream (C3, C10) *)

Lemma py_bound_range (n i : Z) : (0 <= n)%Z -> (0 <= py_bound n i <= n)%Z.
Proof. intros H. unfold py_bound. destruct (Z.ltb_spec i 0); lia. Qed.

Lemma py_lo_range (n : Z) (start : option Z) : (0 <= n)%Z -> (0 <= py_lo n start <= n)%Z.
Proof. intros H. destruct start; cbn; [now apply py_bound_range | lia]. Qed.

Lemma py_hi_range (n : Z) (stop : option Z) : (0 <= n)%Z -> (0 <= py_hi n stop <= n)%Z.
Proof. intros H. destruct stop; cbn; [now apply py_bound_range | lia]. Qed.

Section StreamingFacts.
Variable T : Type.
Variables tmul tadd : T -> T -> T.
Variables zero one : T.
Variable linspace : T -> T -> nat -> list T.
Hypothesis linspace_length : forall a b n, List.length (linspace a b n) = n.

Lemma zip_with_length (f : T -> T -> T) (a b : list T) :
  List.length (zip_with f a b) = Nat.min (List.length a) (List.length b).
Proof.
  revert b. induction a as [| x a IH]; intros [| y b]; cbn; try reflexivity.
  now rewrite IH.
Qed.

Lemma zip_with_nil_r (f : T -> T -> T) (a : list T) : zip_with f a [] = [].
Proof. now destruct a. Qed.

Lemma blend_length (n : nat) (prev_tail new_head : list T) :
  List.length (blend tmul tadd zero one linspace n prev_tail new_head)
  = Nat.min (Nat.min (List.length prev_tail) n) (Nat.min (List.length new_head) n).
Proof. unfold blend. now rewrite !zip_with_length, !linspace_length. Qed.

Lemma region_length (w : list T) (a b : nat) :
  List.length (region w a b) = Nat.min (b - a) (List.length w - a).
Proof. unfold region. now rewrite length_firstn, length_skipn. Qed.

Lemma write_at_length (l : list T) (off : nat) (new : list T) :
  off + List.length new <= List.length l ->
  List.length (write_at l off new) = List.length l.
Proof.
  intros H. unfold write_at. rewrite !length_app, length_firstn, length_skipn. lia.
Qed.

(** Reading back a view after a write at its start. *)
Lemma view_after_write (l : list T) (off k : nat) (new : list T) :
  off <= List.length l ->
  List.length new <= List.length (firstn k (skipn off l)) ->
  firstn k (skipn off (write_at l off new))
  = new ++ skipn (List.length new) (firstn k (skipn off l)).
Proof.
  intros Hoff Hnew. rewrite length_firstn, length_skipn in Hnew.
  unfold write_at.
  rewrite skipn_app, length_firstn.
  replace (off - Nat.min off (List.length l)) with 0 by lia.
  rewrite (skipn_all2 (firstn off l)) by (rewrite length_firstn; lia).
  cbn [skipn app].
  rewrite firstn_app.
  rewrite (firstn_all2 new) by lia.
  f_equal.
  rewrite skipn_firstn_comm. f_equal.
  now rewrite skipn_skipn, Nat.add_comm.
Qed.

(** What lies past a write is unchanged. *)
Lemma tail_after_write (l : list T) (off j : nat) (new : list T) :
  off + List.length new <= j -> off + List.length new <= List.length l ->
  skipn j (write_at l off new) = skipn j l.
Proof.
  intros Hj Hl. unfold write_at.
  rewrite app_assoc, skipn_app, length_app, length_firstn.
  rewrite (skipn_all2 (firstn off l ++ new))
    by (rewrite length_app, length_firstn; lia).
  cbn [app]. rewrite skipn_skipn. f_equal. lia.
Qed.

Lemma write_at_nil (l : list T) (off : nat) : write_at l off [] = l.
Proof.
  unfold write_at. cbn [app List.length]. rewrite Nat.add_0_r. apply firstn_skipn.
Qed.

Local Abbreviation hc := (handle_chunks tmul tadd zero one linspace).
Local Abbreviation blend' := (blend tmul tadd zero one linspace).

Lemma tensor_mul_ok (a b r : list T) :
  tensor_mul tmul a b = Ok r ->
  (List.length a = List.length b /\ r = zip_with tmul a b) \/
  (List.length a <> List.length b /\ exists x, a = [x] /\ r = map (fun y => tmul x y) b) \/
  (List.length a <> List.length b /\ exists y, b = [y] /\ r = map (fun x => tmul x y) a).
Proof.
  unfold tensor_mul. destruct (Nat.eqb_spec (List.length a) (List.length b)) as [E | NE].
  - intros [= <-]. now left.
  - destruct a as [| x [| x' a]].
    + destruct b as [| y [| y' b]]; try discriminate.
      intros [= <-]. right. right. split; [exact NE | now exists y].
    + intros [= <-]. right. left. split; [exact NE | now exists x].
    + destruct b as [| y [| y' b]]; try discriminate.
      intros [= <-]. right. right. split; [exact NE | now exists y].
Qed.

Lemma broadcast_to_ok (n : nat) (src r : list T) :
  broadcast_to n src = Ok r ->
  (List.length src = n /\ r = src) \/
  (List.length src <> n /\ exists x, src = [x] /\ r = repeat x n).
Proof.
  unfold broadcast_to. destruct (Nat.eqb_spec (List.length src) n) as [E | NE].
  - intros [= <-]. now left.
  - destruct src as [| x [| x' src]]; try discriminate.
    intros [= <-]. right. split; [exact NE | now exists x].
Qed.

(** What a call with a previous overlap of [overlap_len] samples does when
    it returns. *)
Lemma handle_chunks_some_inv
      (wav_gen : list T) (wav_gen_prev : option (list T)) (wav_overlap : list T)
      (overlap_len : Z) (c p' ov' : list T) :
  List.length wav_overlap = Z.to_nat overlap_len ->
  hc wav_gen wav_gen_prev (Some wav_overlap) overlap_len = Ok (c, p', ov') ->
  let start := match wav_gen_prev with
               | None => None
               | Some prev => Some (len prev - overlap_len)%Z
               end in
  let raw := py_slice wav_gen start (Some (- overlap_len)%Z) in
  let n := Z.to_nat overlap_len in
  let b := blend' n wav_overlap (firstn n raw) in
  (0 <= overlap_len)%Z /\
  (n <= List.length raw \/ (n = 1 /\ raw = [])) /\
  c = b ++ skipn n raw /\
  p' = write_at wav_gen (Z.to_nat (py_lo (len wav_gen) start)) b /\
  ov' = py_slice p' (Some (- overlap_len)%Z) None.
Proof.
  intros Hov H start raw n b.
  unfold handle_chunks in H. fold start in H. fold raw in H.
  unfold torch_linspace in H.
  destruct (Z.ltb_spec overlap_len 0) as [Hneg | Hpos]; [discriminate H |].
  cbn [rbind] in H. fold n in H.
  rewrite (py_slice_prefix raw overlap_len Hpos) in H. fold n in H.
  unfold b, blend.
  remember (firstn n raw) as head eqn:Ehead.
  remember (linspace zero one n) as fi eqn:Efi.
  remember (linspace one zero n) as fo eqn:Efo.
  assert (Hfi : List.length fi = n) by (subst fi; apply linspace_length).
  assert (Hfo : List.length fo = n) by (subst fo; apply linspace_length).
  assert (Hhead : List.length head = Nat.min n (List.length raw))
    by (subst head; apply length_firstn).
  clear Efi Efo.
  destruct (tensor_mul tmul head fi) as [cf |] eqn:E1; [| discriminate H].
  cbn [rbind] in H.
  destruct (tensor_mul tmul wav_overlap fo) as [faded |] eqn:E2; [| discriminate H].
  cbn [rbind] in H.
  destruct (broadcast_to (List.length head) faded) as [written |] eqn:E3;
    [| discriminate H].
  cbn [rbind] in H.
  destruct (broadcast_to (List.length head) cf) as [added |] eqn:E4;
    [| discriminate H].
  cbn [rbind] in H.
  apply tensor_mul_ok in E2.
  destruct E2 as [[_ ->] | [[Hne _] | [Hne _]]]; try (exfalso; lia).
  set (new := zip_with tadd (zip_with tmul wav_overlap fo) (zip_with tmul head fi)).
  assert (Hshape : zip_with tadd written added = new /\
                   (List.length head = n \/ (n = 1 /\ head = []))).
  { apply tensor_mul_ok in E1. apply broadcast_to_ok in E3. apply broadcast_to_ok in E4.
    rewrite zip_with_length in E3.
    destruct E1 as [[Hl ->] | [[Hl (x & Hx & ->)] | [Hl (y & Hy & ->)]]].
    - rewrite zip_with_length in E4.
      destruct E3 as [[_ ->] | [Hne _]]; [| exfalso; lia].
      destruct E4 as [[_ ->] | [Hne _]]; [| exfalso; lia].
      split; [reflexivity | left; lia].
    - exfalso. subst head. rewrite Hx in *. cbn [List.length] in *.
      destruct E3 as [[Hl3 _] | [_ (z & Hz & _)]]; [lia |].
      apply (f_equal (@List.length T)) in Hz. rewrite zip_with_length in Hz.
      cbn in Hz. lia.
    - assert (Hn1 : n = 1) by (rewrite <- Hfi, Hy; reflexivity).
      assert (Hnil : head = []) by (apply length_zero_iff_nil; lia).
      unfold new. rewrite Hnil in *. cbn [List.length map zip_with] in *.
      destruct E4 as [[_ ->] | [Hne _]]; [| exfalso; lia].
      rewrite !zip_with_nil_r. split; [reflexivity | right; now split]. }
  destruct Hshape as [Hw Hshape]. rewrite Hw in H.
  injection H as Hc Hp Ho.
  set (off := Z.to_nat (py_lo (len wav_gen) start)) in *.
  assert (Hnew : List.length new = List.length head).
  { unfold new. rewrite !zip_with_length. lia. }
  pose proof (py_lo_range (len wav_gen) start (len_nonneg wav_gen)) as Hlo.
  pose proof (py_hi_range (len wav_gen) (Some (- overlap_len)%Z) (len_nonneg wav_gen))
    as Hhi.
  assert (Hraw : raw = firstn (Z.to_nat (py_hi (len wav_gen) (Some (- overlap_len)%Z)
                                        - py_lo (len wav_gen) start))
                          (skipn off wav_gen)) by reflexivity.
  assert (Hrawn : n <= List.length raw \/ (n = 1 /\ raw = [])).
  { destruct Hshape as [Hl | [Hn Hnil]]; [left; lia |].
    right. split; [exact Hn |]. apply length_zero_iff_nil.
    apply (f_equal (@List.length T)) in Hnil. cbn in Hnil. lia. }
  assert (Hskip : skipn (List.length new) raw = skipn n raw).
  { destruct Hrawn as [Hl | [Hn ->]]; [f_equal; lia | now rewrite !skipn_nil]. }
  assert (Hoff : off + List.length new <= List.length wav_gen).
  { assert (Hle : List.length new <= List.length raw) by lia.
    rewrite Hraw, length_firstn, length_skipn in Hle. unfold off, len in *. lia. }
  split; [exact Hpos |]. split; [exact Hrawn |].
  split; [| split; [now symmetry | rewrite <- Hp; now symmetry]].
  rewrite <- Hc. unfold py_slice.
  replace (len (write_at wav_gen off new)) with (len wav_gen)
    by (unfold len; now rewrite write_at_length).
  fold off. rewrite view_after_write.
  - rewrite <- Hraw, Hskip. reflexivity.
  - unfold off, len in *. lia.
  - rewrite <- Hraw. lia.
Qed.

Lemma handle_chunks_none
      (wav_gen : list T) (wav_gen_prev : option (list T)) (overlap_len : Z) :
  hc wav_gen wav_gen_prev None overlap_len
  = Ok (py_slice wav_gen
                 match wav_gen_prev with
                 | None => None
                 | Some prev => Some (len prev - overlap_len)%Z
                 end
                 (Some (- overlap_len)%Z),
        wav_gen,
        py_slice wav_gen (Some (- overlap_len)%Z) None).
Proof. reflexivity. Qed.

(** The first chunk of a run, for [0 < overlap_len <= len(wav_gen)]. *)
Lemma handle_chunks_first (w : list T) (overlap_len : Z) :
  (0 < overlap_len <= len w)%Z ->
  let n := Z.to_nat overlap_len in
  hc w None None overlap_len
  = Ok (region w 0 (List.length w - n), w, skipn (List.length w - n) w).
Proof.
  intros H n. rewrite handle_chunks_none.
  rewrite py_slice_drop_tail, py_slice_tail by assumption.
  unfold region. cbn [skipn]. now rewrite Nat.sub_0_r.
Qed.

(** A later chunk: [prev] is the previous decode as the code left it,
    [wp] the previous decode as it was decoded. *)
Lemma handle_chunks_next
      (w prev wp : list T) (overlap_len : Z) (c p' ov' : list T) :
  let n := Z.to_nat overlap_len in
  (0 < overlap_len)%Z ->
  n <= List.length wp ->
  List.length prev = List.length wp ->
  List.length wp <= List.length w ->
  hc w (Some prev) (Some (skipn (List.length wp - n) wp)) overlap_len = Ok (c, p', ov') ->
  c = stitched_chunk tmul tadd zero one linspace n wp w /\
  List.length p' = List.length w /\
  ov' = skipn (List.length w - n) w.
Proof.
  intros n Hn Hwp Hprev Hle H.
  apply handle_chunks_some_inv in H; [| rewrite length_skipn; lia].
  cbv zeta in H. fold n in H.
  destruct H as (_ & Hshape & Hc & Hp & Ho).
  set (lp := List.length wp) in *. set (l := List.length w) in *.
  assert (Hraw : py_slice w (Some (len prev - overlap_len)%Z) (Some (- overlap_len)%Z)
                 = region w (lp - n) (l - n)).
  { unfold py_slice, py_lo, py_hi, py_bound, region.
    replace (len prev - overlap_len <? 0)%Z with false
      by (symmetry; apply Z.ltb_ge; unfold len; lia).
    replace (- overlap_len <? 0)%Z with true by (symmetry; apply Z.ltb_lt; lia).
    f_equal; [| f_equal]; unfold len; fold l; lia. }
  rewrite Hraw in *.
  assert (Hoff : Z.to_nat (py_lo (len w) (Some (len prev - overlap_len)%Z)) = lp - n).
  { unfold py_lo, py_bound.
    replace (len prev - overlap_len <? 0)%Z with false
      by (symmetry; apply Z.ltb_ge; unfold len; lia).
    unfold len; fold l; lia. }
  rewrite Hoff in Hp.
  assert (Hhead : firstn n (region w (lp - n) (l - n))
                  = region w (lp - n) (Nat.min lp (l - n))).
  { unfold region. rewrite firstn_firstn. f_equal. lia. }
  assert (Htail : skipn n (region w (lp - n) (l - n)) = region w lp (l - n)).
  { unfold region. rewrite skipn_firstn_comm, skipn_skipn. f_equal; [lia |].
    f_equal. lia. }
  assert (Hov : skipn (lp - n) wp = region wp (lp - n) lp).
  { unfold region. symmetry. apply firstn_all2. rewrite length_skipn. fold lp. lia. }
  rewrite Hhead, Htail, Hov in Hc. rewrite Hhead, Hov in Hp.
  set (b := blend tmul tadd zero one linspace n (region wp (lp - n) lp)
                  (region w (lp - n) (Nat.min lp (l - n)))) in *.
  assert (Hb : List.length b <= l - lp).
  { unfold b. rewrite blend_length.
    etransitivity; [apply Nat.le_min_r |].
    etransitivity; [apply Nat.le_min_l |].
    rewrite <- Hhead, length_firstn.
    etransitivity; [apply Nat.le_min_r |].
    unfold region. rewrite length_firstn.
    etransitivity; [apply Nat.le_min_l |]. lia. }
  split; [exact Hc |]. split.
  - rewrite Hp. apply write_at_length. fold l. lia.
  - rewrite Ho, py_slice_tail.
    + rewrite Hp, write_at_length by (fold l; lia). fold l n.
      apply tail_after_write; fold l; lia.
    + rewrite Hp. unfold len. rewrite write_at_length by (fold l; lia). fold l. lia.
Qed.

End StreamingFacts.

Section StreamFacts.
Variable T : Type.
Variables tmul tadd : T -> T -> T.
Variables zero one : T.
Variable linspace : T -> T -> nat -> list T.
Hypothesis linspace_length : forall a b n, List.length (linspace a b n) = n.
Variables Lat Code : Type.
Variable hifigan_decoder : list Lat -> list T.

Local Abbreviation loop := (@stream_loop T tmul tadd zero one linspace Lat Code hifigan_decoder).
Local Abbreviation decode := (decode_chunk tmul tadd zero one linspace hifigan_decoder).
Local Abbreviation hc := (handle_chunks tmul tadd zero one linspace).
Local Abbreviation dec := (fun all_latents : list (list Lat) => hifigan_decoder (concat all_latents)).

Lemma decode_chunk_ok (all_latents : list (list Lat)) (prev ov : option (list T))
      (overlap_wav_len : Z) r :
  decode all_latents prev ov overlap_wav_len = Ok r ->
  hc (dec all_latents) prev ov overlap_wav_len = Ok r.
Proof.
  unfold decode_chunk, torch_cat, squeeze.
  destruct all_latents as [| a rest]; [discriminate |].
  cbn [rbind]. destruct (List.length _ =? 1); [discriminate |].
  cbn [rbind]. trivial.
Qed.

Lemma lengths_nondecreasing_cons (w w' : list T) (rest : list (list T)) :
  lengths_nondecreasing (w :: w' :: rest) = true ->
  List.length w <= List.length w' /\ lengths_nondecreasing (w' :: rest) = true.
Proof.
  cbn [lengths_nondecreasing]. intros H. apply andb_prop in H. destruct H as [H1 H2].
  apply Nat.leb_le in H1. now split.
Qed.

Section Run.
Variables stream_chunk_size overlap_wav_len : Z.
Hypothesis overlap_positive : (0 < overlap_wav_len)%Z.

Let n := Z.to_nat overlap_wav_len.

(** The chunks of a completed run after its first decode. *)
Lemma stream_loop_after (generator : list (Code * list Lat)) :
  forall last_tokens all_latents prev wp chunks,
    loop stream_chunk_size overlap_wav_len generator last_tokens all_latents
         (Some prev) (Some (skipn (List.length wp - n) wp)) = (chunks, Done) ->
    List.length prev = List.length wp ->
    n <= List.length wp ->
    lengths_nondecreasing
      (wp :: map dec (stream_flushes stream_chunk_size generator last_tokens all_latents))
    = true ->
    chunks = stitched_after tmul tadd zero one linspace n wp
               (map dec (stream_flushes stream_chunk_size generator
                                        last_tokens all_latents)).
Proof.
  induction generator as [| [x latent] generator IH];
    intros last_tokens all_latents prev wp chunks H Hprev Hn Hmono.
  - cbn [stream_loop] in H. cbn [stream_flushes map] in *.
    destruct (decode all_latents _ _ _) as [[[c p'] ov'] | e] eqn:E; [| discriminate H].
    injection H as <-.
    apply decode_chunk_ok in E.
    apply lengths_nondecreasing_cons in Hmono. destruct Hmono as [Hle _].
    apply (handle_chunks_next T tmul tadd zero one linspace linspace_length) in E;
      try assumption.
    destruct E as (-> & _). reflexivity.
  - cbn [stream_loop] in H. cbn [stream_flushes] in *.
    destruct ((0 <? stream_chunk_size)%Z
              && (stream_chunk_size <=? len (last_tokens ++ [x]))%Z)%bool.
    + cbn [map] in *.
      destruct (decode (all_latents ++ [latent]) _ _ _) as [[[c p'] ov'] | e] eqn:E;
        [| discriminate H].
      destruct (loop _ _ generator _ _ _ _) as [chunks' st] eqn:Eloop.
      injection H as <- ->.
      apply decode_chunk_ok in E.
      apply lengths_nondecreasing_cons in Hmono. destruct Hmono as [Hle Hmono].
      apply (handle_chunks_next T tmul tadd zero one linspace linspace_length) in E;
        try assumption.
      destruct E as (-> & Hp' & ->).
      cbn [stitched_after]. f_equal.
      apply (IH _ _ p'); try assumption. lia.
    + now apply (IH _ _ prev).
Qed.

(** The chunks of a completed run. *)
Lemma stream_loop_chunks (generator : list (Code * list Lat)) :
  forall last_tokens all_latents chunks,
    loop stream_chunk_size overlap_wav_len generator last_tokens all_latents
         None None = (chunks, Done) ->
    let decodes :=
      map dec (stream_flushes stream_chunk_size generator last_tokens all_latents) in
    n <= List.length (hd [] decodes) ->
    lengths_nondecreasing decodes = true ->
    chunks = stitched_chunks tmul tadd zero one linspace n decodes.
Proof.
  induction generator as [| [x latent] generator IH];
    intros last_tokens all_latents chunks H decodes Hn Hmono; unfold decodes in *.
  - cbn [stream_loop] in H. cbn [stream_flushes map hd] in *.
    destruct (decode all_latents _ _ _) as [[[c p'] ov'] | e] eqn:E; [| discriminate H].
    injection H as <-.
    apply decode_chunk_ok in E.
    rewrite handle_chunks_first in E by (unfold len; lia).
    injection E as <- _ _. reflexivity.
  - cbn [stream_loop] in H. cbn [stream_flushes] in *.
    destruct ((0 <? stream_chunk_size)%Z
              && (stream_chunk_size <=? len (last_tokens ++ [x]))%Z)%bool.
    + cbn [map hd] in *.
      destruct (decode (all_latents ++ [latent]) _ _ _) as [[[c p'] ov'] | e] eqn:E;
        [| discriminate H].
      destruct (loop _ _ generator _ _ _ _) as [chunks' st] eqn:Eloop.
      injection H as <- ->.
      apply decode_chunk_ok in E.
      rewrite handle_chunks_first in E by (unfold len; lia).
      injection E as <- <- <-.
      cbn [stitched_chunks]. f_equal.
      now apply (stream_loop_after generator _ _ _ _ _ Eloop).
    + now apply IH.
Qed.
End Run.
End StreamFacts.

(** C4.  Without a previous overlap (the very first chunk) no blending is
    applied: whatever the length of [wav_gen], the call returns, the chunk
    is the slice of [wav_gen] as it is, and [wav_gen] is returned unchanged.
    When a previous overlap of [overlap_len] samples exists and the call
    returns, the first [overlap_len] samples of the emitted chunk are the
    held-back tail times [linspace(1, 0, overlap_len)] plus the head of the
    new chunk times [linspace(0, 1, overlap_len)], sample by sample, and the
    rest of the chunk is unchanged. *)
Theorem handle_chunks_crossfade
    (T : Type) (tmul tadd : T -> T -> T) (zero one : T)
    (linspace : T -> T -> nat -> list T)
    (wav_gen : list T) (wav_gen_prev : option (list T)) (overlap_len : Z) :
  (forall a b n, List.length (linspace a b n) = n) ->
  let start := match wav_gen_prev with
               | None => None
               | Some prev => Some (len prev - overlap_len)%Z
               end in
  let unblended := py_slice wav_gen start (Some (- overlap_len)%Z) in
  let n := Z.to_nat overlap_len in
  handle_chunks tmul tadd zero one linspace wav_gen wav_gen_prev None overlap_len
  = Ok (unblended, wav_gen, py_slice wav_gen (Some (- overlap_len)%Z) None) /\
  forall wav_overlap wav_chunk prev' overlap' : list T,
    List.length wav_overlap = n ->
    handle_chunks tmul tadd zero one linspace wav_gen wav_gen_prev (Some wav_overlap)
                  overlap_len
    = Ok (wav_chunk, prev', overlap') ->
    firstn n wav_chunk
    = zip_with tadd
        (zip_with tmul wav_overlap (linspace one zero n))
        (zip_with tmul (firstn n unblended) (linspace zero one n)) /\
    skipn n wav_chunk = skipn n unblended.
Proof.
  intros Hlin start unblended n.
  split; [reflexivity |].
  intros wav_overlap wav_chunk prev' overlap' Hov H.
  apply (handle_chunks_some_inv T tmul tadd zero one linspace Hlin) in H; [| exact Hov].
  cbv zeta in H. fold start unblended n in H.
  destruct H as (_ & Hshape & -> & _ & _).
  fold (blend tmul tadd zero one linspace n wav_overlap (firstn n unblended)).
  set (b := blend tmul tadd zero one linspace n wav_overlap (firstn n unblended)).
  assert (Hb : List.length b = Nat.min n (List.length unblended)).
  { unfold b. rewrite blend_length by exact Hlin. rewrite length_firstn. lia. }
  split.
  - destruct Hshape as [Hl | [Hn Hnil]].
    + rewrite firstn_app, firstn_all2 by lia.
      replace (n - List.length b) with 0 by lia. cbn [firstn]. apply app_nil_r.
    + rewrite Hnil in *. cbn in Hb. rewrite Nat.min_0_r in Hb.
      apply length_zero_iff_nil in Hb. rewrite Hb, skipn_nil. now destruct n.
  - destruct Hshape as [Hl | [Hn Hnil]].
    + rewrite skipn_app, skipn_all2 by lia.
      replace (n - List.length b) with 0 by lia. reflexivity.
    + rewrite Hnil in *. cbn in Hb. rewrite Nat.min_0_r in Hb.
      apply length_zero_iff_nil in Hb. rewrite Hb, !skipn_nil. reflexivity.
Qed.

Lemma linspaceQ_length (a b : QArith_base.Q) (n : nat) :
  List.length (Demo.linspaceQ a b n) = n.
Proof. unfold Demo.linspaceQ. now rewrite length_map, length_seq. Qed.

Lemma handle_chunks_crossfade_witness :
  let wav_gen := map Demo.q [1; 2; 3; 4; 5; 6; 7; 8]%Z in
  let wav_gen_prev := map Demo.q [1; 2; 3; 4; 5]%Z in
  let wav_overlap := map Demo.q [40; 50]%Z in
  let first := map Demo.q [1; 2; 3]%Z in
  (exists wav_chunk prev' overlap',
      Demo.handle_chunksQ wav_gen (Some wav_gen_prev) (Some wav_overlap) 2
      = Ok (wav_chunk, prev', overlap') /\
      firstn 2 wav_chunk
      = zip_with QArith_base.Qplus
          (zip_with QArith_base.Qmult wav_overlap
                    (Demo.linspaceQ (Demo.q 1) (Demo.q 0) 2))
          (zip_with QArith_base.Qmult (map Demo.q [4; 5]%Z)
                    (Demo.linspaceQ (Demo.q 0) (Demo.q 1) 2)) /\
      skipn 2 wav_chunk = map Demo.q [6]%Z) /\
  Demo.handle_chunksQ first None None 2
  = Ok (map Demo.q [1]%Z, first, map Demo.q [2; 3]%Z) /\
  Demo.handle_chunksQ (map Demo.q [7]%Z) None None 2
  = Ok ([], map Demo.q [7]%Z, map Demo.q [7]%Z).
Proof.
  cbv zeta. split; [| split].
  - destruct (Demo.handle_chunksQ (map Demo.q [1; 2; 3; 4; 5; 6; 7; 8]%Z)
                                  (Some (map Demo.q [1; 2; 3; 4; 5]%Z))
                                  (Some (map Demo.q [40; 50]%Z)) 2)
      as [[[wav_chunk prev'] overlap'] | e] eqn:E.
    + exists wav_chunk, prev', overlap'. split; [reflexivity |].
      exact (proj2 (handle_chunks_crossfade
                      QArith_base.Q QArith_base.Qmult QArith_base.Qplus
                      (Demo.q 0) (Demo.q 1) Demo.linspaceQ
                      (map Demo.q [1; 2; 3; 4; 5; 6; 7; 8]%Z)
                      (Some (map Demo.q [1; 2; 3; 4; 5]%Z)) 2 linspaceQ_length)
                   (map Demo.q [40; 50]%Z) wav_chunk prev' overlap' eq_refl E).
    + vm_compute in E. discriminate E.
  - exact (proj1 (handle_chunks_crossfade
                    QArith_base.Q QArith_base.Qmult QArith_base.Qplus
                    (Demo.q 0) (Demo.q 1) Demo.linspaceQ
                    (map Demo.q [1; 2; 3]%Z) None 2 linspaceQ_length)).
  - exact (proj1 (handle_chunks_crossfade
                    QArith_base.Q QArith_base.Qmult QArith_base.Qplus
                    (Demo.q 0) (Demo.q 1) Demo.linspaceQ
                    (map Demo.q [7]%Z) None 2 linspaceQ_length)).
Defined.

Section StreamTheorems.
Variable T : Type.
Variables tmul tadd : T -> T -> T.
Variables zero one : T.
Variable linspace : T -> T -> nat -> list T.
Hypothesis linspace_length : forall a b n, List.length (linspace a b n) = n.
Variables Lat Code : Type.
Variable hifigan_decoder : list Lat -> list T.

(** The chunks of a completed run are the stitched chunks of its decodes. *)
Lemma inference_stream_chunks
      (stream_chunk_size overlap_wav_len : Z) (generator : list (Code * list Lat))
      (chunks : list (list T)) :
  (0 < overlap_wav_len)%Z ->
  inference_stream tmul tadd zero one linspace hifigan_decoder
                   stream_chunk_size overlap_wav_len generator = (chunks, Done) ->
  let decodes := stream_decodes hifigan_decoder stream_chunk_size generator in
  (overlap_wav_len <= len (hd [] decodes))%Z ->
  lengths_nondecreasing decodes = true ->
  chunks = stitched_chunks tmul tadd zero one linspace (Z.to_nat overlap_wav_len) decodes.
Proof.
  intros Hn H decodes Hfirst Hmono.
  apply (stream_loop_chunks T tmul tadd zero one linspace linspace_length
                            Lat Code hifigan_decoder stream_chunk_size
                            overlap_wav_len Hn generator [] [] chunks H).
  - fold (stream_decodes hifigan_decoder stream_chunk_size generator).
    fold decodes. unfold len in Hfirst. lia.
  - exact Hmono.
Qed.




Lemma stream_flushes_nonempty (stream_chunk_size : Z)
      (generator : list (Code * list Lat)) :
  forall last_tokens all_latents,
    stream_flushes stream_chunk_size generator last_tokens all_latents <> [].
Proof.
  induction generator as [| [x latent] generator IH]; intros last_tokens all_latents;
    cbn [stream_flushes]; [discriminate |].
  destruct ((0 <? stream_chunk_size)%Z && _)%bool; [discriminate | apply IH].
Qed.

(** The last decode of a run is the decode of all its latents. *)
Lemma stream_flushes_last (stream_chunk_size : Z) (generator : list (Code * list Lat)) :
  forall last_tokens all_latents,
    last (stream_flushes stream_chunk_size generator last_tokens all_latents) []
    = all_latents ++ map snd generator.
Proof.
  induction generator as [| [x latent] generator IH]; intros last_tokens all_latents.
  - cbn. now rewrite app_nil_r.
  - cbn [stream_flushes map snd].
    destruct ((0 <? stream_chunk_size)%Z && _)%bool.
    + pose proof (stream_flushes_nonempty stream_chunk_size generator
                                          [] (all_latents ++ [latent])) as Hne.
      destruct (stream_flushes stream_chunk_size generator [] (all_latents ++ [latent]))
        as [| f fs] eqn:E; [contradiction |].
      change (last (_ :: f :: fs) []) with (last (f :: fs) []).
      rewrite <- E, IH, <- app_assoc. reflexivity.
    + rewrite IH, <- app_assoc. reflexivity.
Qed.
End StreamTheorems.


(** A region that ends within a prefix is a region of the whole. *)
Lemma region_firstn {T} (x : list T) (m a b : nat) :
  b <= m -> region (firstn m x) a b = region x a b.
Proof.
  intros H. unfold region.
  rewrite skipn_firstn_comm, firstn_firstn. f_equal. lia.
Qed.

Lemma nth_error_stitched_after
      (T : Type) (tmul tadd : T -> T -> T) (zero one : T)
      (linspace : T -> T -> nat -> list T) (n : nat) (ws : list (list T)) :
  forall wp k p w,
    nth_error (wp :: ws) k = Some p ->
    nth_error ws k = Some w ->
    nth_error (stitched_after tmul tadd zero one linspace n wp ws) k
    = Some (stitched_chunk tmul tadd zero one linspace n p w).
Proof.
  induction ws as [| w0 ws IH]; intros wp k p w Hp Hw; [destruct k; discriminate |].
  destruct k as [| k].
  - cbn in *. congruence.
  - cbn [nth_error stitched_after] in *. now apply IH.
Qed.

(** C3 (amended).  For a completed streaming run with a positive overlap,
    whose first decode has at least [overlap_wav_len] samples and whose
    decoded lengths never shrink, the chunks yielded are the stitched chunks
    of the successive decodes: the first chunk is the first decode without
    its last [overlap_wav_len] samples; each later chunk starts with the
    sample-wise linear blend of the last [overlap_wav_len] samples of the
    previous decode (fade from 1 to 0) with the samples of the current decode
    at the same positions, as far as these lie before the last
    [overlap_wav_len] samples of the current decode (fade from 0 to 1; the
    blend is as long as the shorter of the two), and goes on with the samples
    of the current decode from the end of the previous one up to its own last
    [overlap_wav_len] samples.  The non-overlap regions are thus regions of
    the decode of the latents accumulated when the chunk was emitted; the
    last of these decodes is the non-streaming decode of all the latents.  If
    every decode of the run is a prefix of the decode of all the latents,
    every region of a decode is the same region of that one decode. *)
Theorem inference_stream_stitches_decodes
    (T : Type) (tmul tadd : T -> T -> T) (zero one : T)
    (linspace : T -> T -> nat -> list T)
    (Lat Code : Type) (hifigan_decoder : list Lat -> list T)
    (stream_chunk_size overlap_wav_len : Z) (generator : list (Code * list Lat))
    (chunks : list (list T)) :
  (forall a b n, List.length (linspace a b n) = n) ->
  (0 < overlap_wav_len)%Z ->
  inference_stream tmul tadd zero one linspace hifigan_decoder
                   stream_chunk_size overlap_wav_len generator = (chunks, Done) ->
  let decodes := stream_decodes hifigan_decoder stream_chunk_size generator in
  let n := Z.to_nat overlap_wav_len in
  (overlap_wav_len <= len (hd [] decodes))%Z ->
  lengths_nondecreasing decodes = true ->
  chunks = stitched_chunks tmul tadd zero one linspace n decodes /\
  concat chunks = stitched tmul tadd zero one linspace n decodes /\
  nth_error chunks 0
  = option_map (fun w => region w 0 (List.length w - n)) (nth_error decodes 0) /\
  (forall k prev w,
      nth_error decodes k = Some prev -> nth_error decodes (S k) = Some w ->
      let lp := List.length prev in
      let l := List.length w in
      nth_error chunks (S k)
      = Some (blend tmul tadd zero one linspace n
                    (region prev (lp - n) lp)
                    (region w (lp - n) (Nat.min lp (l - n)))
              ++ region w lp (l - n))) /\
  last decodes [] = full_decode hifigan_decoder generator /\
  ((forall w, In w decodes ->
              w = firstn (List.length w) (full_decode hifigan_decoder generator)) ->
   forall w a b, In w decodes -> b <= List.length w ->
                 region w a b = region (full_decode hifigan_decoder generator) a b).
Proof.
  intros Hlin Hn H decodes n Hfirst Hmono.
  pose proof (inference_stream_chunks T tmul tadd zero one linspace Hlin Lat Code
                hifigan_decoder stream_chunk_size overlap_wav_len generator chunks
                Hn H Hfirst Hmono) as Hchunks.
  fold decodes n in Hchunks.
  split; [exact Hchunks |]. split; [now rewrite Hchunks |].
  split; [| split; [| split]].
  4: { intros Hstable w a b Hin Hb. rewrite (Hstable w Hin) at 1.
       now apply region_firstn. }
  - rewrite Hchunks. destruct decodes; reflexivity.
  - intros k prev w Hp Hw lp l. rewrite Hchunks.
    destruct decodes as [| w0 ws]; [destruct k; discriminate |].
    cbn [stitched_chunks nth_error] in *.
    now apply nth_error_stitched_after.
  - unfold decodes, stream_decodes, full_decode.
    set (f := fun all_latents : list (list Lat) => hifigan_decoder (concat all_latents)).
    pose proof (stream_flushes_last Lat Code stream_chunk_size generator [] []) as Hlast.
    pose proof (stream_flushes_nonempty Lat Code stream_chunk_size generator [] []) as Hne.
    destruct (stream_flushes stream_chunk_size generator [] []) as [| a fs];
      [contradiction |].
    clear Hne. revert a Hlast. induction fs as [| b fs IH]; intros a Hlast.
    + cbn in *. now rewrite Hlast.
    + change (last (map f (a :: b :: fs)) []) with (last (map f (b :: fs)) []).
      apply IH. exact Hlast.
Qed.

Lemma inference_stream_stitches_decodes_witness :
  let generator := Demo.generator_of [10; 20; 30; 40; 50]%Z in
  let run := Demo.inference_streamQ Demo.context_decoder 2 2 generator in
  snd run = Done /\
  fst run = stitched_chunks QArith_base.Qmult QArith_base.Qplus (Demo.q 0) (Demo.q 1)
                            Demo.linspaceQ 2
                            (stream_decodes Demo.context_decoder 2 generator).
Proof.
  cbv zeta. split; [reflexivity |].
  refine (proj1 (inference_stream_stitches_decodes
                   QArith_base.Q QArith_base.Qmult QArith_base.Qplus (Demo.q 0) (Demo.q 1)
                   Demo.linspaceQ Z Z Demo.context_decoder 2 2
                   (Demo.generator_of [10; 20; 30; 40; 50]%Z) _
                   linspaceQ_length _ _ _ _)).
  - lia.
  - vm_compute. reflexivity.
  - vm_compute. discriminate.
  - vm_compute. reflexivity.
Defined.

(** C3 as stated fails: with a decoder whose samples depend on how many
    latents are decoded together, the first sample of the stream, which lies
    in no overlap, is not the first sample of the decode of all the
    latents. *)
Lemma inference_stream_differs_from_full_decode :
  let generator := Demo.generator_of [10; 20; 30; 40; 50]%Z in
  let run := Demo.inference_streamQ Demo.context_decoder 2 2 generator in
  snd run = Done /\
  exists a b,
    nth_error (concat (fst run)) 0 = Some a /\
    nth_error (full_decode Demo.context_decoder generator) 0 = Some b /\
    ~ QArith_base.Qeq a b.
Proof.
  cbv zeta. split; [reflexivity |].
  exists (Demo.q 12), (Demo.q 15). repeat split. vm_compute. discriminate.
Qed.




Lemma get_compatible_checkpoint_state_dict_remaps_witness :
  exists d',
    get_compatible_checkpoint_state_dict
      [("xtts.gpt.w", 1); ("xtts.dvae.x", 2); ("hifigan.b", 3);
       ("torch_mel_spectrogram_dvae.m", 4)]%string
    = Ok d' /\
    dict_get d' "gpt.w"%string = Some 1 /\
    dict_get d' "dvae.x"%string = None /\
    dict_get d' "hifigan.b"%string = Some 3 /\
    dict_get d' "torch_mel_spectrogram_dvae.m"%string = None.
Proof.
  set (d := [("xtts.gpt.w", 1); ("xtts.dvae.x", 2); ("hifigan.b", 3);
             ("torch_mel_spectrogram_dvae.m", 4)]%string).
  assert (Hp : prefix_only d).
  { intros k Hin Hs. cbn in Hin.
    repeat (destruct Hin as [<- | Hin]; [first [reflexivity | discriminate Hs] |]).
    contradiction. }
  assert (Hc : no_collision d).
  { unfold no_collision. cbn. repeat constructor; cbn; intuition discriminate. }
  destruct (get_compatible_checkpoint_state_dict_remaps nat d Hp Hc)
    as (d' & Hrun & _ & Hfwd & _).
  exists d'. split; [exact Hrun |].
  split; [exact (Hfwd "xtts.gpt.w"%string 1 eq_refl) |].
  split; [exact (Hfwd "xtts.dvae.x"%string 2 eq_refl) |].
  split; [exact (Hfwd "hifigan.b"%string 3 eq_refl) |].
  exact (Hfwd "torch_mel_spectrogram_dvae.m"%string 4 eq_refl).
Defined.

(** C7 as stated fails: [replace] removes every occurrence of ["xtts."], not
    only the prefix; a renamed key overwrites a key of the same name; and a
    key that was renamed to an ignored name and deleted is deleted again when
    the checkpoint holds it under that name too, which raises. *)
Lemma get_compatible_checkpoint_state_dict_not_as_claimed :
  let inner := [("xtts.a.xtts.b", 1)]%string in
  let collision := [("a.w", 1); ("xtts.a.w", 2)]%string in
  let twice := [("xtts.dvae.x", 1); ("dvae.x", 2)]%string in
  (get_compatible_checkpoint_state_dict inner = Ok [("a.b"%string, 1)] /\
   ~ remap_as_claimed inner (get_compatible_checkpoint_state_dict inner)) /\
  (get_compatible_checkpoint_state_dict collision = Ok [("a.w"%string, 2)] /\
   ~ remap_as_claimed collision (get_compatible_checkpoint_state_dict collision)) /\
  (get_compatible_checkpoint_state_dict twice = Err (KeyError "dvae.x") /\
   ~ remap_as_claimed twice (get_compatible_checkpoint_state_dict twice)).
Proof.
  cbv zeta. repeat split.
  - intros (d' & E & H). vm_compute in E. injection E as <-.
    specialize (H "xtts.a.xtts.b"%string 1 eq_refl). vm_compute in H. discriminate H.
  - intros (d' & E & H). vm_compute in E. injection E as <-.
    specialize (H "a.w"%string 1 eq_refl). vm_compute in H. discriminate H.
  - intros (d' & E & H). vm_compute in E. discriminate E.
Qed.


(* ===================================================================== *)
(** * Further properties of the code *)
(* ===================================================================== *)

(** ** The silence loop, for arbitrary codes *)

(** Scanning through a prefix either breaks or goes on with some counter. *)
Lemma silence_scan_through (a rest : list Z) :
  forall k ct,
    ct <= 8 ->
    (exists j, silence_scan (a ++ rest) k ct = Some j) \/
    (exists ct', ct' <= 8 /\
                 silence_scan (a ++ rest) k ct = silence_scan rest (k + List.length a) ct').
Proof.
  induction a as [| c a IH]; intros k ct Hct.
  - right. exists ct. split; [exact Hct |]. cbn [app List.length]. now rewrite Nat.add_0_r.
  - cbn [app silence_scan List.length].
    set (ct1 := if (c =? silence_token)%Z then S ct else 0).
    destruct (Nat.ltb_spec 8 ct1) as [Hlt | Hle].
    + left. now exists k.
    + destruct (IH (S k) ct1 Hle) as [Hsome | (ct' & Hct' & Heq)].
      * now left.
      * right. exists ct'. split; [exact Hct' |]. rewrite Heq. f_equal. lia.
Qed.

Lemma silence_scan_none_iff (codes : list Z) (k : nat) :
  silence_scan codes k 0 = None <-> no_long_run codes.
Proof.
  split.
  - intros Hnone a b ->.
    destruct (silence_scan_through a (repeat silence_token 9 ++ b) k 0 ltac:(lia))
      as [[j Hj] | (ct' & Hct' & Heq)].
    + congruence.
    + rewrite Heq, (silence_scan_hit 9 b _ ct') in Hnone by lia. discriminate.
  - intros H. apply silence_scan_none. exact H.
Qed.

Lemma no_long_run_short (l : list Z) : List.length l < 9 -> no_long_run l.
Proof.
  intros H a b E. apply (f_equal (@List.length Z)) in E.
  rewrite !length_app, repeat_length in E. lia.
Qed.

(** Where the loop breaks, a run of nine ends, and none ended before. *)
Lemma silence_scan_some (codes : list Z) :
  forall k ct j,
    ct <= 8 ->
    silence_scan codes k ct = Some j ->
    exists pre post,
      repeat silence_token ct ++ codes = pre ++ repeat silence_token 9 ++ post /\
      j + ct = k + List.length pre + 8 /\
      no_long_run (pre ++ repeat silence_token 8).
Proof.
  induction codes as [| c rest IH]; intros k ct j Hct H; [discriminate H |].
  cbn [silence_scan] in H.
  destruct (Z.eqb_spec c silence_token) as [-> | Hc].
  - destruct (Nat.ltb_spec 8 (S ct)) as [Hlt | Hle].
    + injection H as <-. exists [], rest.
      assert (ct = 8) as -> by lia.
      split; [now rewrite <- repeat_snoc_app |].
      split; [cbn; lia |].
      apply no_long_run_short. cbn. lia.
    + destruct (IH (S k) (S ct) j Hle H) as (pre & post & E & Hj & Hrun).
      exists pre, post. split; [now rewrite <- repeat_snoc_app |].
      split; [lia | exact Hrun].
  - cbn in H.
    destruct (IH (S k) 0 j ltac:(lia) H) as (pre & post & E & Hj & Hrun).
    change (repeat silence_token 0 ++ rest) with rest in E.
    exists (repeat silence_token ct ++ c :: pre), post.
    split; [rewrite E, <- app_assoc; reflexivity |].
    split; [rewrite length_app, repeat_length; cbn [List.length]; lia |].
    apply (silence_scan_none_iff _ 0).
    rewrite <- app_assoc. cbn [app].
    rewrite (silence_scan_skip (repeat silence_token ct) c _ 0 0 Hc).
    + apply silence_scan_none_iff. exact Hrun.
    + apply (no_long_run_short (repeat silence_token ct)). rewrite repeat_length. lia.
Qed.

(** X1.  The silence loop of [inference] runs to the end exactly when the
    codes hold no nine consecutive silence codes.  When it breaks at [k], a
    run of nine silence codes starts 8 positions before [k] and no run of
    nine ends before [k]: the break is at the ninth code of the first such
    run.  The latents returned are always a prefix of the latents of the
    teacher-forced pass. *)
Theorem silence_scan_characterised (codes : list Z) :
  (silence_scan codes 0 0 = None <-> no_long_run codes) /\
  (forall k, silence_scan codes 0 0 = Some k ->
             exists pre post,
               codes = pre ++ repeat silence_token 9 ++ post /\
               k = List.length pre + 8 /\
               k < List.length codes /\
               no_long_run (pre ++ repeat silence_token 8)) /\
  (forall (Lat : Type) (latents : list Lat),
      exists m, silence_truncate codes latents = firstn m latents /\
                (no_long_run codes -> m = List.length latents)).
Proof.
  split; [apply silence_scan_none_iff |]. split.
  - intros k H.
    destruct (silence_scan_some codes 0 0 k ltac:(lia) H) as (pre & post & E & Hk & Hrun).
    change (repeat silence_token 0 ++ codes) with codes in E. exists pre, post.
    split; [exact E |]. split; [lia |]. split; [| exact Hrun].
    rewrite E, !length_app, repeat_length. lia.
  - intros Lat latents. unfold silence_truncate.
    destruct (silence_scan codes 0 0) as [k |] eqn:E.
    + exists k. split.
      * rewrite py_slice_prefix by lia. now rewrite Nat2Z.id.
      * intros Hrun. apply (silence_scan_none_iff codes 0) in Hrun. congruence.
    + exists (List.length latents). split; [now rewrite firstn_all | reflexivity].
Qed.


(** ** pad_or_truncate, beyond a target length that is a length *)

Lemma firstn_repeat {A} (x : A) (k m : nat) :
  firstn k (repeat x m) = repeat x (Nat.min k m).
Proof.
  revert m. induction k as [| k IH]; intros [| m]; cbn; try reflexivity.
  now rewrite IH.
Qed.

(** For [L >= 0] the result is the first [L] elements of the tensor followed
    by [L] zeros. *)
Lemma pad_or_truncate_closed_form {T} (zero : T) (t : list T) (L : Z) :
  (0 <= L)%Z ->
  pad_or_truncate zero t L = firstn (Z.to_nat L) (t ++ repeat zero (Z.to_nat L)).
Proof.
  intros HL.
  destruct (pad_or_truncate_cases T zero t L HL) as (_ & Heq & Hlt & Hgt).
  rewrite firstn_app, firstn_repeat.
  destruct (Z.lt_trichotomy (len t) L) as [H | [H | H]].
  - rewrite (Hlt H). unfold len in H.
    rewrite firstn_all2 by lia. f_equal. f_equal. lia.
  - rewrite (Heq H). unfold len in H.
    rewrite firstn_all2 by lia.
    replace (Z.to_nat L - List.length t) with 0 by lia.
    cbn. now rewrite app_nil_r.
  - rewrite (Hgt H). unfold len in H.
    replace (Z.to_nat L - List.length t) with 0 by lia.
    cbn. now rewrite app_nil_r.
Qed.

(** X2.  With a negative target length [pad_or_truncate] neither pads nor
    returns the target length: it returns [t[:length]], the tensor without
    its last [-length] elements (nothing when there are fewer). *)
Theorem pad_or_truncate_negative_length (T : Type) (zero : T) (t : list T) (L : Z) :
  (L < 0)%Z ->
  pad_or_truncate zero t L = firstn (List.length t - Z.to_nat (- L)) t /\
  len (pad_or_truncate zero t L) = Z.max 0 (len t + L).
Proof.
  intros HL.
  assert (E : pad_or_truncate zero t L = firstn (List.length t - Z.to_nat (- L)) t).
  { unfold pad_or_truncate. pose proof (len_nonneg t) as Ht.
    destruct (Z.eqb_spec (len t) L) as [E | _]; [lia |].
    destruct (Z.ltb_spec (len t) L) as [E | _]; [lia |].
    unfold py_slice, py_lo, py_hi, py_bound.
    destruct (Z.ltb_spec L 0) as [_ | E]; [| lia].
    cbn [skipn Z.to_nat]. rewrite Z.sub_0_r. f_equal. unfold len. lia. }
  split; [exact E |].
  rewrite E. unfold len. rewrite length_firstn. lia.
Qed.

Lemma pad_or_truncate_negative_length_witness :
  pad_or_truncate 0%Z [1; 2; 3]%Z (-1) = [1; 2]%Z /\
  len (pad_or_truncate 0%Z [1; 2; 3]%Z (-1)) = 2%Z.
Proof. exact (pad_or_truncate_negative_length Z 0%Z [1; 2; 3]%Z (-1) eq_refl). Defined.

(** X3.  For target lengths [0 <= L2 <= L1], bringing a tensor to length
    [L1] and then to length [L2] is bringing it to length [L2] directly; in
    particular [pad_or_truncate] is idempotent.  The result is the first [L]
    elements of the tensor followed by [L] zeros. *)
Theorem pad_or_truncate_composes (T : Type) (zero : T) (t : list T) (L1 L2 : Z) :
  (0 <= L2 <= L1)%Z ->
  pad_or_truncate zero (pad_or_truncate zero t L1) L2 = pad_or_truncate zero t L2 /\
  pad_or_truncate zero (pad_or_truncate zero t L1) L1 = pad_or_truncate zero t L1 /\
  pad_or_truncate zero t L1 = firstn (Z.to_nat L1) (t ++ repeat zero (Z.to_nat L1)).
Proof.
  intros H.
  assert (Hcomp : forall L, (0 <= L <= L1)%Z ->
            pad_or_truncate zero (pad_or_truncate zero t L1) L = pad_or_truncate zero t L).
  { intros L HL.
    rewrite (pad_or_truncate_closed_form zero (pad_or_truncate zero t L1) L) by lia.
    rewrite (pad_or_truncate_closed_form zero t L) by lia.
    destruct (pad_or_truncate_cases T zero t L1 ltac:(lia)) as (Hlen & _).
    rewrite firstn_app. unfold len in Hlen.
    replace (Z.to_nat L - List.length (pad_or_truncate zero t L1)) with 0 by lia.
    cbn [firstn]. rewrite app_nil_r.
    rewrite (pad_or_truncate_closed_form zero t L1) by lia.
    rewrite firstn_firstn, Nat.min_l by lia.
    rewrite !firstn_app, !firstn_repeat. f_equal. f_equal. lia. }
  split; [apply Hcomp; lia |]. split; [apply Hcomp; lia |].
  apply pad_or_truncate_closed_form. lia.
Qed.

Lemma pad_or_truncate_composes_witness :
  pad_or_truncate 0%Z (pad_or_truncate 0%Z [1; 2; 3]%Z 5) 4 = [1; 2; 3; 0]%Z.
Proof.
  pose proof (pad_or_truncate_composes Z 0%Z [1; 2; 3]%Z 5 4 ltac:(lia)) as (H & _).
  rewrite H. reflexivity.
Defined.


(** ** do_spectrogram_diffusion *)

(** X4.  [do_spectrogram_diffusion] calls [timestep_independent] and then
    [sample_loop], both with the output length
    [latents.shape[1] * 4 * 24000 // 22050], and returns at most that many
    mel frames: exactly that many when the sampler gives at least as many. *)
Theorem do_spectrogram_diffusion_length
    (Lat Spk Wav Cond Sampling Mel Num : Type)
    (self : Components Lat Spk Wav Cond Sampling Mel Num)
    (latents : list Lat) (cond : Cond) (temperature : Num) (log : list call) :
  let output_seq_len := (len latents * 4 * 24000 / 22050)%Z in
  let sampled :=
    denormalize_tacotron_mel self
      (sample_loop self output_seq_len temperature
                   (timestep_independent self latents cond output_seq_len)) in
  exists mel,
    do_spectrogram_diffusion self latents cond temperature log
    = (Ok mel, log ++ [CallDiffusionTimestepIndependent; CallDiffusionSampleLoop]) /\
    mel = firstn (Z.to_nat output_seq_len) sampled /\
    (len mel <= output_seq_len)%Z /\
    ((output_seq_len <= len sampled)%Z -> len mel = output_seq_len) /\
    (len latents <= output_seq_len)%Z.
Proof.
  intros output_seq_len sampled.
  assert (Hpos : (0 <= output_seq_len)%Z).
  { unfold output_seq_len. apply Z.div_pos; [| lia]. pose proof (len_nonneg latents). lia. }
  exists (firstn (Z.to_nat output_seq_len) sampled).
  split; [| split; [reflexivity | split; [| split]]].
  - unfold do_spectrogram_diffusion, bind, invoke, ret. cbn.
    fold output_seq_len. fold sampled.
    rewrite py_slice_prefix by exact Hpos. now rewrite <- app_assoc.
  - unfold len. rewrite length_firstn. lia.
  - intros H. unfold len in *. rewrite length_firstn. lia.
  - unfold output_seq_len. pose proof (len_nonneg latents) as Hl.
    apply Z.div_le_lower_bound; lia.
Qed.

(** ** get_conditioning_latents: what it returns and where it stops *)

Lemma last_cons_default {A} (l : list A) :
  forall x d, last (x :: l) d = last l x.
Proof.
  induction l as [| y l IH]; intros x d; [reflexivity |].
  change (last (x :: y :: l) d) with (last (y :: l) d).
  now rewrite (IH y d), (IH y x).
Qed.

Section ConditioningRuns.
Variables Audio Spk Cond : Type.
Variable self : CondComponents Audio Spk Cond.

Lemma load_references_run (audio_paths : list string) :
  forall (clips : list (Audio * Z)) speaker_embeddings audios sr log,
    Forall2 (fun p clip => torchaudio_load self p = Ok clip) audio_paths clips ->
    load_references self audio_paths speaker_embeddings audios sr log
    = (Ok (speaker_embeddings ++ map (clip_embedding self) clips,
           audios ++ map (clip_audio self) clips,
           last (map (fun clip => Some (snd clip)) clips) sr),
       log ++ reference_calls audio_paths).
Proof.
  induction audio_paths as [| p rest IH]; intros clips ses auds sr log Hall.
  - inversion Hall; subst. cbn. now rewrite !app_nil_r.
  - inversion Hall as [| ? [audio sr'] ? clips' Hp Hrest]; subst.
    cbn [load_references]. unfold bind, invoke_result, invoke. rewrite Hp.
    rewrite (IH clips' _ _ _ _ Hrest).
    unfold reference_calls. cbn [flat_map map app].
    rewrite <- !app_assoc. cbn [app].
    unfold clip_embedding, clip_audio. cbn [fst snd].
    now rewrite last_cons_default.
Qed.

Lemma load_references_stop (before : list string) :
  forall (clips : list (Audio * Z)) (p : string) (after : list string) (e : exn)
         speaker_embeddings audios sr log,
    Forall2 (fun q clip => torchaudio_load self q = Ok clip) before clips ->
    torchaudio_load self p = Err e ->
    load_references self (before ++ p :: after) speaker_embeddings audios sr log
    = (Err e, log ++ reference_calls before ++ [CallTorchaudioLoad p]).
Proof.
  induction before as [| q rest IH]; intros clips p after e ses auds sr log Hall Hp.
  - cbn [app load_references]. unfold bind, invoke_result. now rewrite Hp.
  - inversion Hall as [| ? [audio sr'] ? clips' Hq Hrest]; subst.
    cbn [app load_references]. unfold bind, invoke_result, invoke. rewrite Hq.
    rewrite (IH clips' p after e _ _ _ _ Hrest Hp).
    unfold reference_calls. cbn [flat_map app]. rewrite <- !app_assoc. reflexivity.
Qed.
End ConditioningRuns.

(** X5.  Without any audio source (an empty list, or an empty string, which
    [list()] turns into one) [get_conditioning_latents] raises at
    [torch.cat]: nothing is loaded and no latent is computed. *)
Theorem get_conditioning_latents_no_source
    (Audio Spk Cond : Type) (self : CondComponents Audio Spk Cond)
    (audio_path : audio_path_arg) (gpt_cond_len : Z) (log : list call) :
  audio_paths_of audio_path = [] ->
  get_conditioning_latents self audio_path gpt_cond_len log = (Err RuntimeError, log).
Proof.
  intros H. unfold get_conditioning_latents. rewrite H. reflexivity.
Qed.

Lemma get_conditioning_latents_no_source_witness :
  get_conditioning_latents Demo.cond_components (PathStr EmptyString) 6 []
  = (Err RuntimeError, []) /\
  get_conditioning_latents Demo.cond_components (PathList []) 6 []
  = (Err RuntimeError, []).
Proof.
  split.
  - exact (get_conditioning_latents_no_source _ _ _ Demo.cond_components
             (PathStr EmptyString) 6 [] eq_refl).
  - exact (get_conditioning_latents_no_source _ _ _ Demo.cond_components
             (PathList []) 6 [] eq_refl).
Defined.

(** X6.  When a reference file fails to load, [get_conditioning_latents]
    raises that exception at once: the files before it were loaded and
    embedded, the files after it are never opened, and the conditioning
    latents are not computed. *)
Theorem get_conditioning_latents_load_failure
    (Audio Spk Cond : Type) (self : CondComponents Audio Spk Cond)
    (audio_path : audio_path_arg) (gpt_cond_len : Z) (log : list call)
    (before : list string) (clips : list (Audio * Z)) (p : string)
    (after : list string) (e : exn) :
  audio_paths_of audio_path = before ++ p :: after ->
  Forall2 (fun q clip => torchaudio_load self q = Ok clip) before clips ->
  torchaudio_load self p = Err e ->
  let run := get_conditioning_latents self audio_path gpt_cond_len log in
  run = (Err e, log ++ reference_calls before ++ [CallTorchaudioLoad p]) /\
  loaded_files (snd run) = loaded_files log ++ before ++ [p] /\
  count_call CallGetGptCondLatents (snd run) = count_call CallGetGptCondLatents log.
Proof.
  intros Hpaths Hall Hp run.
  assert (Hrun : run = (Err e, log ++ reference_calls before ++ [CallTorchaudioLoad p])).
  { unfold run, get_conditioning_latents, bind. rewrite Hpaths.
    now rewrite (load_references_stop Audio Spk Cond self before clips p after e
                   [] [] None log Hall Hp). }
  split; [exact Hrun |]. rewrite Hrun. cbn [snd].
  assert (Hfiles : forall l, loaded_files (reference_calls l) = l).
  { induction l as [| x l IH]; [reflexivity |].
    change (reference_calls (x :: l))
      with ([CallTorchaudioLoad x; CallGetSpeakerEmbedding] ++ reference_calls l).
    rewrite loaded_files_app, IH. reflexivity. }
  assert (Hcount : forall l, count_call CallGetGptCondLatents (reference_calls l) = 0).
  { induction l as [| x l IH]; [reflexivity |].
    change (reference_calls (x :: l))
      with ([CallTorchaudioLoad x; CallGetSpeakerEmbedding] ++ reference_calls l).
    rewrite count_call_app, IH. reflexivity. }
  split.
  - rewrite !loaded_files_app, Hfiles. reflexivity.
  - rewrite !count_call_app, Hcount. cbn. lia.
Qed.

Lemma get_conditioning_latents_load_failure_witness :
  loaded_files
    (snd (get_conditioning_latents Runs.picky_components
            (PathList ["a.wav"; "bad.wav"; "c.wav"]%string) 6 []))
  = ["a.wav"; "bad.wav"]%string.
Proof.
  refine (proj1 (proj2 (get_conditioning_latents_load_failure
            string (list string) (list string) Runs.picky_components
            (PathList ["a.wav"; "bad.wav"; "c.wav"]%string) 6 []
            ["a.wav"%string] [("a.wav"%string, 22050%Z)] "bad.wav"%string
            ["c.wav"%string] RuntimeError eq_refl _ eq_refl))).
  repeat constructor.
Defined.

(** X7.  When every reference file loads (and there is one),
    [get_conditioning_latents] returns the GPT conditioning latents of the
    concatenation of the prepared clips, in the order given, computed with
    the sample rate of the last file, together with the mean of the per-clip
    speaker embeddings; each file is loaded and embedded once, in order, and
    the latents are computed once, at the end. *)
Theorem get_conditioning_latents_result
    (Audio Spk Cond : Type) (self : CondComponents Audio Spk Cond)
    (audio_path : audio_path_arg) (gpt_cond_len : Z) (log : list call)
    (clips : list (Audio * Z)) (last_clip : Audio * Z) :
  Forall2 (fun p clip => torchaudio_load self p = Ok clip)
          (audio_paths_of audio_path) (clips ++ [last_clip]) ->
  get_conditioning_latents self audio_path gpt_cond_len log
  = (Ok (get_gpt_cond_latents self
           (torch_cat_audio self (map (clip_audio self) (clips ++ [last_clip])))
           (snd last_clip) gpt_cond_len,
         Some (stack_mean self (map (clip_embedding self) (clips ++ [last_clip])))),
     log ++ reference_calls (audio_paths_of audio_path) ++ [CallGetGptCondLatents]).
Proof.
  intros Hall. unfold get_conditioning_latents, bind.
  rewrite (load_references_run Audio Spk Cond self _ _ [] [] None log Hall).
  cbn [app].
  assert (Hl : last (map (fun clip : Audio * Z => Some (snd clip)) (clips ++ [last_clip]))
                    None = Some (snd last_clip))
    by (rewrite map_app; cbn [map]; apply last_last).
  rewrite Hl.
  destruct (map (clip_audio self) (clips ++ [last_clip])) as [| a l] eqn:E.
  { apply (f_equal (@List.length Audio)) in E.
    rewrite length_map, length_app in E. cbn in E. lia. }
  unfold invoke, ret. cbn [map snd]. now rewrite <- app_assoc.
Qed.

Lemma get_conditioning_latents_result_witness :
  fst (get_conditioning_latents Demo.cond_components
         (PathList ["a.wav"; "b.wav"]%string) 6 [])
  = Ok (["a.wav+b.wav"%string], Some ["a.wav"; "b.wav"]%string).
Proof.
  pose proof (get_conditioning_latents_result string (list string) (list string)
                Demo.cond_components (PathList ["a.wav"; "b.wav"]%string) 6 []
                [("a.wav"%string, 22050%Z)] ("b.wav"%string, 22050%Z)) as H.
  rewrite H; [reflexivity |]. repeat constructor.
Defined.


(** ** full_inference and inference_with_config *)

(** X8.  [full_inference] computes the conditioning first.  When that
    raises (no source, a file that fails to load), the exception is the one
    of [full_inference], and neither the tokenizer nor the GPT has been
    called.  When it returns, [full_inference] is [inference] on its latents
    and embedding; an over-length text therefore raises [AssertionError] only
    after every reference file was loaded and embedded. *)
Theorem full_inference_conditions_first
    (Audio Spk Cond Lat Wav Sampling Mel Num : Type)
    (self_cond : CondComponents Audio Spk Cond)
    (self : Components Lat (option Spk) Wav Cond Sampling Mel Num) (args : XttsArgs)
    (text : string) (ref_audio_path : audio_path_arg) (language : string)
    (gpt_cond_len : Z) (sampling : Sampling) (dargs : DecoderArgs Num)
    (log : list call) :
  let conditioning := get_conditioning_latents self_cond ref_audio_path gpt_cond_len log in
  let run := full_inference self_cond self args text ref_audio_path language
                            gpt_cond_len sampling dargs log in
  (forall e log', conditioning = (Err e, log') -> run = (Err e, log')) /\
  (forall c s log',
      conditioning = (Ok (c, s), log') ->
      run = inference self args text language c s sampling dargs log' /\
      ((gpt_max_text_tokens args <= len (tokens_of self text language))%Z ->
       run = (Err AssertionError, log' ++ [CallTokenizerEncode])) /\
      ((len (tokens_of self text language) < gpt_max_text_tokens args)%Z ->
       run = (Ok (output_of self args text language c s sampling),
              log' ++ [CallTokenizerEncode; CallGptGenerate; CallGptForward;
                       CallHifiganDecoder]))).
Proof.
  intros conditioning run. unfold run, full_inference, bind. fold conditioning.
  split.
  - intros e log' ->. reflexivity.
  - intros c s log' ->. split; [reflexivity |].
    rewrite inference_unfold.
    destruct (Z.ltb_spec (len (tokens_of self text language)) (gpt_max_text_tokens args)).
    + split; intros; [lia | reflexivity].
    + split; intros; [reflexivity | lia].
Qed.

Lemma dict_get_update {V} (kwargs : dict V) :
  forall (d : dict V) (key : string),
    NoDup (dict_keys kwargs) ->
    dict_get (dict_update d kwargs) key
    = match dict_get kwargs key with
      | Some v => Some v
      | None => dict_get d key
      end.
Proof.
  induction kwargs as [| [k v] kwargs IH]; intros d key Hnd; [reflexivity |].
  inversion Hnd as [| ? ? Hnotin Hnd']; subst.
  cbn [dict_update fold_left fst snd dict_get].
  change (fold_left (fun d0 kv => dict_set d0 (fst kv) (snd kv)) kwargs (dict_set d k v))
    with (dict_update (dict_set d k v) kwargs).
  rewrite (IH _ _ Hnd'), dict_get_set.
  destruct (String.eqb_spec k key) as [<- | _]; [| reflexivity].
  now rewrite (dict_get_none _ kwargs k Hnotin).
Qed.

Lemma dict_get_of_keys {V} (f : string -> V) (keys : list string) (key : string) :
  dict_get (map (fun k => (k, f k)) keys) key
  = if existsb (String.eqb key) keys then Some (f key) else None.
Proof.
  induction keys as [| k keys IH]; [reflexivity |].
  cbn [map dict_get existsb]. rewrite (String.eqb_sym key k).
  destruct (String.eqb_spec k key) as [-> | _]; [reflexivity | exact IH].
Qed.

(** X9.  [inference_with_config] raises [AssertionError] for a language
    that the config does not list, before anything else is done.  For a
    listed language it calls [full_inference] with settings in which every
    keyword argument given overrides the value of the config, the twelve
    preset keys not given keep the value of the config, and no other key is
    set. *)
Theorem inference_with_config_settings
    (V S A : Type) (languages : list string) (config : string -> V)
    (language : string) (kwargs : dict V)
    (full_inference_with : dict V -> M S A) (s : S) :
  NoDup (dict_keys kwargs) ->
  let run := inference_with_config languages config language kwargs
                                   full_inference_with s in
  let settings := dict_update (config_settings config) kwargs in
  (~ In language languages -> run = (Err AssertionError, s)) /\
  (In language languages -> run = full_inference_with settings s) /\
  (forall key,
      dict_get settings key
      = match dict_get kwargs key with
        | Some v => Some v
        | None => if existsb (String.eqb key) preset_keys
                  then Some (config key) else None
        end).
Proof.
  intros Hnd run settings. unfold run, inference_with_config. fold settings.
  destruct (existsb (String.eqb language) languages) eqn:E.
  - apply existsb_exists in E. destruct E as (x & Hin & Hx).
    apply String.eqb_eq in Hx. subst x.
    split; [intros H; contradiction |]. split; [reflexivity |].
    intros key. unfold settings. rewrite dict_get_update by exact Hnd.
    unfold config_settings. now rewrite dict_get_of_keys.
  - split.
    + reflexivity.
    + split.
      * intros Hin. exfalso.
        assert (existsb (String.eqb language) languages = true); [| congruence].
        apply existsb_exists. exists language. split; [exact Hin | apply String.eqb_refl].
      * intros key. unfold settings. rewrite dict_get_update by exact Hnd.
        unfold config_settings. now rewrite dict_get_of_keys.
Qed.

Lemma inference_with_config_settings_witness :
  let config := fun key : string => String.length key in
  let kwargs := [("temperature"%string, 0); ("speed"%string, 2)] in
  let settings := dict_update (config_settings config) kwargs in
  dict_get settings "temperature"%string = Some 0 /\
  dict_get settings "top_k"%string = Some 5 /\
  dict_get settings "speed"%string = Some 2 /\
  dict_get settings "decoder"%string = None.
Proof.
  cbv zeta.
  assert (Hnd : NoDup (dict_keys [("temperature"%string, 0); ("speed"%string, 2)])).
  { cbn. repeat constructor; cbn; intuition discriminate. }
  pose proof (inference_with_config_settings nat unit unit ["en"%string]
                (fun key : string => String.length key) "en"%string
                [("temperature"%string, 0); ("speed"%string, 2)]
                (fun _ => ret tt) tt Hnd) as (_ & _ & H).
  split; [exact (H "temperature"%string) |].
  split; [exact (H "top_k"%string) |].
  split; [exact (H "speed"%string) | exact (H "decoder"%string)].
Defined.


(** ** handle_chunks: when it returns, and what it writes *)

Lemma py_slice_to_zero {A} (l : list A) (start : option Z) :
  py_slice l start (Some 0%Z) = [].
Proof.
  unfold py_slice, py_hi, py_bound. cbv zeta.
  change (0 <? 0)%Z with false. cbv iota.
  pose proof (py_lo_range (len l) start (len_nonneg l)) as Hlo.
  pose proof (len_nonneg l) as Hl.
  rewrite Z.min_l by exact Hl.
  replace (Z.to_nat (0 - py_lo (len l) start)) with 0 by lia.
  reflexivity.
Qed.

Section HandleChunksRuns.
Variable T : Type.
Variables tmul tadd : T -> T -> T.
Variables zero one : T.
Variable linspace : T -> T -> nat -> list T.
Hypothesis linspace_length : forall a b n, List.length (linspace a b n) = n.

Local Abbreviation hc := (handle_chunks tmul tadd zero one linspace).

Lemma tensor_mul_raises (a b : list T) (e : exn) :
  tensor_mul tmul a b = Err e -> e = RuntimeError.
Proof.
  unfold tensor_mul. destruct (List.length a =? List.length b); [discriminate |].
  destruct a as [| x [| x' a]]; destruct b as [| y [| y' b]]; cbn; congruence.
Qed.

Lemma broadcast_to_raises (n : nat) (src : list T) (e : exn) :
  broadcast_to n src = Err e -> e = RuntimeError.
Proof.
  unfold broadcast_to. destruct (List.length src =? n); [discriminate |].
  destruct src as [| x [| x' src]]; cbn; congruence.
Qed.

Lemma broadcast_to_length (n : nat) (src r : list T) :
  broadcast_to n src = Ok r -> List.length r = n.
Proof.
  intros H. apply broadcast_to_ok in H.
  destruct H as [[Hl ->] | [_ (x & _ & ->)]]; [exact Hl | apply repeat_length].
Qed.

(** Every exception of [handle_chunks] is a [RuntimeError]. *)
Lemma handle_chunks_raises
      (wav_gen : list T) (wav_gen_prev wav_overlap : option (list T))
      (overlap_len : Z) (e : exn) :
  hc wav_gen wav_gen_prev wav_overlap overlap_len = Err e -> e = RuntimeError.
Proof.
  unfold handle_chunks. destruct wav_overlap as [wav_overlap |]; [| discriminate].
  unfold torch_linspace. destruct (overlap_len <? 0)%Z; cbn [rbind]; [congruence |].
  destruct (tensor_mul tmul _ _) as [cf |] eqn:E1; cbn [rbind];
    [| intros H; injection H as <-; exact (tensor_mul_raises _ _ _ E1)].
  destruct (tensor_mul tmul wav_overlap _) as [faded |] eqn:E2; cbn [rbind];
    [| intros H; injection H as <-; exact (tensor_mul_raises _ _ _ E2)].
  destruct (broadcast_to _ faded) as [written |] eqn:E3; cbn [rbind];
    [| intros H; injection H as <-; exact (broadcast_to_raises _ _ _ E3)].
  destruct (broadcast_to _ cf) as [added |] eqn:E4; cbn [rbind];
    [| intros H; injection H as <-; exact (broadcast_to_raises _ _ _ E4)].
  discriminate.
Qed.

Lemma py_slice_length_le {A} (l : list A) (start stop : option Z) :
  List.length (py_slice l start stop)
  <= List.length l - Z.to_nat (py_lo (len l) start).
Proof.
  unfold py_slice. cbv zeta. rewrite length_firstn, length_skipn. apply Nat.le_min_r.
Qed.

(** What a call with a previous overlap writes, whatever the size of that
    overlap. *)
Lemma handle_chunks_writes
      (wav_gen : list T) (wav_gen_prev : option (list T)) (wav_overlap : list T)
      (overlap_len : Z) (c p' ov' : list T) :
  hc wav_gen wav_gen_prev (Some wav_overlap) overlap_len = Ok (c, p', ov') ->
  let start := match wav_gen_prev with
               | None => None
               | Some prev => Some (len prev - overlap_len)%Z
               end in
  let off := Z.to_nat (py_lo (len wav_gen) start) in
  (0 <= overlap_len)%Z /\
  exists new,
    List.length new <= Z.to_nat overlap_len /\
    off + List.length new <= List.length wav_gen /\
    p' = write_at wav_gen off new /\
    c = py_slice p' start (Some (- overlap_len)%Z) /\
    ov' = py_slice p' (Some (- overlap_len)%Z) None.
Proof.
  intros H start off.
  unfold handle_chunks in H. fold start in H.
  set (raw := py_slice wav_gen start (Some (- overlap_len)%Z)) in *.
  unfold torch_linspace in H.
  destruct (Z.ltb_spec overlap_len 0) as [Hneg | Hpos]; [discriminate H |].
  cbn [rbind] in H.
  rewrite (py_slice_prefix raw overlap_len Hpos) in H.
  set (n := Z.to_nat overlap_len) in *.
  remember (firstn n raw) as head eqn:Ehead.
  destruct (tensor_mul tmul head _) as [cf |] eqn:E1; [| discriminate H].
  cbn [rbind] in H.
  destruct (tensor_mul tmul wav_overlap _) as [faded |] eqn:E2; [| discriminate H].
  cbn [rbind] in H.
  destruct (broadcast_to (List.length head) faded) as [written |] eqn:E3;
    [| discriminate H].
  cbn [rbind] in H.
  destruct (broadcast_to (List.length head) cf) as [added |] eqn:E4;
    [| discriminate H].
  cbn [rbind] in H.
  injection H as Hc Hp Ho. fold off in Hc, Hp, Ho.
  apply broadcast_to_length in E3. apply broadcast_to_length in E4.
  assert (Hnew : List.length (zip_with tadd written added) = List.length head).
  { rewrite zip_with_length, E3, E4. apply Nat.min_id. }
  assert (Hhead_n : List.length head <= n).
  { subst head. rewrite length_firstn. apply Nat.le_min_l. }
  assert (Hhead_raw : List.length head <= List.length raw).
  { subst head. rewrite length_firstn. apply Nat.le_min_r. }
  pose proof (py_slice_length_le wav_gen start (Some (- overlap_len)%Z)) as Hraw.
  fold raw off in Hraw.
  pose proof (py_lo_range (len wav_gen) start (len_nonneg wav_gen)) as Hlo.
  assert (Hoff : off <= List.length wav_gen) by (unfold off, len in *; lia).
  split; [exact Hpos |].
  exists (zip_with tadd written added).
  rewrite Hnew.
  split; [exact Hhead_n |]. split; [lia |].
  split; [now symmetry |].
  split; [rewrite <- Hp; now symmetry | rewrite <- Hp; now symmetry].
Qed.

(** The tensor returned as [wav_gen_prev] has the length of [wav_gen]. *)
Lemma handle_chunks_length
      (wav_gen : list T) (wav_gen_prev wav_overlap : option (list T))
      (overlap_len : Z) (c p' ov' : list T) :
  hc wav_gen wav_gen_prev wav_overlap overlap_len = Ok (c, p', ov') ->
  List.length p' = List.length wav_gen.
Proof.
  destruct wav_overlap as [wav_overlap |].
  - intros H. apply handle_chunks_writes in H. cbv zeta in H.
    destruct H as (_ & new & _ & Hoff & -> & _).
    now apply write_at_length.
  - rewrite handle_chunks_none. intros H. now injection H as _ <- _.
Qed.

(** The chunk between two decodes of the same length is empty. *)
Lemma py_slice_same_length_nil (w : list T) (lp overlap_len : Z) :
  lp = len w -> (0 <= overlap_len)%Z ->
  py_slice w (Some (lp - overlap_len)%Z) (Some (- overlap_len)%Z) = [].
Proof.
  intros -> Hn. unfold py_slice, py_lo, py_hi, py_bound. cbv zeta.
  pose proof (len_nonneg w) as Hl.
  assert (Hz : Z.to_nat
                 ((if (- overlap_len <? 0)%Z
                   then Z.max (- overlap_len + len w) 0
                   else Z.min (- overlap_len) (len w))
                  - (if (len w - overlap_len <? 0)%Z
                     then Z.max (len w - overlap_len + len w) 0
                     else Z.min (len w - overlap_len) (len w))) = 0).
  { destruct (Z.ltb_spec (- overlap_len) 0); destruct (Z.ltb_spec (len w - overlap_len) 0).
    - rewrite (Z.max_r (- overlap_len + len w) 0) by lia.
      pose proof (Z.le_max_r (len w - overlap_len + len w) 0). lia.
    - rewrite (Z.max_l (- overlap_len + len w) 0) by lia.
      rewrite (Z.min_l (len w - overlap_len) (len w)) by lia. lia.
    - rewrite (Z.min_l (- overlap_len) (len w)) by lia.
      pose proof (Z.le_max_r (len w - overlap_len + len w) 0). lia.
    - rewrite (Z.min_l (- overlap_len) (len w)) by lia.
      rewrite (Z.min_l (len w - overlap_len) (len w)) by lia. lia. }
  rewrite Hz. reflexivity.
Qed.

(** A decode that is no longer than the previous one cannot be crossfaded
    over two samples or more. *)
Lemma handle_chunks_same_length_raises
      (w prev wav_overlap : list T) (overlap_len : Z) :
  List.length prev = List.length w ->
  (2 <= overlap_len)%Z ->
  hc w (Some prev) (Some wav_overlap) overlap_len = Err RuntimeError.
Proof.
  intros Hprev Hn. unfold handle_chunks.
  rewrite (py_slice_same_length_nil w (len prev) overlap_len)
    by (unfold len; lia).
  unfold torch_linspace.
  replace (overlap_len <? 0)%Z with false by (symmetry; apply Z.ltb_ge; lia).
  cbn [rbind].
  rewrite (@py_slice_prefix T [] overlap_len) by lia.
  rewrite firstn_nil.
  pose proof (linspace_length zero one (Z.to_nat overlap_len)) as Hfi.
  destruct (linspace zero one (Z.to_nat overlap_len)) as [| y [| y' fi]];
    cbn [List.length] in Hfi; try lia.
  reflexivity.
Qed.

(** When it returns: the overlap fits into the chunk (or both are at their
    smallest). *)
Lemma handle_chunks_returns
      (wav_gen : list T) (wav_gen_prev : option (list T)) (wav_overlap : list T)
      (overlap_len : Z) :
  let start := match wav_gen_prev with
               | None => None
               | Some prev => Some (len prev - overlap_len)%Z
               end in
  let raw := py_slice wav_gen start (Some (- overlap_len)%Z) in
  List.length wav_overlap = Z.to_nat overlap_len ->
  (0 <= overlap_len)%Z ->
  Z.to_nat overlap_len <= List.length raw \/ (overlap_len = 1%Z /\ raw = []) ->
  exists r, hc wav_gen wav_gen_prev (Some wav_overlap) overlap_len = Ok r.
Proof.
  intros start raw Hov Hpos Hfit.
  unfold handle_chunks. fold start. fold raw.
  unfold torch_linspace.
  replace (overlap_len <? 0)%Z with false by (symmetry; apply Z.ltb_ge; lia).
  cbn [rbind].
  rewrite (py_slice_prefix raw overlap_len Hpos).
  set (n := Z.to_nat overlap_len) in *.
  pose proof (linspace_length zero one n) as Hfi.
  pose proof (linspace_length one zero n) as Hfo.
  destruct Hfit as [Hfit | [Hn Hraw]].
  - assert (Hhead : List.length (firstn n raw) = n)
      by (rewrite length_firstn; now apply Nat.min_l).
    unfold tensor_mul. rewrite Hhead, Hfi, Hov, Hfo, !Nat.eqb_refl.
    cbn [rbind]. unfold broadcast_to.
    rewrite !zip_with_length, Hhead, Hfi, Hov, Hfo, !Nat.min_id, !Nat.eqb_refl.
    cbn [rbind]. eexists. reflexivity.
  - assert (Hn1 : n = 1) by (unfold n; rewrite Hn; reflexivity).
    rewrite Hraw, firstn_nil. rewrite Hn1 in *.
    destruct (linspace zero one 1) as [| y [| y' fi]]; cbn [List.length] in Hfi; try lia.
    destruct (linspace one zero 1) as [| z [| z' fo]]; cbn [List.length] in Hfo; try lia.
    destruct wav_overlap as [| o [| o' ov]]; cbn [List.length] in Hov; try lia.
    cbn. eexists. reflexivity.
Qed.

(** X10.  With a previous overlap of [overlap_len] samples, [handle_chunks]
    returns exactly when [overlap_len] is not negative and the chunk between
    the two decodes holds at least [overlap_len] samples (or is empty, for an
    overlap of one sample).  It then returns as [wav_gen_prev] a tensor of the
    length of [wav_gen], of which the chunk and the overlap returned are
    slices.  In every other case it raises [RuntimeError]. *)
Theorem handle_chunks_returns_iff
      (wav_gen : list T) (wav_gen_prev : option (list T)) (wav_overlap : list T)
      (overlap_len : Z) :
  List.length wav_overlap = Z.to_nat overlap_len ->
  let start := match wav_gen_prev with
               | None => None
               | Some prev => Some (len prev - overlap_len)%Z
               end in
  let raw := py_slice wav_gen start (Some (- overlap_len)%Z) in
  let fits := (0 <= overlap_len)%Z /\
              (Z.to_nat overlap_len <= List.length raw \/
               (overlap_len = 1%Z /\ raw = [])) in
  let run := hc wav_gen wav_gen_prev (Some wav_overlap) overlap_len in
  (fits ->
   exists c p' ov',
     run = Ok (c, p', ov') /\
     List.length p' = List.length wav_gen /\
     c = py_slice p' start (Some (- overlap_len)%Z) /\
     ov' = py_slice p' (Some (- overlap_len)%Z) None) /\
  (~ fits -> run = Err RuntimeError).
Proof.
  intros Hov start raw fits run. split.
  - intros [Hpos Hfit].
    destruct (handle_chunks_returns wav_gen wav_gen_prev wav_overlap overlap_len Hov Hpos Hfit)
      as [[[c p'] ov'] Hr].
    exists c, p', ov'. split; [exact Hr |].
    split; [exact (handle_chunks_length _ _ _ _ _ _ _ Hr) |].
    apply handle_chunks_writes in Hr. cbv zeta in Hr.
    destruct Hr as (_ & new & _ & _ & _ & Hc & Ho). now split.
  - intros Hnot. unfold run.
    destruct (hc wav_gen wav_gen_prev (Some wav_overlap) overlap_len)
      as [[[c p'] ov'] | e] eqn:Hr.
    + exfalso. apply Hnot.
      apply (handle_chunks_some_inv _ _ _ _ _ _ linspace_length) in Hr; [| exact Hov].
      cbv zeta in Hr. destruct Hr as (Hpos & Hfit & _).
      split; [exact Hpos |].
      destruct Hfit as [Hfit | [Hn Hraw]]; [left; exact Hfit |].
      right. split; [lia | exact Hraw].
    + f_equal. exact (handle_chunks_raises _ _ _ _ _ Hr).
Qed.

(** X11.  [handle_chunks] writes the crossfade into [wav_gen] itself, which
    it returns as [wav_gen_prev]: that tensor has the length of [wav_gen] and
    differs from it at most in the [overlap_len] samples from the start of
    the chunk; without a previous overlap it is [wav_gen] unchanged.  The
    chunk and the overlap returned are slices of it. *)
Theorem handle_chunks_writes_in_place
      (wav_gen : list T) (wav_gen_prev wav_overlap : option (list T))
      (overlap_len : Z) (c p' ov' : list T) :
  hc wav_gen wav_gen_prev wav_overlap overlap_len = Ok (c, p', ov') ->
  let start := match wav_gen_prev with
               | None => None
               | Some prev => Some (len prev - overlap_len)%Z
               end in
  let off := Z.to_nat (py_lo (len wav_gen) start) in
  List.length p' = List.length wav_gen /\
  firstn off p' = firstn off wav_gen /\
  skipn (off + Z.to_nat overlap_len) p' = skipn (off + Z.to_nat overlap_len) wav_gen /\
  (wav_overlap = None -> p' = wav_gen) /\
  c = py_slice p' start (Some (- overlap_len)%Z) /\
  ov' = py_slice p' (Some (- overlap_len)%Z) None.
Proof.
  intros H start off.
  split; [exact (handle_chunks_length _ _ _ _ _ _ _ H) |].
  destruct wav_overlap as [wav_overlap |].
  - apply handle_chunks_writes in H. cbv zeta in H. fold start off in H.
    destruct H as (_ & new & Hn & Hoff & Hp & Hc & Ho).
    split; [| split; [| split; [discriminate | now split]]].
    + rewrite Hp. unfold write_at.
      rewrite firstn_app, firstn_firstn, Nat.min_id, length_firstn.
      replace (off - Nat.min off (List.length wav_gen)) with 0 by lia.
      cbn [firstn]. apply app_nil_r.
    + rewrite Hp. apply tail_after_write; lia.
  - rewrite handle_chunks_none in H. injection H as Hc Hp Ho. subst p'.
    fold start in Hc. now repeat split.
Qed.
End HandleChunksRuns.

Lemma handle_chunks_returns_iff_witness :
  let wav_gen := map Demo.q [1; 2; 3; 4; 5; 6; 7; 8]%Z in
  let wav_gen_prev := map Demo.q [1; 2; 3; 4; 5]%Z in
  let wav_overlap := map Demo.q [40; 50]%Z in
  (exists c p' ov',
      Demo.handle_chunksQ wav_gen (Some wav_gen_prev) (Some wav_overlap) 2
      = Ok (c, p', ov') /\
      List.length p' = 8 /\
      c = py_slice p' (Some 3%Z) (Some (- 2)%Z) /\
      ov' = py_slice p' (Some (- 2)%Z) None) /\
  Demo.handle_chunksQ wav_gen (Some wav_gen) (Some wav_overlap) 2 = Err RuntimeError.
Proof.
  cbv zeta. split.
  - apply (handle_chunks_returns_iff _ _ _ _ _ _ linspaceQ_length
             (map Demo.q [1; 2; 3; 4; 5; 6; 7; 8]%Z)
             (Some (map Demo.q [1; 2; 3; 4; 5]%Z))
             (map Demo.q [40; 50]%Z) 2%Z eq_refl).
    split; [lia | left; vm_compute; lia].
  - apply (handle_chunks_returns_iff _ _ _ _ _ _ linspaceQ_length
             (map Demo.q [1; 2; 3; 4; 5; 6; 7; 8]%Z)
             (Some (map Demo.q [1; 2; 3; 4; 5; 6; 7; 8]%Z))
             (map Demo.q [40; 50]%Z) 2%Z eq_refl).
    intros [_ [H | [H _]]]; [vm_compute in H; lia | discriminate H].
Defined.

Lemma handle_chunks_writes_in_place_witness :
  let wav_gen := map Demo.q [1; 2; 3; 4; 5; 6; 7; 8]%Z in
  let wav_gen_prev := map Demo.q [1; 2; 3; 4; 5]%Z in
  let wav_overlap := map Demo.q [40; 50]%Z in
  exists c p' ov',
    Demo.handle_chunksQ wav_gen (Some wav_gen_prev) (Some wav_overlap) 2
    = Ok (c, p', ov') /\
    List.length p' = 8 /\
    firstn 3 p' = map Demo.q [1; 2; 3]%Z /\
    skipn 5 p' = map Demo.q [6; 7; 8]%Z.
Proof.
  cbv zeta.
  destruct (Demo.handle_chunksQ (map Demo.q [1; 2; 3; 4; 5; 6; 7; 8]%Z)
              (Some (map Demo.q [1; 2; 3; 4; 5]%Z)) (Some (map Demo.q [40; 50]%Z)) 2)
    as [[[c p'] ov'] | e] eqn:E; [| vm_compute in E; discriminate E].
  exists c, p', ov'. split; [reflexivity |].
  unfold Demo.handle_chunksQ in E.
  pose proof (handle_chunks_writes_in_place _ QArith_base.Qmult QArith_base.Qplus
                (Demo.q 0) (Demo.q 1) Demo.linspaceQ _ _ _ _ _ _ _ E) as (Hl & Hf & Hs & _).
  split; [exact Hl |]. split; [exact Hf | exact Hs].
Defined.


(** ** inference_stream: how a run ends *)

Lemma concat_all_nil {A} (l : list (list A)) :
  Forall (fun c => c = []) l -> concat l = [].
Proof.
  induction 1 as [| c l Hc _ IH]; [reflexivity |].
  cbn [concat]. now rewrite Hc, IH.
Qed.

Lemma lengths_grow_by_cons {T} (n : nat) (w w' : list T) (rest : list (list T)) :
  lengths_grow_by n (w :: w' :: rest) = true ->
  List.length w + n <= List.length w' /\ lengths_grow_by n (w' :: rest) = true.
Proof.
  cbn [lengths_grow_by]. intros H. apply andb_prop in H. destruct H as [H1 H2].
  split; [now apply Nat.leb_le | exact H2].
Qed.

Section StreamRuns.
Variable T : Type.
Variables tmul tadd : T -> T -> T.
Variables zero one : T.
Variable linspace : T -> T -> nat -> list T.
Hypothesis linspace_length : forall a b n, List.length (linspace a b n) = n.
Variables Lat Code : Type.
Variable hifigan_decoder : list Lat -> list T.

Local Abbreviation loop := (@stream_loop T tmul tadd zero one linspace Lat Code hifigan_decoder).
Local Abbreviation decode := (decode_chunk tmul tadd zero one linspace hifigan_decoder).
Local Abbreviation hc := (handle_chunks tmul tadd zero one linspace).
Local Abbreviation dec := (fun all_latents : list (list Lat) => hifigan_decoder (concat all_latents)).

Lemma decode_chunk_unfold (all_latents : list (list Lat)) (prev ov : option (list T))
      (overlap_wav_len : Z) :
  all_latents <> [] ->
  List.length (dec all_latents) <> 1 ->
  decode all_latents prev ov overlap_wav_len
  = hc (dec all_latents) prev ov overlap_wav_len.
Proof.
  intros Hall Hone. unfold decode_chunk, torch_cat, squeeze.
  destruct all_latents as [| l all_latents]; [contradiction |].
  cbn [rbind].
  destruct (Nat.eqb_spec (List.length (hifigan_decoder (concat (l :: all_latents)))) 1)
    as [H1 | _]; [contradiction |].
  reflexivity.
Qed.

Lemma decode_chunk_prev_length (all_latents : list (list Lat)) (prev ov : option (list T))
      (overlap_wav_len : Z) (c p' ov' : list T) :
  decode all_latents prev ov overlap_wav_len = Ok (c, p', ov') ->
  List.length p' = List.length (dec all_latents).
Proof.
  intros H. apply decode_chunk_ok in H.
  exact (handle_chunks_length T tmul tadd zero one linspace _ _ _ _ _ _ _ H).
Qed.

Lemma decode_chunk_zero_overlap (all_latents : list (list Lat)) (prev ov : option (list T))
      (c p' ov' : list T) :
  decode all_latents prev ov 0 = Ok (c, p', ov') -> c = [].
Proof.
  intros H. apply decode_chunk_ok in H.
  destruct ov as [wav_overlap |].
  - apply handle_chunks_writes in H. cbv zeta in H.
    destruct H as (_ & new & _ & _ & _ & Hc & _).
    rewrite Hc. exact (py_slice_to_zero _ _).
  - rewrite handle_chunks_none in H. injection H as <- _ _.
    exact (py_slice_to_zero _ _).
Qed.

Lemma stream_loop_zero_overlap (stream_chunk_size : Z) (generator : list (Code * list Lat)) :
  forall last_tokens all_latents prev ov,
    Forall (fun c => c = [])
           (fst (loop stream_chunk_size 0 generator last_tokens all_latents prev ov)).
Proof.
  induction generator as [| [x latent] g IH]; intros last_tokens all_latents prev ov;
    cbn [stream_loop].
  - destruct (decode all_latents prev ov 0) as [[[c p'] ov'] | e] eqn:E; cbn [fst].
    + constructor; [| constructor].
      exact (decode_chunk_zero_overlap _ _ _ _ _ _ E).
    + constructor.
  - destruct (_ && _)%bool.
    + destruct (decode (all_latents ++ [latent]) prev ov 0) as [[[c p'] ov'] | e] eqn:E.
      * specialize (IH [] (all_latents ++ [latent]) (Some p') (Some ov')).
        destruct (loop stream_chunk_size 0 g [] (all_latents ++ [latent])
                       (Some p') (Some ov')) as [chunks st].
        cbn [fst] in *. constructor; [| exact IH].
        exact (decode_chunk_zero_overlap _ _ _ _ _ _ E).
      * constructor.
    + apply IH.
Qed.

(** The number of chunks of a run that decodes every [stream_chunk_size]
    tokens. *)
Lemma stream_loop_count (stream_chunk_size overlap_wav_len : Z)
      (generator : list (Code * list Lat)) :
  (0 < stream_chunk_size)%Z ->
  forall last_tokens all_latents prev ov,
    (len last_tokens < stream_chunk_size)%Z ->
    let r := loop stream_chunk_size overlap_wav_len generator
                  last_tokens all_latents prev ov in
    (len (fst r) <= (len last_tokens + len generator) / stream_chunk_size + 1)%Z /\
    (snd r = Done ->
     len (fst r) = ((len last_tokens + len generator) / stream_chunk_size + 1)%Z).
Proof.
  intros Hcs.
  induction generator as [| [x latent] g IH]; intros last_tokens all_latents prev ov Hlast;
    cbn [stream_loop]; cbv zeta.
  - assert (Hd : ((len last_tokens + len (@nil (Code * list Lat))) / stream_chunk_size
                  = 0)%Z).
    { apply Z.div_small. pose proof (len_nonneg last_tokens).
      change (len (@nil (Code * list Lat))) with 0%Z. lia. }
    rewrite Hd.
    destruct (decode all_latents prev ov overlap_wav_len) as [[[c p'] ov'] | e];
      cbn [fst snd].
    + split; [unfold len; cbn; lia | intros _; reflexivity].
    + split; [unfold len; cbn; lia | discriminate].
  - assert (Hlen : len (last_tokens ++ [x]) = (len last_tokens + 1)%Z)
      by (rewrite len_app; reflexivity).
    assert (Hgen : len ((x, latent) :: g) = (len g + 1)%Z)
      by (unfold len; cbn [List.length]; lia).
    replace (0 <? stream_chunk_size)%Z with true by (symmetry; now apply Z.ltb_lt).
    cbn [andb].
    destruct (Z.leb_spec stream_chunk_size (len (last_tokens ++ [x]))) as [Hflush | Hno].
    + assert (Hnum : ((len last_tokens + len ((x, latent) :: g)) / stream_chunk_size
                      = 1 + len g / stream_chunk_size)%Z).
      { replace (len last_tokens + len ((x, latent) :: g))%Z
          with (1 * stream_chunk_size + len g)%Z by lia.
        apply Z.div_add_l. lia. }
      rewrite Hnum.
      pose proof (Z.div_pos (len g) stream_chunk_size (len_nonneg g) Hcs) as Hq.
      destruct (decode (all_latents ++ [latent]) prev ov overlap_wav_len)
        as [[[c p'] ov'] | e].
      * specialize (IH [] (all_latents ++ [latent]) (Some p') (Some ov') Hcs).
        cbv zeta in IH.
        change (len (@nil Code) + len g)%Z with (len g) in IH.
        destruct (loop stream_chunk_size overlap_wav_len g [] (all_latents ++ [latent])
                       (Some p') (Some ov')) as [chunks st].
        cbn [fst snd] in *.
        assert (Hc : len (c :: chunks) = (len chunks + 1)%Z)
          by (unfold len; cbn [List.length]; lia).
        rewrite Hc. set (k := (len g / stream_chunk_size)%Z) in *.
        destruct IH as [IH1 IH2]. split; [lia |].
        intros Hdone. rewrite (IH2 Hdone). lia.
      * cbn [fst snd]. set (k := (len g / stream_chunk_size)%Z) in *.
        change (len (@nil (list T))) with 0%Z.
        split; [lia | discriminate].
    + specialize (IH (last_tokens ++ [x]) (all_latents ++ [latent]) prev ov).
      cbv zeta in IH. rewrite Hlen in IH.
      replace (len last_tokens + 1 + len g)%Z
        with (len last_tokens + len ((x, latent) :: g))%Z in IH by lia.
      apply IH. lia.
Qed.

(** Without a positive [stream_chunk_size] there is one decode, at the end. *)
Lemma stream_loop_single (stream_chunk_size overlap_wav_len : Z)
      (generator : list (Code * list Lat)) :
  (stream_chunk_size <= 0)%Z ->
  forall last_tokens all_latents prev ov,
    loop stream_chunk_size overlap_wav_len generator last_tokens all_latents prev ov
    = match decode (all_latents ++ map snd generator) prev ov overlap_wav_len with
      | Err e => ([], Raised e)
      | Ok (wav_chunk, _, _) => ([wav_chunk], Done)
      end.
Proof.
  intros Hcs.
  induction generator as [| [x latent] g IH]; intros last_tokens all_latents prev ov;
    cbn [stream_loop map snd].
  - now rewrite app_nil_r.
  - replace (0 <? stream_chunk_size)%Z with false by (symmetry; apply Z.ltb_ge; lia).
    cbn [andb]. rewrite IH, <- app_assoc. reflexivity.
Qed.

(** A run whose generator is exhausted right after a decode. *)
Lemma stream_loop_exhausted (stream_chunk_size overlap_wav_len : Z)
      (generator : list (Code * list Lat)) :
  (0 < stream_chunk_size)%Z ->
  (2 <= overlap_wav_len)%Z ->
  forall last_tokens all_latents prev ov,
    (len last_tokens < stream_chunk_size)%Z ->
    ((len last_tokens + len generator) mod stream_chunk_size = 0)%Z ->
    (last_tokens = [] ->
     all_latents = [] \/
     exists p o, prev = Some p /\ ov = Some o /\
                 List.length p = List.length (dec all_latents)) ->
    exists e,
      snd (loop stream_chunk_size overlap_wav_len generator last_tokens all_latents prev ov)
      = Raised e.
Proof.
  intros Hcs Hn.
  induction generator as [| [x latent] g IH];
    intros last_tokens all_latents prev ov Hlast Hmod Hstate; cbn [stream_loop].
  - assert (Hzero : len last_tokens = 0%Z).
    { change (len (@nil (Code * list Lat))) with 0%Z in Hmod.
      rewrite Z.add_0_r, Z.mod_small in Hmod; [exact Hmod |].
      pose proof (len_nonneg last_tokens). lia. }
    assert (Hnil : last_tokens = []).
    { apply length_zero_iff_nil. unfold len in Hzero. lia. }
    destruct (Hstate Hnil) as [-> | (p & o & -> & -> & Hp)].
    + cbn. now exists RuntimeError.
    + destruct (decode all_latents (Some p) (Some o) overlap_wav_len)
        as [[[c p'] ov'] | e] eqn:E; [| now exists e].
      apply decode_chunk_ok in E.
      rewrite (handle_chunks_same_length_raises T tmul tadd zero one linspace linspace_length
                 _ _ _ _ Hp Hn) in E.
      discriminate E.
  - assert (Hlen : len (last_tokens ++ [x]) = (len last_tokens + 1)%Z)
      by (rewrite len_app; reflexivity).
    assert (Hgen : len ((x, latent) :: g) = (len g + 1)%Z)
      by (unfold len; cbn [List.length]; lia).
    replace (0 <? stream_chunk_size)%Z with true by (symmetry; now apply Z.ltb_lt).
    cbn [andb].
    destruct (Z.leb_spec stream_chunk_size (len (last_tokens ++ [x]))) as [Hflush | Hno].
    + destruct (decode (all_latents ++ [latent]) prev ov overlap_wav_len)
        as [[[c p'] ov'] | e] eqn:E; [| now exists e].
      assert (Hg : ((len (@nil Code) + len g) mod stream_chunk_size = 0)%Z).
      { change (len (@nil Code) + len g)%Z with (len g).
        replace (len last_tokens + len ((x, latent) :: g))%Z
          with (len g + 1 * stream_chunk_size)%Z in Hmod by lia.
        now rewrite Z_mod_plus_full in Hmod. }
      destruct (IH [] (all_latents ++ [latent]) (Some p') (Some ov')) as [e He].
      * exact Hcs.
      * exact Hg.
      * intros _. right. exists p', ov'. split; [reflexivity |]. split; [reflexivity |].
        exact (decode_chunk_prev_length _ _ _ _ _ _ _ E).
      * destruct (loop stream_chunk_size overlap_wav_len g [] (all_latents ++ [latent])
                       (Some p') (Some ov')) as [chunks st].
        cbn [snd] in *. now exists e.
    + apply IH.
      * lia.
      * rewrite Hlen. rewrite <- Hmod. f_equal. lia.
      * intros H. symmetry in H. now apply app_cons_not_nil in H.
Qed.

(** The chunk between a decode and a longer one. *)
Lemma py_slice_chunk_region (w prev : list T) (overlap_len : Z) :
  let n := Z.to_nat overlap_len in
  (0 < overlap_len)%Z ->
  n <= List.length prev ->
  List.length prev <= List.length w ->
  py_slice w (Some (len prev - overlap_len)%Z) (Some (- overlap_len)%Z)
  = region w (List.length prev - n) (List.length w - n).
Proof.
  intros n Hn Hprev Hle.
  unfold py_slice, py_lo, py_hi, py_bound, region.
  replace (len prev - overlap_len <? 0)%Z with false
    by (symmetry; apply Z.ltb_ge; unfold len; lia).
  replace (- overlap_len <? 0)%Z with true by (symmetry; apply Z.ltb_lt; lia).
  rewrite (Z.min_l (len prev - overlap_len) (len w)) by (unfold len; lia).
  rewrite (Z.max_l (- overlap_len + len w) 0) by (unfold len; lia).
  f_equal; [| f_equal]; unfold len, n; lia.
Qed.

(** A decode after the first one, when the waveform has grown by at least
    the overlap. *)
Lemma decode_chunk_next
      (all_latents : list (list Lat)) (prev wp : list T) (overlap_wav_len : Z) :
  let n := Z.to_nat overlap_wav_len in
  let w := dec all_latents in
  (0 < overlap_wav_len)%Z ->
  all_latents <> [] ->
  List.length prev = List.length wp ->
  n <= List.length wp ->
  List.length wp + n <= List.length w ->
  exists p',
    decode all_latents (Some prev) (Some (skipn (List.length wp - n) wp)) overlap_wav_len
    = Ok (stitched_chunk tmul tadd zero one linspace n wp w, p',
          skipn (List.length w - n) w) /\
    List.length p' = List.length w.
Proof.
  intros n w Hn Hall Hprev Hwp Hgrow.
  rewrite decode_chunk_unfold; [| exact Hall | fold w; lia].
  fold w.
  assert (Hov : List.length (skipn (List.length wp - n) wp) = Z.to_nat overlap_wav_len).
  { rewrite length_skipn. fold n. lia. }
  assert (Hraw : Z.to_nat overlap_wav_len
                 <= List.length (py_slice w (Some (len prev - overlap_wav_len)%Z)
                                          (Some (- overlap_wav_len)%Z))).
  { rewrite py_slice_chunk_region by (fold n; lia).
    fold n. rewrite region_length.
    rewrite Nat.min_l by lia. lia. }
  destruct (handle_chunks_returns T tmul tadd zero one linspace linspace_length w (Some prev)
              (skipn (List.length wp - n) wp) overlap_wav_len Hov
              (Z.lt_le_incl _ _ Hn) (or_introl Hraw)) as [[[c p'] ov'] Hr].
  pose proof (handle_chunks_next T tmul tadd zero one linspace linspace_length w prev wp overlap_wav_len
                c p' ov' Hn Hwp Hprev) as Hnext.
  cbv zeta in Hnext. fold n in Hnext, Hr.
  destruct (Hnext ltac:(lia) Hr) as (-> & Hp & ->).
  exists p'. split; [exact Hr | exact Hp].
Qed.

Lemma stream_loop_completes_after (stream_chunk_size overlap_wav_len : Z)
      (generator : list (Code * list Lat)) :
  let n := Z.to_nat overlap_wav_len in
  (0 < overlap_wav_len)%Z ->
  forall last_tokens all_latents prev wp,
    all_latents <> [] ->
    List.length prev = List.length wp ->
    n <= List.length wp ->
    lengths_grow_by n
      (wp :: map dec (stream_flushes stream_chunk_size generator last_tokens all_latents))
    = true ->
    loop stream_chunk_size overlap_wav_len generator last_tokens all_latents
         (Some prev) (Some (skipn (List.length wp - n) wp))
    = (stitched_after tmul tadd zero one linspace n wp
         (map dec (stream_flushes stream_chunk_size generator last_tokens all_latents)),
       Done).
Proof.
  intros n Hn.
  induction generator as [| [x latent] g IH];
    intros last_tokens all_latents prev wp Hall Hprev Hwp Hgrow;
    cbn [stream_loop stream_flushes map stitched_after] in *.
  - apply lengths_grow_by_cons in Hgrow. destruct Hgrow as [Hgrow _].
    destruct (decode_chunk_next all_latents prev wp overlap_wav_len Hn Hall Hprev Hwp Hgrow)
      as (p' & Hd & _).
    fold n in Hd. rewrite Hd. reflexivity.
  - assert (Hall' : all_latents ++ [latent] <> [])
      by (intros H; symmetry in H; now apply app_cons_not_nil in H).
    destruct ((0 <? stream_chunk_size)%Z
              && (stream_chunk_size <=? len (last_tokens ++ [x]))%Z)%bool.
    + cbn [map stitched_after] in *.
      apply lengths_grow_by_cons in Hgrow. destruct Hgrow as [Hgrow Hrest].
      destruct (decode_chunk_next (all_latents ++ [latent]) prev wp overlap_wav_len
                  Hn Hall' Hprev Hwp Hgrow) as (p' & Hd & Hp).
      fold n in Hd. rewrite Hd.
      rewrite (IH [] (all_latents ++ [latent]) p' (dec (all_latents ++ [latent]))
                  Hall' Hp ltac:(lia) Hrest).
      reflexivity.
    + exact (IH _ _ prev wp Hall' Hprev Hwp Hgrow).
Qed.

Lemma stream_loop_completes (stream_chunk_size overlap_wav_len : Z)
      (generator : list (Code * list Lat)) :
  let n := Z.to_nat overlap_wav_len in
  (0 < overlap_wav_len)%Z ->
  forall last_tokens all_latents,
    (generator = [] -> all_latents <> []) ->
    let decodes :=
      map dec (stream_flushes stream_chunk_size generator last_tokens all_latents) in
    n <= List.length (hd [] decodes) ->
    1 < List.length (hd [] decodes) ->
    lengths_grow_by n decodes = true ->
    loop stream_chunk_size overlap_wav_len generator last_tokens all_latents None None
    = (stitched_chunks tmul tadd zero one linspace n decodes, Done).
Proof.
  intros n Hn.
  induction generator as [| [x latent] g IH];
    intros last_tokens all_latents Hall decodes Hhd Hone Hgrow; unfold decodes in *;
    cbn [stream_loop stream_flushes map stitched_chunks hd] in *.
  - rewrite decode_chunk_unfold; [| now apply Hall | lia].
    rewrite (handle_chunks_first T tmul tadd zero one linspace (dec all_latents) overlap_wav_len)
      by (unfold len; lia).
    reflexivity.
  - assert (Hall' : all_latents ++ [latent] <> [])
      by (intros H; symmetry in H; now apply app_cons_not_nil in H).
    destruct ((0 <? stream_chunk_size)%Z
              && (stream_chunk_size <=? len (last_tokens ++ [x]))%Z)%bool.
    + cbn [map stitched_chunks hd] in *.
      rewrite decode_chunk_unfold; [| exact Hall' | lia].
      rewrite (handle_chunks_first T tmul tadd zero one linspace (dec (all_latents ++ [latent]))
                 overlap_wav_len) by (unfold len; lia).
      fold n.
      pose proof (stream_loop_completes_after stream_chunk_size overlap_wav_len g Hn
                    [] (all_latents ++ [latent]) (dec (all_latents ++ [latent]))
                    (dec (all_latents ++ [latent])) Hall' eq_refl Hhd Hgrow) as Hafter.
      cbv beta zeta in Hafter. fold n in Hafter. rewrite Hafter.
      reflexivity.
    + apply IH; [intros _; exact Hall' | exact Hhd | exact Hone | exact Hgrow].
Qed.
End StreamRuns.


(** X12.  With [overlap_wav_len = 0] the stream never yields a sample:
    [wav_gen[:-0]] is empty, so every chunk yielded is empty, whatever the
    decoder, the chunk size and the tokens generated. *)
Theorem inference_stream_zero_overlap
    (T : Type) (tmul tadd : T -> T -> T) (zero one : T)
    (linspace : T -> T -> nat -> list T)
    (Lat Code : Type) (hifigan_decoder : list Lat -> list T)
    (stream_chunk_size : Z) (generator : list (Code * list Lat)) :
  let run := inference_stream tmul tadd zero one linspace hifigan_decoder
                              stream_chunk_size 0 generator in
  Forall (fun wav_chunk => wav_chunk = []) (fst run) /\
  concat (fst run) = [].
Proof.
  intros run.
  assert (H : Forall (fun wav_chunk : list T => wav_chunk = []) (fst run))
    by apply stream_loop_zero_overlap.
  split; [exact H | exact (concat_all_nil _ H)].
Qed.

(** X13.  A stream with a positive [stream_chunk_size] yields at most
    [N // stream_chunk_size + 1] chunks for [N] generated tokens, and exactly
    that many when it completes.  With [stream_chunk_size <= 0] nothing is
    decoded before the generator is exhausted: the stream yields at most one
    chunk, and when it completes that chunk is the slice
    [[:-overlap_wav_len]] of the decode of all the latents. *)
Theorem inference_stream_chunk_count
    (T : Type) (tmul tadd : T -> T -> T) (zero one : T)
    (linspace : T -> T -> nat -> list T)
    (Lat Code : Type) (hifigan_decoder : list Lat -> list T)
    (stream_chunk_size overlap_wav_len : Z) (generator : list (Code * list Lat)) :
  let run := inference_stream tmul tadd zero one linspace hifigan_decoder
                              stream_chunk_size overlap_wav_len generator in
  ((0 < stream_chunk_size)%Z ->
   (len (fst run) <= len generator / stream_chunk_size + 1)%Z /\
   (snd run = Done -> len (fst run) = (len generator / stream_chunk_size + 1)%Z)) /\
  ((stream_chunk_size <= 0)%Z ->
   List.length (fst run) <= 1 /\
   (snd run = Done ->
    fst run = [py_slice (full_decode hifigan_decoder generator)
                        None (Some (- overlap_wav_len)%Z)])).
Proof.
  intros run. split.
  - intros Hcs.
    exact (stream_loop_count T tmul tadd zero one linspace Lat Code hifigan_decoder
             stream_chunk_size overlap_wav_len generator Hcs [] [] None None Hcs).
  - intros Hcs. unfold run, inference_stream.
    rewrite stream_loop_single by exact Hcs.
    cbn [app].
    destruct (decode_chunk tmul tadd zero one linspace hifigan_decoder
                           (map snd generator) None None overlap_wav_len)
      as [[[c p'] ov'] | e] eqn:E; cbn [fst snd List.length].
    + split; [apply Nat.le_refl |]. intros _.
      apply decode_chunk_ok in E. rewrite handle_chunks_none in E.
      injection E as <- _ _. reflexivity.
    + split; [apply Nat.le_0_l | discriminate].
Qed.

(** X14.  When the number of generated tokens is a multiple of a positive
    [stream_chunk_size] (no token at all included), the generator is
    exhausted right after a decode, or before any latent exists: the last
    pass decodes the same latents again, or none, and for an overlap of two
    samples or more the stream ends in an exception instead of completing. *)
Theorem inference_stream_exhausted_after_decode
    (T : Type) (tmul tadd : T -> T -> T) (zero one : T)
    (linspace : T -> T -> nat -> list T)
    (Lat Code : Type) (hifigan_decoder : list Lat -> list T)
    (stream_chunk_size overlap_wav_len : Z) (generator : list (Code * list Lat)) :
  (forall a b n, List.length (linspace a b n) = n) ->
  (0 < stream_chunk_size)%Z ->
  (2 <= overlap_wav_len)%Z ->
  (len generator mod stream_chunk_size = 0)%Z ->
  exists e,
    snd (inference_stream tmul tadd zero one linspace hifigan_decoder
                          stream_chunk_size overlap_wav_len generator)
    = Raised e.
Proof.
  intros Hlin Hcs Hn Hmod. unfold inference_stream.
  apply (stream_loop_exhausted T tmul tadd zero one linspace Hlin Lat Code hifigan_decoder
           stream_chunk_size overlap_wav_len generator Hcs Hn [] [] None None).
  - exact Hcs.
  - exact Hmod.
  - intros _. now left.
Qed.

Lemma inference_stream_exhausted_after_decode_witness :
  let generator := Demo.generator_of [10; 20; 30; 40]%Z in
  (len generator mod 2 = 0)%Z /\
  exists e, snd (Demo.inference_streamQ Demo.causal_decoder 2 2 generator) = Raised e.
Proof.
  cbv zeta. split; [reflexivity |].
  unfold Demo.inference_streamQ.
  apply (inference_stream_exhausted_after_decode
           QArith_base.Q QArith_base.Qmult QArith_base.Qplus (Demo.q 0) (Demo.q 1)
           Demo.linspaceQ Z Z Demo.causal_decoder 2 2
           (Demo.generator_of [10; 20; 30; 40]%Z) linspaceQ_length);
    [lia | lia | reflexivity].
Defined.

(** X15.  For a positive [overlap_wav_len], the stream completes, and yields
    exactly the stitched chunks of its decodes, whenever some token is
    generated, the first decode holds at least [overlap_wav_len] samples (and
    more than one), and every later decode is at least [overlap_wav_len]
    samples longer than the one before it. *)
Theorem inference_stream_completes
    (T : Type) (tmul tadd : T -> T -> T) (zero one : T)
    (linspace : T -> T -> nat -> list T)
    (Lat Code : Type) (hifigan_decoder : list Lat -> list T)
    (stream_chunk_size overlap_wav_len : Z) (generator : list (Code * list Lat)) :
  (forall a b n, List.length (linspace a b n) = n) ->
  (0 < overlap_wav_len)%Z ->
  generator <> [] ->
  let decodes := stream_decodes hifigan_decoder stream_chunk_size generator in
  let n := Z.to_nat overlap_wav_len in
  (overlap_wav_len <= len (hd [] decodes))%Z ->
  (1 < len (hd [] decodes))%Z ->
  lengths_grow_by n decodes = true ->
  inference_stream tmul tadd zero one linspace hifigan_decoder
                   stream_chunk_size overlap_wav_len generator
  = (stitched_chunks tmul tadd zero one linspace n decodes, Done).
Proof.
  intros Hlin Hn Hgen decodes n Hhd Hone Hgrow. unfold inference_stream.
  apply (stream_loop_completes T tmul tadd zero one linspace Hlin Lat Code hifigan_decoder
           stream_chunk_size overlap_wav_len generator Hn [] []).
  - intros H. contradiction.
  - fold (stream_decodes hifigan_decoder stream_chunk_size generator). fold decodes.
    unfold len in Hhd. lia.
  - fold (stream_decodes hifigan_decoder stream_chunk_size generator). fold decodes.
    unfold len in Hone. lia.
  - exact Hgrow.
Qed.

Lemma inference_stream_completes_witness :
  let generator := Demo.generator_of [10; 20; 30; 40; 50]%Z in
  let decodes := stream_decodes Demo.context_decoder 2 generator in
  map (@List.length QArith_base.Q) decodes = [6; 12; 15] /\
  Demo.inference_streamQ Demo.context_decoder 2 2 generator
  = (stitched_chunks QArith_base.Qmult QArith_base.Qplus (Demo.q 0) (Demo.q 1)
                     Demo.linspaceQ 2 decodes, Done).
Proof.
  cbv zeta. split; [reflexivity |].
  unfold Demo.inference_streamQ.
  apply (inference_stream_completes
           QArith_base.Q QArith_base.Qmult QArith_base.Qplus (Demo.q 0) (Demo.q 1)
           Demo.linspaceQ Z Z Demo.context_decoder 2 2
           (Demo.generator_of [10; 20; 30; 40; 50]%Z) linspaceQ_length);
    [lia | discriminate | vm_compute; discriminate | vm_compute; reflexivity
     | vm_compute; reflexivity].
Defined.

(** ** The checkpoint key remapping on any checkpoint *)

Section RemapRuns.
Variable Tensor : Type.

Lemma dict_get_app_fresh (pre rest : dict Tensor) (k : string) (v : Tensor) :
  ~ In k (dict_keys pre) -> dict_get (pre ++ (k, v) :: rest) k = Some v.
Proof.
  induction pre as [| [k0 v0] pre IH]; cbn; intros H.
  - now rewrite String.eqb_refl.
  - destruct (String.eqb_spec k0 k) as [-> | _]; [exfalso; apply H; now left |].
    apply IH. intros Hin. apply H. now right.
Qed.

Lemma dict_remove_app_fresh (pre rest : dict Tensor) (k : string) (v : Tensor) :
  ~ In k (dict_keys pre) -> dict_remove (pre ++ (k, v) :: rest) k = pre ++ rest.
Proof.
  induction pre as [| [k0 v0] pre IH]; cbn; intros H.
  - now rewrite String.eqb_refl.
  - destruct (String.eqb_spec k0 k) as [-> | _]; [exfalso; apply H; now left |].
    f_equal. apply IH. intros Hin. apply H. now right.
Qed.

Lemma dict_remove_absent (d : dict Tensor) (k : string) :
  NoDup (dict_keys d) -> ~ In k (dict_keys (dict_remove d k)).
Proof.
  intros Hnd Hin. apply dict_get_in in Hin. destruct Hin as [v Hv].
  rewrite dict_get_remove in Hv by assumption.
  rewrite String.eqb_refl in Hv. discriminate.
Qed.

(** The loop on keys that have no prefix: the mapping before the keys
    still to come is final. *)
Lemma remap_keys_unprefixed (rest : dict Tensor) :
  forall pre : dict Tensor,
    NoDup (dict_keys (pre ++ rest)) ->
    (forall k, In k (dict_keys rest) -> startswith k "xtts." = false) ->
    remap_keys (dict_keys rest) (pre ++ rest)
    = Ok (pre ++ filter (fun kv => negb (in_ignore_keys (split_dot_first (fst kv)))) rest).
Proof.
  induction rest as [| [k v] rest IH]; intros pre Hnd Hun.
  - reflexivity.
  - cbn [dict_keys map fst remap_keys filter].
    fold (dict_keys rest).
    assert (Hfresh : ~ In k (dict_keys pre)).
    { unfold dict_keys in Hnd. rewrite map_app in Hnd. cbn [map fst] in Hnd.
      apply NoDup_remove_2 in Hnd. intros Hin. apply Hnd. apply in_or_app. now left. }
    assert (Hrest : forall k0, In k0 (dict_keys rest) -> startswith k0 "xtts." = false).
    { intros k0 Hin. apply Hun. cbn. now right. }
    unfold remap_key. rewrite (Hun k) by (cbn; now left). cbn [rbind].
    destruct (in_ignore_keys (split_dot_first k)) eqn:Hig; cbn [negb].
    + unfold dict_delitem. rewrite dict_get_app_fresh by exact Hfresh.
      rewrite dict_remove_app_fresh by exact Hfresh. cbn [rbind].
      apply IH; [| exact Hrest].
      unfold dict_keys in *. rewrite map_app in *. cbn [map fst] in Hnd.
      now apply NoDup_remove_1 in Hnd.
    + cbn [rbind].
      change (pre ++ (k, v) :: rest) with (pre ++ [(k, v)] ++ rest) in *.
      change (pre ++ (k, v)
                  :: filter (fun kv => negb (in_ignore_keys (split_dot_first (fst kv)))) rest)
        with (pre ++ [(k, v)]
              ++ filter (fun kv => negb (in_ignore_keys (split_dot_first (fst kv)))) rest).
      rewrite !app_assoc in *. apply IH; [exact Hnd | exact Hrest].
Qed.

(** One iteration on any mapping, when it returns. *)
Lemma remap_key_inv (d : dict Tensor) (key : string) (d' : dict Tensor) :
  NoDup (dict_keys d) ->
  remap_key d key = Ok d' ->
  NoDup (dict_keys d') /\
  (forall x, In x (dict_keys d') ->
             (x <> key /\ In x (dict_keys d)) \/
             in_ignore_keys (split_dot_first x) = false) /\
  (forall x v, dict_get d' x = Some v -> exists x0, dict_get d x0 = Some v).
Proof.
  intros Hnd. unfold remap_key.
  destruct (startswith key "xtts.") eqn:Hs.
  - set (new_key := py_replace_with_empty key "xtts.").
    unfold dict_getitem.
    destruct (dict_get d key) as [v |] eqn:Hget; [| discriminate]. cbn [rbind].
    unfold dict_delitem at 1.
    destruct (dict_get (dict_set d new_key v) key) as [v1 |] eqn:Hget1; [| discriminate].
    cbn [rbind].
    set (d1 := dict_set d new_key v) in *. set (d2 := dict_remove d1 key).
    assert (Hnd1 : NoDup (dict_keys d1)) by now apply dict_set_nodup.
    assert (Hnd2 : NoDup (dict_keys d2)) by now apply dict_remove_nodup.
    assert (Hk2 : forall x, In x (dict_keys d2) ->
                            x <> key /\ (x = new_key \/ In x (dict_keys d))).
    { intros x Hx. split.
      - intros ->. exact (dict_remove_absent d1 key Hnd1 Hx).
      - apply (dict_keys_set _ d new_key v). now apply (dict_keys_remove _ d1 key). }
    assert (Hv2 : forall x v', dict_get d2 x = Some v' ->
                               exists x0, dict_get d x0 = Some v').
    { intros x v'. unfold d2. rewrite dict_get_remove by exact Hnd1.
      destruct (String.eqb key x); [discriminate |].
      unfold d1. rewrite dict_get_set.
      destruct (String.eqb new_key x).
      - intros [= <-]. now exists key.
      - intros H. now exists x. }
    destruct (in_ignore_keys (split_dot_first new_key)) eqn:Hig.
    + unfold dict_delitem.
      destruct (dict_get d2 new_key) as [v2 |]; [| discriminate].
      intros [= <-]. split; [now apply dict_remove_nodup |]. split.
      * intros x Hx. left.
        assert (Hne : x <> new_key)
          by (intros ->; exact (dict_remove_absent d2 new_key Hnd2 Hx)).
        apply dict_keys_remove in Hx.
        destruct (Hk2 x Hx) as [Hk [E | Hin]]; [contradiction | now split].
      * intros x v'. rewrite dict_get_remove by exact Hnd2.
        destruct (String.eqb new_key x); [discriminate | apply Hv2].
    + intros [= <-]. split; [exact Hnd2 |]. split.
      * intros x Hx. destruct (Hk2 x Hx) as [Hk [-> | Hin]];
          [right; exact Hig | left; now split].
      * exact Hv2.
  - cbn [rbind]. destruct (in_ignore_keys (split_dot_first key)) eqn:Hig.
    + unfold dict_delitem. destruct (dict_get d key) as [v |]; [| discriminate].
      intros [= <-]. split; [now apply dict_remove_nodup |]. split.
      * intros x Hx. left. split.
        -- intros ->. exact (dict_remove_absent d key Hnd Hx).
        -- now apply (dict_keys_remove _ d key).
      * intros x v'. rewrite dict_get_remove by exact Hnd.
        destruct (String.eqb key x); [discriminate |]. intros H. now exists x.
    + intros [= <-]. split; [exact Hnd |]. split.
      * intros x Hx. destruct (String.eqb_spec x key) as [-> | Hne];
          [right; exact Hig | left; now split].
      * intros x v' H. now exists x.
Qed.

Lemma remap_keys_inv (rest : list string) :
  forall (d0 d d' : dict Tensor),
    NoDup (dict_keys d) ->
    (forall x, In x (dict_keys d) ->
               In x rest \/ in_ignore_keys (split_dot_first x) = false) ->
    (forall x v, dict_get d x = Some v -> exists x0, dict_get d0 x0 = Some v) ->
    remap_keys rest d = Ok d' ->
    NoDup (dict_keys d') /\
    (forall x, In x (dict_keys d') -> in_ignore_keys (split_dot_first x) = false) /\
    (forall x v, dict_get d' x = Some v -> exists x0, dict_get d0 x0 = Some v).
Proof.
  induction rest as [| k rest IH]; intros d0 d d' Hnd Hkeys Hvals; cbn [remap_keys].
  - intros [= <-]. split; [exact Hnd |]. split; [| exact Hvals].
    intros x Hx. destruct (Hkeys x Hx) as [[] | H]; exact H.
  - destruct (remap_key d k) as [d1 |] eqn:Hstep; [| discriminate]. cbn [rbind].
    destruct (remap_key_inv d k d1 Hnd Hstep) as (Hnd1 & Hkeys1 & Hvals1).
    apply IH; [exact Hnd1 | |].
    + intros x Hx. destruct (Hkeys1 x Hx) as [[Hne Hin] | H]; [| now right].
      destruct (Hkeys x Hin) as [[E | Hr] | H]; [congruence | now left | now right].
    + intros x v Hx. destruct (Hvals1 x v Hx) as [x0 Hx0]. exact (Hvals x0 v Hx0).
Qed.

Lemma remap_key_raises (d : dict Tensor) (key : string) (e : exn) :
  remap_key d key = Err e -> exists k, e = KeyError k.
Proof.
  unfold remap_key, dict_getitem, dict_delitem.
  destruct (startswith key "xtts.").
  - destruct (dict_get d key) as [v |]; cbn [rbind]; [| intros [= <-]; now eexists].
    destruct (dict_get (dict_set d _ v) key); cbn [rbind]; [| intros [= <-]; now eexists].
    destruct (in_ignore_keys _); [| discriminate].
    destruct (dict_get _ _); [discriminate | intros [= <-]; now eexists].
  - cbn [rbind]. destruct (in_ignore_keys _); [| discriminate].
    destruct (dict_get _ _); [discriminate | intros [= <-]; now eexists].
Qed.

Lemma remap_keys_raises (rest : list string) :
  forall (d : dict Tensor) (e : exn),
    remap_keys rest d = Err e -> exists k, e = KeyError k.
Proof.
  induction rest as [| k rest IH]; intros d e; cbn [remap_keys]; [discriminate |].
  destruct (remap_key d k) as [d1 |] eqn:Hstep; cbn [rbind].
  - apply IH.
  - intros [= <-]. exact (remap_key_raises d k _ Hstep).
Qed.
End RemapRuns.

Lemma filter_all {A} (f : A -> bool) (l : list A) :
  (forall x, In x l -> f x = true) -> filter f l = l.
Proof.
  induction l as [| a l IH]; intros H; [reflexivity |].
  cbn [filter]. rewrite (H a) by now left.
  f_equal. apply IH. intros x Hx. apply H. now right.
Qed.

(** X16.  A checkpoint none of whose keys starts with ["xtts."] only loses
    its ignored keys: [get_compatible_checkpoint_state_dict] returns the
    entries whose first dot-separated component is not one of the three
    ignored names, unchanged and in their order. *)
Theorem get_compatible_checkpoint_state_dict_unprefixed
    (Tensor : Type) (checkpoint : dict Tensor) :
  NoDup (dict_keys checkpoint) ->
  (forall k, In k (dict_keys checkpoint) -> startswith k "xtts." = false) ->
  get_compatible_checkpoint_state_dict checkpoint
  = Ok (filter (fun kv => negb (in_ignore_keys (split_dot_first (fst kv)))) checkpoint).
Proof.
  intros Hnd Hun. unfold get_compatible_checkpoint_state_dict.
  exact (remap_keys_unprefixed Tensor checkpoint [] Hnd Hun).
Qed.

Lemma get_compatible_checkpoint_state_dict_unprefixed_witness :
  get_compatible_checkpoint_state_dict
    [("gpt.w", 1); ("dvae.x", 2); ("hifigan.b", 3); ("dvae_like.y", 4)]%string
  = Ok [("gpt.w", 1); ("hifigan.b", 3); ("dvae_like.y", 4)]%string.
Proof.
  apply (get_compatible_checkpoint_state_dict_unprefixed nat
           [("gpt.w", 1); ("dvae.x", 2); ("hifigan.b", 3); ("dvae_like.y", 4)]%string).
  - cbn. repeat constructor; cbn; intuition discriminate.
  - cbn. intros k [<- | [<- | [<- | [<- | []]]]]; reflexivity.
Defined.

(** X17.  Whatever the keys of the checkpoint,
    [get_compatible_checkpoint_state_dict] raises nothing but [KeyError], and
    a mapping it returns holds no key whose first dot-separated component is
    an ignored name and no tensor that is not in the checkpoint. *)
Theorem get_compatible_checkpoint_state_dict_safe
    (Tensor : Type) (checkpoint : dict Tensor) :
  NoDup (dict_keys checkpoint) ->
  match get_compatible_checkpoint_state_dict checkpoint with
  | Ok d' =>
      NoDup (dict_keys d') /\
      (forall k, In k (dict_keys d') -> in_ignore_keys (split_dot_first k) = false) /\
      (forall k v, dict_get d' k = Some v -> exists k0, dict_get checkpoint k0 = Some v)
  | Err e => exists key, e = KeyError key
  end.
Proof.
  intros Hnd. unfold get_compatible_checkpoint_state_dict.
  destruct (remap_keys (dict_keys checkpoint) checkpoint) as [d' | e] eqn:Hrun.
  - apply (remap_keys_inv Tensor (dict_keys checkpoint) checkpoint checkpoint d' Hnd).
    + intros x Hx. now left.
    + intros x v Hx. now exists x.
    + exact Hrun.
  - exact (remap_keys_raises Tensor _ _ _ Hrun).
Qed.

Lemma get_compatible_checkpoint_state_dict_safe_witness :
  let collision := [("a.w", 1); ("xtts.a.w", 2); ("xtts.dvae.x", 3)]%string in
  let twice := [("xtts.dvae.x", 1); ("dvae.x", 2)]%string in
  match get_compatible_checkpoint_state_dict collision with
  | Ok d' => forall k v, dict_get d' k = Some v ->
                         exists k0, dict_get collision k0 = Some v
  | Err e => exists key, e = KeyError key
  end /\
  match get_compatible_checkpoint_state_dict twice with
  | Ok d' => forall k v, dict_get d' k = Some v -> exists k0, dict_get twice k0 = Some v
  | Err e => exists key, e = KeyError key
  end.
Proof.
  cbv zeta.
  assert (H1 : NoDup (dict_keys [("a.w", 1); ("xtts.a.w", 2); ("xtts.dvae.x", 3)]%string)).
  { cbn. repeat constructor; cbn; intuition discriminate. }
  assert (H2 : NoDup (dict_keys [("xtts.dvae.x", 1); ("dvae.x", 2)]%string)).
  { cbn. repeat constructor; cbn; intuition discriminate. }
  pose proof (get_compatible_checkpoint_state_dict_safe nat _ H1) as S1.
  pose proof (get_compatible_checkpoint_state_dict_safe nat _ H2) as S2.
  split.
  - destruct (get_compatible_checkpoint_state_dict
                [("a.w", 1); ("xtts.a.w", 2); ("xtts.dvae.x", 3)]%string);
      [exact (proj2 (proj2 S1)) | exact S1].
  - destruct (get_compatible_checkpoint_state_dict
                [("xtts.dvae.x", 1); ("dvae.x", 2)]%string);
      [exact (proj2 (proj2 S2)) | exact S2].
Defined.

(** X18.  The remapping is idempotent on well-formed checkpoints: when
    ["xtts."] occurs in a key only as its prefix and no two keys coincide
    once the prefix is removed, the mapping returned is left unchanged by a
    second call. *)
Theorem get_compatible_checkpoint_state_dict_idempotent
    (Tensor : Type) (checkpoint : dict Tensor) :
  prefix_only checkpoint -> no_collision checkpoint ->
  exists d',
    get_compatible_checkpoint_state_dict checkpoint = Ok d' /\
    get_compatible_checkpoint_state_dict d' = Ok d'.
Proof.
  intros Hprefix Hcollision.
  destruct (remap_keys_remapped Tensor checkpoint Hprefix Hcollision
                                (dict_keys checkpoint) [] checkpoint eq_refl)
    as (d' & Hrun & Hnd & _ & _ & Hback).
  { split; [exact (keys_nodup Tensor checkpoint Hcollision) |].
    split; [reflexivity |]. split.
    - intros k v [].
    - intros k' v Hget. left. split; [| exact Hget].
      exact (dict_get_some_in _ _ _ _ Hget). }
  exists d'. split; [exact Hrun |].
  assert (Hkeys : forall k', In k' (dict_keys d') ->
                             startswith k' "xtts." = false /\ kept_key k' = true).
  { intros k' Hin. apply dict_get_in in Hin. destruct Hin as [v Hv].
    destruct (Hback k' v Hv) as [[[] _] | (k & Hk & <- & Hkept & _)].
    split; [| exact Hkept].
    apply (strip_not_prefixed Tensor checkpoint Hprefix).
    rewrite app_nil_r in Hk. now apply in_rev. }
  unfold get_compatible_checkpoint_state_dict.
  pose proof (remap_keys_unprefixed Tensor d' [] Hnd (fun k H => proj1 (Hkeys k H)))
    as Hsecond.
  cbn [app] in Hsecond. rewrite Hsecond. f_equal. apply filter_all.
  intros [k v] Hin. cbn [fst].
  apply (proj2 (Hkeys k (in_map fst _ _ Hin))).
Qed.

Lemma get_compatible_checkpoint_state_dict_idempotent_witness :
  let checkpoint := [("xtts.gpt.w", 1); ("xtts.dvae.x", 2); ("hifigan.b", 3)]%string in
  let d' := [("hifigan.b", 3); ("gpt.w", 1)]%string in
  get_compatible_checkpoint_state_dict checkpoint = Ok d' /\
  get_compatible_checkpoint_state_dict d' = Ok d'.
Proof.
  cbv zeta.
  destruct (get_compatible_checkpoint_state_dict_idempotent nat
              [("xtts.gpt.w", 1); ("xtts.dvae.x", 2); ("hifigan.b", 3)]%string)
    as (d' & H1 & H2).
  - intros k [<- | [<- | [<- | []]]]; cbn; intros H; (reflexivity || discriminate H).
  - unfold no_collision. cbn. repeat constructor; cbn; intuition discriminate.
  - assert (E : d' = [("hifigan.b", 3); ("gpt.w", 1)]%string)
      by (vm_compute in H1; now injection H1 as <-).
    rewrite E in H2. split; [rewrite <- E; exact H1 | exact H2].
Defined.

(** ** load_checkpoint: failure before the first load *)

(** X19.  When the checkpoint file cannot be read, or its keys make the
    remapping raise, [load_checkpoint] raises that exception after the
    tokenizer was loaded (when the vocabulary file exists) and [init_models]
    was run, and before anything else: [load_state_dict] is never called and
    the model is not switched to inference. *)
Theorem load_checkpoint_fails_before_load
    (St Tensor : Type) (self : LoaderComponents St Tensor) (args : XttsArgs)
    (loaded : result (dict Tensor)) (vocab_exists eval strict use_deepspeed : bool)
    (w : world St) (e : exn) :
  rbind loaded (@get_compatible_checkpoint_state_dict Tensor) = Err e ->
  let run := load_checkpoint self args loaded vocab_exists eval strict use_deepspeed w in
  run = (Err e, before_try self vocab_exists w) /\
  calls (snd run)
  = calls w ++ (if vocab_exists then [CallLoadTokenizer] else []) ++ [CallInitModels] /\
  count_call CallLoadStateDict (calls (snd run)) = count_call CallLoadStateDict (calls w) /\
  count_call CallInitGptForInference (calls (snd run))
  = count_call CallInitGptForInference (calls w).
Proof.
  intros Hfail run.
  assert (Hrun : run = (Err e, before_try self vocab_exists w)).
  { unfold run, load_checkpoint, before_try, bind, when, try_except, lift_result,
      effect, effect_result, ret.
    rewrite Hfail.
    destruct vocab_exists; cbn [model calls]; rewrite <- ?app_assoc; reflexivity. }
  rewrite Hrun. cbn [snd]. unfold before_try. cbn [calls].
  split; [reflexivity |]. split; [reflexivity |].
  rewrite !count_call_app.
  destruct vocab_exists; cbn; split; lia.
Qed.

Lemma load_checkpoint_fails_before_load_witness :
  let loaded := Ok [("xtts.dvae.x", tt); ("dvae.x", tt)]%string in
  let run := load_checkpoint Demo.loader default_XttsArgs loaded true true true false
                             Demo.fresh_world in
  fst run = Err (KeyError "dvae.x") /\
  calls (snd run) = [CallLoadTokenizer; CallInitModels].
Proof.
  cbv zeta.
  pose proof (load_checkpoint_fails_before_load Demo.model_state unit Demo.loader default_XttsArgs
                (Ok [("xtts.dvae.x", tt); ("dvae.x", tt)]%string)
                true true true false Demo.fresh_world (KeyError "dvae.x") eq_refl)
    as (H1 & H2 & _).
  cbv zeta in H1, H2. split; [now rewrite H1 | exact H2].
Defined.

(** ** inference_stream: which exceptions, and which decodes end it *)

Section StreamEnds.
Variable T : Type.
Variables tmul tadd : T -> T -> T.
Variables zero one : T.
Variable linspace : T -> T -> nat -> list T.
Hypothesis linspace_length : forall a b n, List.length (linspace a b n) = n.
Variables Lat Code : Type.
Variable hifigan_decoder : list Lat -> list T.

Local Abbreviation loop := (@stream_loop T tmul tadd zero one linspace Lat Code hifigan_decoder).
Local Abbreviation decode := (decode_chunk tmul tadd zero one linspace hifigan_decoder).
Local Abbreviation hc := (handle_chunks tmul tadd zero one linspace).
Local Abbreviation dec := (fun all_latents : list (list Lat) => hifigan_decoder (concat all_latents)).

Lemma decode_chunk_raises (all_latents : list (list Lat)) (prev ov : option (list T))
      (overlap_wav_len : Z) (e : exn) :
  decode all_latents prev ov overlap_wav_len = Err e ->
  e = RuntimeError \/ e = IndexError.
Proof.
  unfold decode_chunk, torch_cat, squeeze.
  destruct all_latents as [| l all_latents]; [intros [= <-]; now left |].
  cbn [rbind].
  destruct (List.length (hifigan_decoder (concat (l :: all_latents))) =? 1);
    [intros [= <-]; now right |].
  cbn [rbind]. intros H. left.
  exact (handle_chunks_raises T tmul tadd zero one linspace _ _ _ _ _ H).
Qed.

Lemma stream_loop_raises (stream_chunk_size overlap_wav_len : Z)
      (generator : list (Code * list Lat)) :
  forall last_tokens all_latents prev ov e,
    snd (loop stream_chunk_size overlap_wav_len generator last_tokens all_latents prev ov)
    = Raised e ->
    e = RuntimeError \/ e = IndexError.
Proof.
  induction generator as [| [x latent] g IH]; intros last_tokens all_latents prev ov e;
    cbn [stream_loop].
  - destruct (decode all_latents prev ov overlap_wav_len) as [[[c p'] ov'] | e'] eqn:E;
      cbn [snd]; [discriminate |].
    intros [= <-]. exact (decode_chunk_raises _ _ _ _ _ E).
  - destruct (_ && _)%bool.
    + destruct (decode (all_latents ++ [latent]) prev ov overlap_wav_len)
        as [[[c p'] ov'] | e'] eqn:E.
      * specialize (IH [] (all_latents ++ [latent]) (Some p') (Some ov') e).
        destruct (loop stream_chunk_size overlap_wav_len g [] (all_latents ++ [latent])
                       (Some p') (Some ov')) as [chunks st].
        cbn [snd] in *. exact IH.
      * cbn [snd]. intros [= <-]. exact (decode_chunk_raises _ _ _ _ _ E).
    + apply IH.
Qed.

(** A decode after the first one that adds fewer samples than the overlap. *)
Lemma decode_chunk_short
      (all_latents : list (list Lat)) (prev wp : list T) (overlap_wav_len : Z) :
  let n := Z.to_nat overlap_wav_len in
  let w := dec all_latents in
  (2 <= overlap_wav_len)%Z ->
  List.length prev = List.length wp ->
  n <= List.length wp ->
  List.length wp <= List.length w ->
  List.length w < List.length wp + n ->
  exists e,
    decode all_latents (Some prev) (Some (skipn (List.length wp - n) wp)) overlap_wav_len
    = Err e.
Proof.
  intros n w Hn Hprev Hwp Hle Hshort.
  destruct (decode all_latents (Some prev) (Some (skipn (List.length wp - n) wp))
                   overlap_wav_len) as [[[c p'] ov'] | e] eqn:E; [| now exists e].
  exfalso. apply decode_chunk_ok in E.
  apply (handle_chunks_some_inv T tmul tadd zero one linspace linspace_length) in E;
    [| rewrite length_skipn; fold n; lia].
  cbv zeta in E. destruct E as (_ & Hfit & _).
  rewrite py_slice_chunk_region in Hfit by (fold n; fold w; lia).
  fold n w in Hfit. rewrite region_length in Hfit.
  rewrite Nat.min_l in Hfit by lia.
  destruct Hfit as [H | [H _]]; lia.
Qed.

Lemma lengths_grow_by_false {A} (n : nat) (w w' : list A) (rest : list (list A)) :
  lengths_grow_by n (w :: w' :: rest) = false ->
  List.length w' < List.length w + n \/
  (List.length w + n <= List.length w' /\ lengths_grow_by n (w' :: rest) = false).
Proof.
  cbn [lengths_grow_by]. intros H. apply andb_false_iff in H.
  destruct (Nat.leb_spec (List.length w + n) (List.length w')) as [Hle | Hlt].
  - right. split; [exact Hle |]. destruct H as [H | H]; [discriminate | exact H].
  - now left.
Qed.

Lemma stream_loop_short_after (stream_chunk_size overlap_wav_len : Z)
      (generator : list (Code * list Lat)) :
  let n := Z.to_nat overlap_wav_len in
  (2 <= overlap_wav_len)%Z ->
  forall last_tokens all_latents prev wp,
    all_latents <> [] ->
    List.length prev = List.length wp ->
    n <= List.length wp ->
    lengths_nondecreasing
      (wp :: map dec (stream_flushes stream_chunk_size generator last_tokens all_latents))
    = true ->
    lengths_grow_by n
      (wp :: map dec (stream_flushes stream_chunk_size generator last_tokens all_latents))
    = false ->
    exists e,
      snd (loop stream_chunk_size overlap_wav_len generator last_tokens all_latents
                (Some prev) (Some (skipn (List.length wp - n) wp)))
      = Raised e.
Proof.
  intros n Hn.
  assert (Hpos : (0 < overlap_wav_len)%Z) by lia.
  induction generator as [| [x latent] g IH];
    intros last_tokens all_latents prev wp Hall Hprev Hwp Hmono Hgrow;
    cbn [stream_loop stream_flushes map] in *.
  - apply lengths_nondecreasing_cons in Hmono. destruct Hmono as [Hle _].
    apply lengths_grow_by_false in Hgrow.
    destruct Hgrow as [Hshort | [_ Hfalse]]; [| discriminate Hfalse].
    destruct (decode_chunk_short all_latents prev wp overlap_wav_len
                Hn Hprev Hwp Hle Hshort) as [e He].
    fold n in He. rewrite He. now exists e.
  - assert (Hall' : all_latents ++ [latent] <> [])
      by (intros H; symmetry in H; now apply app_cons_not_nil in H).
    destruct ((0 <? stream_chunk_size)%Z
              && (stream_chunk_size <=? len (last_tokens ++ [x]))%Z)%bool.
    + cbn [map] in *.
      apply lengths_nondecreasing_cons in Hmono. destruct Hmono as [Hle Hmono].
      apply lengths_grow_by_false in Hgrow.
      destruct Hgrow as [Hshort | [Hlong Hgrow]].
      * destruct (decode_chunk_short (all_latents ++ [latent]) prev wp overlap_wav_len
                    Hn Hprev Hwp Hle Hshort) as [e He].
        fold n in He. rewrite He. now exists e.
      * destruct (decode_chunk_next T tmul tadd zero one linspace linspace_length
                    Lat hifigan_decoder (all_latents ++ [latent]) prev wp overlap_wav_len
                    Hpos Hall' Hprev Hwp Hlong) as (p' & Hd & Hp).
        fold n in Hd. rewrite Hd.
        destruct (IH [] (all_latents ++ [latent]) p' (dec (all_latents ++ [latent]))
                     Hall' Hp ltac:(lia) Hmono Hgrow) as [e He].
        destruct (loop stream_chunk_size overlap_wav_len g [] (all_latents ++ [latent])
                       (Some p')
                       (Some (skipn (List.length (dec (all_latents ++ [latent])) - n)
                                    (dec (all_latents ++ [latent]))))) as [chunks st].
        cbn [snd] in *. now exists e.
    + exact (IH _ _ prev wp Hall' Hprev Hwp Hmono Hgrow).
Qed.

Lemma stream_loop_short (stream_chunk_size overlap_wav_len : Z)
      (generator : list (Code * list Lat)) :
  let n := Z.to_nat overlap_wav_len in
  (2 <= overlap_wav_len)%Z ->
  forall last_tokens all_latents,
    let decodes :=
      map dec (stream_flushes stream_chunk_size generator last_tokens all_latents) in
    n <= List.length (hd [] decodes) ->
    lengths_nondecreasing decodes = true ->
    lengths_grow_by n decodes = false ->
    exists e,
      snd (loop stream_chunk_size overlap_wav_len generator last_tokens all_latents
                None None)
      = Raised e.
Proof.
  intros n Hn.
  induction generator as [| [x latent] g IH];
    intros last_tokens all_latents decodes Hhd Hmono Hgrow; unfold decodes in *;
    cbn [stream_loop stream_flushes map hd] in *.
  - discriminate Hgrow.
  - assert (Hall' : all_latents ++ [latent] <> [])
      by (intros H; symmetry in H; now apply app_cons_not_nil in H).
    destruct ((0 <? stream_chunk_size)%Z
              && (stream_chunk_size <=? len (last_tokens ++ [x]))%Z)%bool.
    + cbn [map hd] in *.
      destruct (decode (all_latents ++ [latent]) None None overlap_wav_len)
        as [[[c p'] ov'] | e] eqn:E; [| now exists e].
      apply decode_chunk_ok in E.
      rewrite (handle_chunks_first T tmul tadd zero one linspace
                 (dec (all_latents ++ [latent])) overlap_wav_len) in E
        by (unfold len; lia).
      injection E as _ <- <-. fold n.
      destruct (stream_loop_short_after stream_chunk_size overlap_wav_len g Hn
                  [] (all_latents ++ [latent]) (dec (all_latents ++ [latent]))
                  (dec (all_latents ++ [latent])) Hall' eq_refl Hhd Hmono Hgrow)
        as [e He].
      cbv beta zeta in He. fold n in He.
      destruct (loop stream_chunk_size overlap_wav_len g [] (all_latents ++ [latent])
                     (Some (dec (all_latents ++ [latent])))
                     (Some (skipn (List.length (dec (all_latents ++ [latent])) - n)
                                  (dec (all_latents ++ [latent]))))) as [chunks st].
      cbn [snd] in *. now exists e.
    + apply IH; [exact Hhd | exact Hmono | exact Hgrow].
Qed.
End StreamEnds.

(** X20.  [inference_stream] hands the tokens of the text to the GPT
    generator without the length check of [inference]: a text of
    [gpt_max_text_tokens] tokens or more, on which [inference] raises
    [AssertionError], is streamed like any other.  The only exceptions the
    stream raises itself (its collaborators returning) are the [RuntimeError]
    of [torch.cat] and of [handle_chunks] and the [IndexError] of slicing a
    decode of one sample. *)
Theorem inference_stream_no_length_check
    (T : Type) (tmul tadd : T -> T -> T) (zero one : T)
    (linspace : T -> T -> nat -> list T)
    (Lat Code Spk Cond Sampling Mel Num Emb : Type)
    (self : Components Lat Spk (list T) Cond Sampling Mel Num) (args : XttsArgs)
    (gpt_compute_embeddings : Cond -> list Z -> Emb)
    (gpt_get_generator : Emb -> Sampling -> list (Code * list Lat))
    (text language : string) (gpt_cond_latent : Cond) (speaker_embedding : Spk)
    (stream_chunk_size overlap_wav_len : Z) (sampling : Sampling)
    (dargs : DecoderArgs Num) (log : list call) :
  let run := inference_stream_from_text tmul tadd zero one linspace self
               gpt_compute_embeddings gpt_get_generator text language
               gpt_cond_latent speaker_embedding stream_chunk_size overlap_wav_len
               sampling in
  let text_tokens := tokens_of self text language in
  run = inference_stream tmul tadd zero one linspace
          (fun gpt_latents => hifigan_decoder self gpt_latents speaker_embedding)
          stream_chunk_size overlap_wav_len
          (gpt_get_generator (gpt_compute_embeddings gpt_cond_latent text_tokens) sampling) /\
  (forall e, snd run = Raised e -> e = RuntimeError \/ e = IndexError) /\
  ((gpt_max_text_tokens args <= len text_tokens)%Z ->
   fst (inference self args text language gpt_cond_latent speaker_embedding sampling
                  dargs log)
   = Err AssertionError /\
   snd run <> Raised AssertionError).
Proof.
  intros run text_tokens.
  assert (Hraise : forall e, snd run = Raised e -> e = RuntimeError \/ e = IndexError).
  { intros e. unfold run, inference_stream_from_text, inference_stream.
    apply stream_loop_raises. }
  split; [reflexivity |]. split; [exact Hraise |].
  intros Hlong. split.
  - rewrite inference_unfold.
    replace (len (tokens_of self text language) <? gpt_max_text_tokens args)%Z
      with false by (symmetry; apply Z.ltb_ge; exact Hlong).
    reflexivity.
  - intros H. destruct (Hraise _ H) as [E | E]; discriminate E.
Qed.

(** X21.  When no decode is shorter than the one before it and the first
    holds at least [overlap_wav_len] samples, a decode after the first that
    adds fewer than [overlap_wav_len] samples ends the stream in an exception,
    for an overlap of two samples or more: the stream then completes only when
    every decode adds at least [overlap_wav_len] samples. *)
Theorem inference_stream_short_growth
    (T : Type) (tmul tadd : T -> T -> T) (zero one : T)
    (linspace : T -> T -> nat -> list T)
    (Lat Code : Type) (hifigan_decoder : list Lat -> list T)
    (stream_chunk_size overlap_wav_len : Z) (generator : list (Code * list Lat)) :
  (forall a b n, List.length (linspace a b n) = n) ->
  (2 <= overlap_wav_len)%Z ->
  let decodes := stream_decodes hifigan_decoder stream_chunk_size generator in
  let n := Z.to_nat overlap_wav_len in
  (overlap_wav_len <= len (hd [] decodes))%Z ->
  lengths_nondecreasing decodes = true ->
  lengths_grow_by n decodes = false ->
  exists e,
    snd (inference_stream tmul tadd zero one linspace hifigan_decoder
                          stream_chunk_size overlap_wav_len generator)
    = Raised e.
Proof.
  intros Hlin Hn decodes n Hhd Hmono Hgrow. unfold inference_stream.
  apply (stream_loop_short T tmul tadd zero one linspace Hlin Lat Code hifigan_decoder
           stream_chunk_size overlap_wav_len generator Hn [] []).
  - fold (stream_decodes hifigan_decoder stream_chunk_size generator). fold decodes.
    unfold len in Hhd. lia.
  - exact Hmono.
  - exact Hgrow.
Qed.

Lemma inference_stream_short_growth_witness :
  let generator := Demo.generator_of [10; 20; 30; 40; 50]%Z in
  let decodes := stream_decodes Demo.causal_decoder 2 generator in
  map (@List.length QArith_base.Q) decodes = [6; 12; 15] /\
  exists e, snd (Demo.inference_streamQ Demo.causal_decoder 2 4 generator) = Raised e.
Proof.
  cbv zeta. split; [reflexivity |].
  unfold Demo.inference_streamQ.
  apply (inference_stream_short_growth
           QArith_base.Q QArith_base.Qmult QArith_base.Qplus (Demo.q 0) (Demo.q 1)
           Demo.linspaceQ Z Z Demo.causal_decoder 2 4
           (Demo.generator_of [10; 20; 30; 40; 50]%Z) linspaceQ_length);
    [lia | vm_compute; discriminate | vm_compute; reflexivity | vm_compute; reflexivity].
Defined.

(** ** get_gpt_cond_latents in get_conditioning_latents *)

Lemma last_map_default {A B} (f : A -> B) (l : list A) (d : A) :
  last (map f l) (f d) = f (last l d).
Proof.
  induction l as [| a l IH]; [reflexivity |].
  destruct l as [| a' l']; [reflexivity | exact IH].
Qed.

Lemma last_map_some_snd {A} (first : A * Z) (clips : list (A * Z)) :
  last (map (fun clip => Some (snd clip)) (first :: clips)) None
  = Some (snd (last clips first)).
Proof.
  cbn [map]. rewrite last_cons_default.
  exact (last_map_default (fun clip : A * Z => Some (snd clip)) clips first).
Qed.

(** X22.  The GPT conditioning latents are computed from the first
    [22050 * gpt_cond_len] samples of the concatenated references only: when
    the sample rate of the last file is 22050 and the first prepared clip
    holds that many samples, [get_conditioning_latents] returns the latents of
    the first clip alone, whatever the other reference files hold. *)
Theorem get_conditioning_latents_first_seconds
    (T Spk Mel Cond : Type)
    (load : string -> result (list T * Z)) (prepare : list T -> Z -> list T)
    (speaker_encoder : list T -> Z -> Spk) (mean : list Spk -> Spk)
    (resample : list T -> Z -> Z -> list T)
    (wav_to_mel_cloning : list T -> Z -> Z -> Z -> Mel) (get_style_emb : Mel -> Cond)
    (gpt_use_perceiver_resampler : bool)
    (audio_path : audio_path_arg) (gpt_cond_len : Z) (log : list call)
    (first : list T * Z) (clips : list (list T * Z)) :
  let self := cloning_components load prepare speaker_encoder mean resample
                                 wav_to_mel_cloning get_style_emb
                                 gpt_use_perceiver_resampler in
  let first_audio := prepare (fst first) (snd first) in
  Forall2 (fun p clip => load p = Ok clip) (audio_paths_of audio_path) (first :: clips) ->
  snd (last clips first) = 22050%Z ->
  (0 <= gpt_cond_len)%Z ->
  (22050 * gpt_cond_len <= len first_audio)%Z ->
  exists spk log',
    get_conditioning_latents self audio_path gpt_cond_len log
    = (Ok (Cloning.get_gpt_cond_latents resample wav_to_mel_cloning get_style_emb
             gpt_use_perceiver_resampler first_audio 22050 gpt_cond_len,
           spk),
       log').
Proof.
  intros self first_audio Hload Hsr Hlen Hfirst.
  unfold get_conditioning_latents.
  unfold bind at 1.
  rewrite (load_references_run _ _ _ self (audio_paths_of audio_path) (first :: clips)
             [] [] None log Hload).
  rewrite last_map_some_snd, Hsr.
  cbn [app map]. unfold bind, invoke, ret.
  eexists. eexists. f_equal. f_equal. f_equal.
  change (clip_audio self first) with first_audio.
  change (torch_cat_audio self) with (@concat T).
  change (get_gpt_cond_latents self)
    with (Cloning.get_gpt_cond_latents resample wav_to_mel_cloning get_style_emb
            gpt_use_perceiver_resampler).
  unfold Cloning.get_gpt_cond_latents.
  change (negb (22050 =? 22050)%Z) with false. cbv iota.
  cbn [concat].
  assert (Hk : (0 <= 22050 * gpt_cond_len)%Z) by lia.
  rewrite !(py_slice_prefix _ _ Hk).
  rewrite firstn_app.
  replace (Z.to_nat (22050 * gpt_cond_len) - List.length first_audio) with 0
    by (unfold len in Hfirst; lia).
  cbn [firstn]. now rewrite app_nil_r.
Qed.

Lemma get_conditioning_latents_first_seconds_witness :
  let second := Z.to_nat 22050 in
  let load := fun p : string => Ok (repeat (Z.of_nat (String.length p)) second, 22050%Z) in
  let self := cloning_components load (fun a _ => a) (fun a _ => hd 0%Z a)
                                 (fun l => hd 0%Z l) (fun a _ _ => a)
                                 (fun a _ _ _ => a) (fun m => m) true in
  exists spk log',
    get_conditioning_latents self (PathList ["a.wav"; "bb.wav"]%string) 1 []
    = (Ok (repeat 5%Z second, spk), log').
Proof.
  cbv zeta.
  destruct (get_conditioning_latents_first_seconds Z Z (list Z) (list Z)
              (fun p : string =>
                 Ok (repeat (Z.of_nat (String.length p)) (Z.to_nat 22050), 22050%Z))
              (fun a _ => a) (fun a _ => hd 0%Z a) (fun l => hd 0%Z l)
              (fun a _ _ => a) (fun a _ _ _ => a) (fun m => m) true
              (PathList ["a.wav"; "bb.wav"]%string) 1 []
              (repeat 5%Z (Z.to_nat 22050), 22050%Z)
              [(repeat 6%Z (Z.to_nat 22050), 22050%Z)])
    as (spk & log' & H).
  - constructor; [reflexivity |]. constructor; [reflexivity | constructor].
  - reflexivity.
  - lia.
  - cbn [fst snd]. unfold len. rewrite repeat_length. lia.
  - exists spk, log'.
    assert (E : Cloning.get_gpt_cond_latents
                  (fun (a : list Z) (_ _ : Z) => a) (fun (a : list Z) (_ _ _ : Z) => a)
                  (fun m : list Z => m) true (repeat 5%Z (Z.to_nat 22050)) 22050 1
                = repeat 5%Z (Z.to_nat 22050)).
    { unfold Cloning.get_gpt_cond_latents.
      change (negb (22050 =? 22050)%Z) with false. cbv iota beta zeta.
      rewrite py_slice_prefix by lia.
      apply firstn_all2. rewrite repeat_length. lia. }
    cbv beta zeta in H. cbn [fst snd] in H. rewrite E in H. exact H.
Defined.

(** ** get_diffusion_cond_latents *)

Lemma ceil_div_chunks (n : Z) :
  (0 <= n)%Z ->
  (0 <= ceil_div n CHUNK_SIZE)%Z /\
  (n = 0 -> ceil_div n CHUNK_SIZE = 0)%Z /\
  (0 < n -> 1 <= ceil_div n CHUNK_SIZE)%Z.
Proof.
  intros Hn. unfold ceil_div.
  assert (Hcs : (0 < CHUNK_SIZE)%Z) by (unfold CHUNK_SIZE; lia).
  split; [apply Z.div_pos; lia |]. split.
  - intros ->. apply Z.div_small. lia.
  - intros Hpos. apply Z.div_le_lower_bound; lia.
Qed.

(** X23.  [get_diffusion_cond_latents] cuts the audio, resampled to 24 kHz,
    into [ceil(N / CHUNK_SIZE)] chunks for its [N] samples.  An audio that is
    empty after resampling gives no chunk, and [torch.stack] raises
    [RuntimeError].  Otherwise the mels of the chunks are stacked, in order,
    and [self.diffusion_decoder] is looked up: as no code of this file
    assigns that attribute, the call raises [AttributeError], so that on a
    model as built here the function never returns; with the attribute
    assigned, it returns the conditioning of the stacked mels. *)
Theorem get_diffusion_cond_latents_chunks
    (T Mel Lat : Type) (zero : T) (resample : list T -> Z -> Z -> list T)
    (wav_to_univnet_mel : list T -> Mel) (diffusion_decoder : option (list Mel -> Lat))
    (audio : list T) (sr : Z) :
  let audio_24k := resample audio sr 24000%Z in
  let chunks := diffusion_cond_chunks zero audio_24k in
  let run := get_diffusion_cond_latents zero resample wav_to_univnet_mel
                                        diffusion_decoder audio sr in
  Z.of_nat (List.length chunks) = ceil_div (len audio_24k) CHUNK_SIZE /\
  (audio_24k = [] -> run = Err RuntimeError) /\
  (audio_24k <> [] ->
   chunks <> [] /\
   run = match diffusion_decoder with
         | None => Err AttributeError
         | Some get_conditioning =>
             Ok (get_conditioning (map wav_to_univnet_mel chunks))
         end) /\
  (diffusion_decoder = None -> exists e, run = Err e).
Proof.
  intros audio_24k chunks run.
  destruct (ceil_div_chunks (len audio_24k) (len_nonneg audio_24k))
    as (Hnonneg & Hzero & Hpos).
  assert (Hlen : List.length chunks = Z.to_nat (ceil_div (len audio_24k) CHUNK_SIZE)).
  { unfold chunks, diffusion_cond_chunks, diffusion_cond_chunks_with.
    now rewrite length_map, length_seq. }
  assert (Hrun : run = match chunks with
                       | [] => Err RuntimeError
                       | _ :: _ =>
                           match diffusion_decoder with
                           | None => Err AttributeError
                           | Some get_conditioning =>
                               Ok (get_conditioning (map wav_to_univnet_mel chunks))
                           end
                       end).
  { unfold run, get_diffusion_cond_latents. fold audio_24k. fold chunks.
    now destruct chunks. }
  assert (Hempty : audio_24k = [] -> chunks = []).
  { intros Hnil. apply length_zero_iff_nil. rewrite Hlen, Hzero; [reflexivity |].
    unfold len. now rewrite Hnil. }
  assert (Hsome : audio_24k <> [] -> chunks <> []).
  { intros Hne Hc. apply (f_equal (@List.length (list T))) in Hc.
    rewrite Hlen in Hc. cbn [List.length] in Hc.
    assert (0 < len audio_24k)%Z.
    { destruct audio_24k; [contradiction | unfold len; cbn [List.length]; lia]. }
    specialize (Hpos ltac:(assumption)). lia. }
  split; [rewrite Hlen; lia |]. split; [| split].
  - intros Hnil. now rewrite Hrun, (Hempty Hnil).
  - intros Hne. split; [exact (Hsome Hne) |].
    rewrite Hrun. destruct chunks; [now destruct (Hsome Hne) | reflexivity].
  - intros ->. rewrite Hrun. destruct chunks; now eexists.
Qed.
